(** * RADIUS dissector (epan/dissectors/packet-radius.c)

    A shallow embedding of the attribute-value-pair walker, the attribute
    decryption routine, the value decoders, the packet decoder, the
    dissector registration routine, the field registration and the CoSine
    VP/VC dissector of packet-radius.c, with the properties stated about
    them.

    Conventions.
    - An octet of the capture is a [byte]; [u8] reads it as a number.
    - [guint32] values are numbers reduced modulo 2^32 ([to_guint32]); a
      [guint32] handed to a [gint] parameter, or added to an [int] variable,
      goes through [to_gint].
    - The protocol tree is write-only for the dissector, so it is modelled by
      the sequence of calls made on it ([event]), in call order. *)

From Stdlib Require Import ZArith Lia Ascii String.
From Stdlib.Strings Require Import Byte.
From stdpp Require Import base gmap strings list pretty.

Open Scope Z_scope.

(** ** Machine integers and octets *)

Definition u8 (b : byte) : Z := Z.of_N (Byte.to_N b).

Definition to_guint32 (z : Z) : Z := z mod 2 ^ 32.

Definition to_gint (z : Z) : Z := (z + 2 ^ 31) mod 2 ^ 32 - 2 ^ 31.

Arguments to_guint32 : simpl never.
Arguments to_gint : simpl never.

(** The octet with a given value (for writing captures down). *)
Definition octet (z : Z) : byte :=
  match Byte.of_N (Z.to_N (z mod 256)) with
  | Some b => b
  | None => x00
  end.

Definition octets (l : list Z) : list byte := map octet l.

(** ** Constants of packet-radius.c *)

Definition AUTHENTICATOR_LENGTH : Z := 16.
Definition RD_HDR_LENGTH : Z := 4.
Definition MAX_RADIUS_PACKET_SIZE : Z := 4096.
Definition RADIUS_VENDOR_SPECIFIC_CODE : Z := 26.
Definition RADIUS_EAP_MESSAGE_CODE : Z := 79.

(** ** Exceptions and results *)

(** [BoundsError] is the exception the buffer accessors raise.  The other
    two stand for what C leaves undefined and the dissector must never
    reach: a call through a NULL function pointer, and a write past the end
    of an array, [eap_buffer] or the [buffer] of [radius_string]. *)
Inductive exn : Type :=
| BoundsError
| NullCall
| BufferOverrun.

Inductive result (A : Type) : Type :=
| Ok (a : A)
| Raise (e : exn).
Arguments Ok {A} a.
Arguments Raise {A} e.

(** ** The capture buffer *)

Definition tvbuff_t : Type := list byte.

Definition tvb_length (tvb : tvbuff_t) : Z := Z.of_nat (length tvb).

(** Modelled from the spec: the buffer accessors of epan/tvbuff.c, which
    packet-radius.c calls and which are not part of the sources at hand.
    The packet is an in-memory byte buffer; multi-byte fields are
    big-endian; a read that leaves the buffer is the fatal truncated-packet
    condition, here [Raise BoundsError].  A length of -1 asks for everything
    up to the end of the buffer. *)
Definition tvb_bytes_exist (tvb : tvbuff_t) (offset len : Z) : bool :=
  (0 <=? offset) && (0 <=? len) && (offset + len <=? tvb_length tvb).

(** Modelled from the spec: [tvb_get_ptr] of epan/tvbuff.c: the octets
    from [offset] on, [len] of them or all that remain. *)
Definition tvb_get_ptr (tvb : tvbuff_t) (offset len : Z) : result (list byte) :=
  if len =? -1 then
    if (0 <=? offset) && (offset <=? tvb_length tvb)
    then Ok (drop (Z.to_nat offset) tvb)
    else Raise BoundsError
  else if tvb_bytes_exist tvb offset len
  then Ok (take (Z.to_nat len) (drop (Z.to_nat offset) tvb))
  else Raise BoundsError.

(** Modelled from the spec: [tvb_memcpy] of epan/tvbuff.c, as the octets
    it copies out. *)
Definition tvb_memcpy (tvb : tvbuff_t) (offset len : Z) : result (list byte) :=
  if tvb_bytes_exist tvb offset len
  then Ok (take (Z.to_nat len) (drop (Z.to_nat offset) tvb))
  else Raise BoundsError.

(** Modelled from the spec: [tvb_get_guint8] of epan/tvbuff.c. *)
Definition tvb_get_guint8 (tvb : tvbuff_t) (offset : Z) : result Z :=
  if 0 <=? offset then
    match tvb !! Z.to_nat offset with
    | Some b => Ok (u8 b)
    | None => Raise BoundsError
    end
  else Raise BoundsError.

(** Big-endian value of a run of octets. *)
Definition ntoh (bs : list byte) : Z :=
  foldl (fun acc b => acc * 256 + u8 b) 0 bs.

(** Modelled from the spec: [tvb_get_ntohs], [tvb_get_ntoh24],
    [tvb_get_ntohl] and [tvb_get_ntoh64] of epan/tvbuff.c, the big-endian
    reads of two, three, four and eight octets. *)
Definition tvb_get_ntoh (width : Z) (tvb : tvbuff_t) (offset : Z) : result Z :=
  match tvb_memcpy tvb offset width with
  | Ok bs => Ok (ntoh bs)
  | Raise e => Raise e
  end.

Definition tvb_get_ntohs := tvb_get_ntoh 2.
Definition tvb_get_ntoh24 := tvb_get_ntoh 3.
Definition tvb_get_ntohl := tvb_get_ntoh 4.
Definition tvb_get_ntoh64 := tvb_get_ntoh 8.

(** Modelled from the spec: [tvb_ensure_length_remaining] of epan/tvbuff.c,
    used here only for its exception: at least one octet exists at
    [offset]. *)
Definition tvb_ensure_length_remaining (tvb : tvbuff_t) (offset : Z) : result unit :=
  if (0 <=? offset) && (offset <? tvb_length tvb) then Ok tt else Raise BoundsError.

(** ** Attribute decryption: [radius_decrypt_avp] *)

(** Modelled from the spec: [isprint] of the C library in the C locale, the
    spec's "printable" octets. *)
Definition isprint (c : Z) : bool := (32 <=? c) && (c <=? 126).

Definition dquote : ascii := ascii_of_N 34.
Definition backslash : ascii := ascii_of_N 92.

Definition gchar (c : Z) : ascii := ascii_of_N (Z.to_N c).

Definition octal_digit (d : Z) : ascii := ascii_of_N (Z.to_N (48 + d)).

(** Modelled from the spec: [sprintf(p, "\\%03o", c)] of the C library for
    an octet [c], the spec's backslash and three-digit octal value. *)
Definition sprintf_03o (c : Z) : list ascii :=
  [backslash; octal_digit (c / 64); octal_digit (c / 8 mod 8); octal_digit (c mod 8)].

(** One turn of either loop: what is appended at [dest + totlen]. *)
Definition put_char (dest : list ascii) (c : Z) : list ascii :=
  if isprint c then dest ++ [gchar c] else dest ++ sprintf_03o c.

Definition byte_at (p : list byte) (i : Z) : Z := u8 (nth (Z.to_nat i) p x00).

(** ** The protocol tree, as the calls made on it *)

(** The texts the dissector builds, one constructor per format string of
    packet-radius.c, with the arguments of the format.  Values that the
    source formats with helpers of other files ([tvb_bytes_to_str],
    [tvb_format_text], [ip_to_str_buf], [ip6_to_str_buf],
    [abs_time_to_str]) carry the formatted datum. *)
Inductive text : Type :=
| NoAvpsFound                                  (* "No Attribute Value Pairs Found" *)
| AvpTooShort                                  (* "AVP too short" *)
| EapTooLong                                   (* "[Eap-Message longer than maximum radius packet size]" *)
| AvpHeader (l : Z)                            (* "AVP: l=%u " *)
| VendorText (vendor : string) (vendor_id : Z) (* "v=%s(%u)" *)
| UnknownVendorText (vendor_id : Z)            (* "v=Unknown(%u)" *)
| TypeText (attr : string) (type_code : Z)     (* " t=%s(%u)" *)
| EapLastSegmentText (seg : Z)                 (* "t=EAP-Message(79) Last Segment[%u]" *)
| EapSegmentText (seg : Z)                     (* "t=EAP-Message(79) Segment[%u]" *)
| TagText (tag : Z)                            (* " Tag=0x%.2x" *)
| DissectorText (str : string)                 (* ": %s" *)
| ColonText                                    (* ": " *)
| Uint64Text (v : Z)                           (* "%" PRIu64 *)
| UnhandledIntLenText (len : Z)                (* "[unhandled integer length(%u)]" *)
| EnumText (label : string) (v : Z)            (* "%s(%u)" *)
| UintText (v : Z)                             (* "%u" *)
| EncryptedText                                (* "Encrypted" *)
| DecryptedText (buffer : string)              (* "Decrypted: %s" *)
| FormatText (value : list byte)               (* "%s", tvb_format_text *)
| BytesText (value : list byte)                (* "%s", tvb_bytes_to_str *)
| WrongLenIpText                               (* "[wrong lenght for IP address]" *)
| IpText (addr : Z)                            (* "%s", ip_to_str_buf *)
| WrongLenIp6Text                              (* "[wrong lenght for IPv6 address]" *)
| Ip6Text (addr : list byte)                   (* "%s", ip6_to_str_buf *)
| WrongLenTimeText                             (* "[wrong lenght for timestamp]" *)
| TimeText (secs : Z)                          (* "%s", abs_time_to_str *)
| BogusLengthText (rhlength : Z)               (* "Bogus header length: %d" *)
| PacketIdText (rhident : Z)                   (* "Packet identifier: 0x%01x (%d)" *)
| AvpsText.                                    (* "Attribute Value Pairs" *)

(** The events are the calls of the functions of epan/proto.c and
    epan/packet.c of the same names, with the arguments that matter here.
    [avp_dissector_items] stands for whatever a registered dissector puts
    into the subtree of its attribute, for the value it is handed. *)
Inductive event : Type :=
| proto_tree_add_text (offset len : Z) (t : text)
| proto_item_append_text (t : text)
| proto_tree_add_item (hf offset len : Z)
| proto_tree_add_uint (hf offset len value : Z)
| proto_tree_add_uint64 (hf offset len value : Z)
| proto_tree_add_uint_format (hf offset len value : Z) (t : text)
| proto_tree_add_string (hf offset len : Z) (value : string)
| proto_tree_add_time (hf offset len secs : Z)
| add_new_data_source (data : list byte)
| call_dissector (data : list byte)
| avp_dissector_items (value : list byte).

(** ** The dictionary (packet-radius.h) *)

(** The functions a descriptor's [type] field can point to. *)
Inductive radius_attr_dissector_t : Type :=
| type_radius_integer
| type_radius_string
| type_radius_octets
| type_radius_ipaddr
| type_radius_ipv6addr
| type_radius_date
| type_radius_abinary
| type_radius_ifid.

(** A registered dissector receives the subtree of the attribute and the
    value as a buffer of its own, and returns the text to show.  Here it is
    the function from the value to that text: the items it puts into the
    subtree are not told apart (the walker records that it was called, as
    [avp_dissector_items]), and it is taken to return normally, as the
    dissector of this file, [dissect_cosine_vpvc], does. *)
Definition radius_avp_dissector_t : Type := tvbuff_t -> string.

Definition value_string : Type := list (Z * string).

(** Modelled from the spec: the attribute descriptor of packet-radius.h,
    with the fields packet-radius.c reads and writes. *)
Record radius_attr_info_t : Type := {
  name : string;
  code : Z;
  encrypt : bool;
  tagged : bool;
  type : option radius_attr_dissector_t;
  dissector : option radius_avp_dissector_t;
  vs : option value_string;
  ett : Z;
  hf : Z;
  hf64 : Z;
  hf_tag : Z;
  hf_len : Z
}.

(** Modelled from the spec: the vendor entry of packet-radius.h. *)
Record radius_vendor_info_t : Type := {
  vendor_name : string;
  vendor_code : Z;
  vendor_attrs_by_id : gmap Z radius_attr_info_t
}.

(** Modelled from the spec: the dictionary of packet-radius.h.
    The hash tables keyed by number hold the descriptors.  Of the tables
    keyed by name only [vendors_by_name] is written by the code below and
    none is read; it maps a name to the number under which the vendor it
    shares with [vendors_by_id] is stored. *)
Record radius_dictionary_t : Type := {
  attrs_by_id : gmap Z radius_attr_info_t;
  vendors_by_id : gmap Z radius_vendor_info_t;
  vendors_by_name : gmap string Z
}.

Definition no_dictionary_entry : radius_attr_info_t :=
  {| name := "Unknown-Attribute"; code := 0; encrypt := false; tagged := false;
     type := Some type_radius_octets; dissector := None; vs := None;
     ett := -1; hf := -1; hf64 := -1; hf_tag := -1; hf_len := -1 |}.

(** Modelled from the spec: [val_to_str] of epan/value_string.c, the
    enumerated-value label lookup: the label of the first entry for the
    value, or the default. *)
Fixpoint val_to_str (v : Z) (table : value_string) (default : string) : string :=
  match table with
  | [] => default
  | (v', label) :: table => if v =? v' then label else val_to_str v table default
  end.

(** ** The state of one walk *)

(** The variables of [dissect_attribute_value_pairs] that live across
    iterations, and the tree built so far.  [eap_tvb] is a buffer over
    [eap_buffer] itself, so it is kept as its length; [eap_tree] is kept as
    "not NULL". *)
Record walker : Type := {
  w_offset : Z;
  w_length : Z;
  last_eap : bool;
  eap_buffer : list byte;
  eap_seg_num : Z;
  eap_tot_len : Z;
  eap_tree : bool;
  eap_tvb : option Z;
  w_tree : list event
}.

Definition set_offset (v : Z) (w : walker) : walker :=
  {| w_offset := v; w_length := w_length w; last_eap := last_eap w;
     eap_buffer := eap_buffer w; eap_seg_num := eap_seg_num w;
     eap_tot_len := eap_tot_len w; eap_tree := eap_tree w; eap_tvb := eap_tvb w;
     w_tree := w_tree w |}.

Definition set_length (v : Z) (w : walker) : walker :=
  {| w_offset := w_offset w; w_length := v; last_eap := last_eap w;
     eap_buffer := eap_buffer w; eap_seg_num := eap_seg_num w;
     eap_tot_len := eap_tot_len w; eap_tree := eap_tree w; eap_tvb := eap_tvb w;
     w_tree := w_tree w |}.

Definition set_tree (v : list event) (w : walker) : walker :=
  {| w_offset := w_offset w; w_length := w_length w; last_eap := last_eap w;
     eap_buffer := eap_buffer w; eap_seg_num := eap_seg_num w;
     eap_tot_len := eap_tot_len w; eap_tree := eap_tree w; eap_tvb := eap_tvb w;
     w_tree := v |}.

(** The assignments of the EAP-Message branch, taken together. *)
Definition set_eap (last : bool) (buffer : list byte) (seg_num tot_len : Z)
    (etree : bool) (etvb : option Z) (w : walker) : walker :=
  {| w_offset := w_offset w; w_length := w_length w; last_eap := last;
     eap_buffer := buffer; eap_seg_num := seg_num; eap_tot_len := tot_len;
     eap_tree := etree; eap_tvb := etvb; w_tree := w_tree w |}.

(** How a piece of the loop body ends: it falls through with a value, or
    executes [continue] or [return], or an exception passes through it. *)
Inductive flow (A : Type) : Type :=
| Val (a : A)
| Continue
| Return
| Throw (e : exn).
Arguments Val {A} a.
Arguments Continue {A}.
Arguments Return {A}.
Arguments Throw {A} e.

Definition M (A : Type) : Type := walker -> flow A * walker.

Definition ret {A} (a : A) : M A := fun w => (Val a, w).

Definition bind {A B} (m : M A) (k : A -> M B) : M B :=
  fun w =>
    match m w with
    | (Val a, w') => k a w'
    | (Continue, w') => (Continue, w')
    | (Return, w') => (Return, w')
    | (Throw e, w') => (Throw e, w')
    end.

#[global] Instance M_ret : MRet M := @ret.
#[global] Instance M_bind : MBind M := fun A B k m => bind m k.

Definition lift {A} (r : result A) : M A :=
  fun w => match r with Ok a => (Val a, w) | Raise e => (Throw e, w) end.

Definition get {A} (f : walker -> A) : M A := fun w => (Val (f w), w).

Definition modify (f : walker -> walker) : M unit := fun w => (Val tt, f w).

Definition emit (e : event) : M unit :=
  fun w => (Val tt, set_tree (w_tree w ++ [e]) w).

Definition continue_ {A} : M A := fun w => (Continue, w).

Definition return_ {A} : M A := fun w => (Return, w).

(** Modelled from the spec: the length of an item of octets or of text, as
    epan/proto.c settles it when the item is made.  A length of -1 stands
    for what remains in the buffer, and then at least one octet must remain
    ([tvb_ensure_length_remaining]); any other length is taken as given. *)
Definition item_length (tvb : tvbuff_t) (offset len : Z) : M unit :=
  if len =? -1 then lift (tvb_ensure_length_remaining tvb offset) else ret tt.

(** [proto_tree_add_item] for a field of octets or of text fetches the
    octets it shows, so it raises when they are not in the buffer. *)
Definition add_item (hf_id : Z) (tvb : tvbuff_t) (offset len : Z) : M unit :=
  item_length tvb offset len;;
  lift (tvb_get_ptr tvb offset len);;
  emit (proto_tree_add_item hf_id offset len).

(** [proto_tree_add_string] is given the text; of the buffer it needs the
    length of the item alone. *)
Definition add_string (hf_id : Z) (tvb : tvbuff_t) (offset len : Z)
    (value : string) : M unit :=
  item_length tvb offset len;;
  emit (proto_tree_add_string hf_id offset len value).

(** A [gchar] array of [size] elements into which the text [s] and its
    terminator are written: past the end of the array it is undefined. *)
Definition gchar_array (size : Z) (s : string) : result unit :=
  if Z.of_nat (String.length s) + 1 <=? size then Ok tt else Raise BufferOverrun.

(** The octets [tvb_bytes_to_str] and [tvb_format_text] go through: [len]
    of them from [offset] on. *)
Definition tvb_value_bytes (tvb : tvbuff_t) (offset len : Z) : M (list byte) :=
  pd ← lift (tvb_get_ptr tvb offset len);
  ret (take (Z.to_nat len) pd).

(** ** The packet decoder's tables and results *)

Definition radius_vals : value_string :=
  [ (1, "Access-Request"); (2, "Access-Accept"); (3, "Access-Reject");
    (4, "Accounting-Request"); (5, "Accounting-Response");
    (6, "Accounting-Status"); (7, "Access-Password-Request");
    (8, "Access-Password-Ack"); (9, "Access-Password-Reject");
    (10, "Accounting-Message"); (11, "Access-challenge");
    (12, "StatusServer"); (13, "StatusClient"); (26, "Vendor-Specific");
    (29, "Ascend-Access-Next-Code"); (30, "Ascend-Access-New-Pin");
    (32, "Ascend-Password-Expired"); (33, "Ascend-Access-Event-Request");
    (34, "Ascend-Access-Event-Response"); (40, "Disconnect-Request");
    (41, "Disconnect-Request ACK"); (42, "Disconnect-Request NAK");
    (43, "Change-Filter-Request"); (44, "Change-Filter-Request-ACK");
    (45, "Change-Filter-Request-NAK"); (255, "Reserved") ].

(** The field numbers the protocol registrar hands out for the header
    fields. *)
Record header_fields : Type := {
  proto_radius : Z;
  hf_radius_id : Z;
  hf_radius_code : Z;
  hf_radius_length : Z;
  hf_radius_authenticator : Z
}.

(** How a function of the dissector ends. *)
Inductive ending : Type :=
| Completed           (* it ran to its end *)
| Returned            (* a [return] on the way *)
| Thrown (e : exn).   (* an exception left it *)

(** What one call of [dissect_radius] leaves behind: the Info column, the
    tree, the globals [authenticator] and [eap_buffer], and how it ended. *)
Record dissection : Type := {
  d_col_info : string;
  d_tree : list event;
  d_authenticator : list byte;
  d_eap_buffer : list byte;
  d_ending : ending
}.

(** ** The registry: [radius_register_avp_dissector] *)

Definition set_dissector (d : radius_avp_dissector_t) (a : radius_attr_info_t)
  : radius_attr_info_t :=
  {| name := name a; code := code a; encrypt := encrypt a; tagged := tagged a;
     type := type a; dissector := Some d; vs := vs a; ett := ett a; hf := hf a;
     hf64 := hf64 a; hf_tag := hf_tag a; hf_len := hf_len a |}.

(** The descriptor made when there is none.  [fresh] is the block
    [g_malloc] returned: the fields the code does not assign ([tagged],
    [hf64], [hf_tag], and [dissector] until the last line) keep what the
    block held. *)
Definition new_dictionary_entry (fresh : radius_attr_info_t) (attribute_id : Z)
  : radius_attr_info_t :=
  {| name := "Unknown-Attribute-" +:+ pretty attribute_id;
     code := attribute_id;
     encrypt := false;
     tagged := tagged fresh;
     type := None;
     dissector := dissector fresh;
     vs := None;
     ett := ett no_dictionary_entry;
     hf := hf no_dictionary_entry;
     hf64 := hf64 fresh;
     hf_tag := hf_tag fresh;
     hf_len := hf_len no_dictionary_entry |}.

(** Lines 713-728 on the table [by_id]: look the descriptor up, make and
    insert one if there is none, then store the dissector in it.  The
    descriptor is shared with the table, so the table sees the store. *)
Definition register_in (fresh : radius_attr_info_t) (attribute_id : Z)
    (radius_avp_dissector : radius_avp_dissector_t)
    (by_id : gmap Z radius_attr_info_t) : gmap Z radius_attr_info_t :=
  match by_id !! attribute_id with
  | Some dictionary_entry =>
      <[attribute_id := set_dissector radius_avp_dissector dictionary_entry]> by_id
  | None =>
      let dictionary_entry := new_dictionary_entry fresh attribute_id in
      <[code dictionary_entry := set_dissector radius_avp_dissector dictionary_entry]> by_id
  end.

Definition radius_register_avp_dissector (fresh : radius_attr_info_t)
    (vendor_id attribute_id : Z) (radius_avp_dissector : radius_avp_dissector_t)
    (dict : radius_dictionary_t) : radius_dictionary_t :=
  if negb (vendor_id =? 0) then
    match vendors_by_id dict !! vendor_id with
    | Some vendor =>
        let vendor :=
          {| vendor_name := vendor_name vendor; vendor_code := vendor_code vendor;
             vendor_attrs_by_id :=
               register_in fresh attribute_id radius_avp_dissector
                 (vendor_attrs_by_id vendor) |} in
        {| attrs_by_id := attrs_by_id dict;
           vendors_by_id := <[vendor_id := vendor]> (vendors_by_id dict);
           vendors_by_name := vendors_by_name dict |}
    | None =>
        let vendor :=
          {| vendor_name := "Unknown-Vendor-" +:+ pretty vendor_id;
             vendor_code := vendor_id;
             vendor_attrs_by_id :=
               register_in fresh attribute_id radius_avp_dissector ∅ |} in
        {| attrs_by_id := attrs_by_id dict;
           vendors_by_id := <[vendor_code vendor := vendor]> (vendors_by_id dict);
           vendors_by_name :=
             <[vendor_name vendor := vendor_code vendor]> (vendors_by_name dict) |}
    end
  else
    {| attrs_by_id :=
         register_in fresh attribute_id radius_avp_dissector (attrs_by_id dict);
       vendors_by_id := vendors_by_id dict;
       vendors_by_name := vendors_by_name dict |}.

(** ** Attribute decryption in the words of the specification *)

(** Output octet [i] is [ciphertext[i] XOR digest[i]] below 16 and
    [ciphertext[i]] from 16 on. *)
Definition decrypt_output (ciphertext digest : list byte) : list Z :=
  imap (fun i b => if Z.of_nat i <? 16
                   then Z.lxor (u8 b) (byte_at digest (Z.of_nat i))
                   else u8 b) ciphertext.

(** An output octet is shown literally when printable and as a three-digit
    octal escape otherwise. *)
Definition render_octet (c : Z) : list ascii :=
  if isprint c then [gchar c] else sprintf_03o c.

(** The display string for a given digest: the rendered octets between one
    leading and one trailing quote. *)
Definition decrypt_display (ciphertext digest : list byte) : string :=
  string_of_list_ascii
    ([dquote] ++ concat (map render_octet (decrypt_output ciphertext digest))
     ++ [dquote]).

(** ** What a walk has to do with the attributes it passes *)

(** The calls of the EAP dissector recorded in a tree. *)
Fixpoint eap_calls (tree : list event) : list (list byte) :=
  match tree with
  | [] => []
  | call_dissector data :: tree => data :: eap_calls tree
  | _ :: tree => eap_calls tree
  end.

(** Whether the attribute at [offset] is an EAP-Message. *)
Definition is_eap_at (tvb : tvbuff_t) (offset : Z) : bool :=
  match tvb_get_guint8 tvb offset with
  | Ok avp_type => avp_type =? RADIUS_EAP_MESSAGE_CODE
  | Raise _ => false
  end.

(** The declared length of the attribute at [offset]. *)
Definition avp_length_at (tvb : tvbuff_t) (offset : Z) : Z :=
  match tvb_get_guint8 tvb (offset + 1) with
  | Ok avp_length => avp_length
  | Raise _ => 0
  end.

(** The value octets of the attribute at [offset]: what follows its two
    header octets, up to its declared length. *)
Definition avp_value_at (tvb : tvbuff_t) (offset : Z) : list byte :=
  take (Z.to_nat (avp_length_at tvb offset - 2)) (drop (Z.to_nat (offset + 2)) tvb).

(** The EAP-Message fragments among the attributes at [offsets], in the
    order of the offsets. *)
Definition eap_fragments (tvb : tvbuff_t) (offsets : list Z) : list (list byte) :=
  map (avp_value_at tvb) (List.filter (is_eap_at tvb) offsets).

(** The sizes of those fragments as their headers declare them: the
    declared length less the two header octets. *)
Definition eap_fragment_sizes (tvb : tvbuff_t) (offsets : list Z) : list Z :=
  map (fun offset => avp_length_at tvb offset - 2) (List.filter (is_eap_at tvb) offsets).

(** An EAP-Message at [offset] is the last fragment when the attribute that
    follows it is not an EAP-Message, or no further attribute (two header
    octets and one of value) is left in the buffer. *)
Definition last_fragment_at (tvb : tvbuff_t) (offset : Z) : bool :=
  is_eap_at tvb offset
  && (negb (tvb_bytes_exist tvb offset (avp_length_at tvb offset + 3))
      || negb (is_eap_at tvb (offset + avp_length_at tvb offset))).

(** [in_step tvb offsets start stop]: the attributes at [offsets] lie one
    behind the other from [start] to [stop], each as long as its header
    declares, and each declares at least 3. *)
Fixpoint in_step (tvb : tvbuff_t) (offsets : list Z) (start stop : Z) : Prop :=
  match offsets with
  | [] => start = stop
  | offset :: offsets =>
      offset = start /\ 3 <= avp_length_at tvb offset
      /\ in_step tvb offsets (offset + avp_length_at tvb offset) stop
  end.

(** [in_step] as a test. *)
Fixpoint in_stepb (tvb : tvbuff_t) (offsets : list Z) (start stop : Z) : bool :=
  match offsets with
  | [] => start =? stop
  | offset :: offsets =>
      (offset =? start) && (3 <=? avp_length_at tvb offset)
      && in_stepb tvb offsets (offset + avp_length_at tvb offset) stop
  end.

(** ** Captures and dictionaries used in the examples *)

Definition empty_dict : radius_dictionary_t :=
  {| attrs_by_id := ∅; vendors_by_id := ∅; vendors_by_name := ∅ |}.

(** A stand-in digest for running the examples: sixteen octets cut from the
    message, padded with zeros. *)
Definition toy_md5 (m : list byte) : list byte := take 16 (m ++ repeat x00 16).

Definition zero_buffer : list byte := repeat x00 4096.

(** A header of code 1, identifier 7, the given length and a zero
    authenticator. *)
Definition header (total_length : Z) : list Z :=
  [1; 7; total_length / 256; total_length mod 256] ++ repeat 0 16.

(** A tagged integer attribute, as Tunnel-Type is in the dictionaries. *)
Definition tagged_attr : radius_attr_info_t :=
  {| name := "Tunnel-Type"; code := 64; encrypt := false; tagged := true;
     type := Some type_radius_integer; dissector := None; vs := None;
     ett := 1; hf := 2; hf64 := 3; hf_tag := 4; hf_len := 5 |}.

(** A dictionary with that attribute, and a vendor 9 that has a tagged
    attribute 1. *)
Definition tagged_dict : radius_dictionary_t :=
  {| attrs_by_id := {[ 64 := tagged_attr ]};
     vendors_by_id :=
       {[ 9 := {| vendor_name := "Cisco"; vendor_code := 9;
                  vendor_attrs_by_id := {[ 1 := tagged_attr ]} |} ]};
     vendors_by_name := {[ "Cisco" := 9 ]} |}.

(** User-Name as the dictionaries have it, and a dictionary with it. *)
Definition user_name_attr : radius_attr_info_t :=
  {| name := "User-Name"; code := 1; encrypt := false; tagged := false;
     type := Some type_radius_string; dissector := None; vs := None;
     ett := 6; hf := 7; hf64 := 8; hf_tag := 9; hf_len := 10 |}.

Definition user_dict : radius_dictionary_t :=
  {| attrs_by_id := {[ 1 := user_name_attr ]}; vendors_by_id := ∅;
     vendors_by_name := ∅ |}.

(** An Access-Request with identifier 7 and the User-Name "testuser". *)
Definition access_request : tvbuff_t :=
  octets (header 30 ++ [1; 10; 116; 101; 115; 116; 117; 115; 101; 114]).

Definition example_fields : header_fields :=
  {| proto_radius := 100; hf_radius_id := 101; hf_radius_code := 102;
     hf_radius_length := 103; hf_radius_authenticator := 104 |}.

(** A Vendor-Specific attribute of declared length 7, followed by an
    attribute of type 1 and length 3. *)
Definition short_vsa_packet : tvbuff_t :=
  octets (header 30 ++ [26; 7; 0; 0; 0; 9; 1] ++ [1; 3; 65]).

(** One Vendor-Specific attribute of declared length 8: vendor 9, sub-type
    1, sub-length 2, no value; the packet ends with it. *)
Definition empty_vsa_packet : tvbuff_t :=
  octets (header 28 ++ [26; 8; 0; 0; 0; 9; 1; 2]).

(** Three EAP-Message attributes with 10, 10 and 5 value octets, then an
    attribute of type 1. *)
Definition eap_packet : tvbuff_t :=
  octets (header 54 ++ [79; 12] ++ repeat 1 10 ++ [79; 12] ++ repeat 2 10
          ++ [79; 7] ++ repeat 3 5 ++ [1; 3; 65]).

(** Two EAP-Message attributes with 5 and 3 value octets that fill the
    region of 12 octets the length field leaves, and three octets of
    padding behind the packet, the first of them 79. *)
Definition padded_eap_packet : tvbuff_t :=
  octets (header 32 ++ [79; 7; 1; 2; 3; 4; 5] ++ [79; 5; 6; 7; 8] ++ [79; 9; 9]).

(** The three EAP-Message attributes and the attribute of type 1 of
    [eap_packet], and an attribute of declared length 1 behind them. *)
Definition eap_malformed_packet : tvbuff_t :=
  octets (header 56 ++ [79; 12] ++ repeat 1 10 ++ [79; 12] ++ repeat 2 10
          ++ [79; 7] ++ repeat 3 5 ++ [1; 3; 65] ++ [2; 1]).

(** An attribute of length 1 after a sound one. *)
Definition malformed_packet : tvbuff_t :=
  octets (header 27 ++ [1; 3; 65] ++ [2; 1; 0; 0]).

(** Two tagged attributes: the value of the first starts with 0x1F, that of
    the second with 0x20. *)
Definition tagged_packet : tvbuff_t :=
  octets (header 32 ++ [64; 6; 31; 0; 0; 1] ++ [64; 6; 32; 0; 0; 1]).

(** Seventeen EAP-Message attributes of 253 value octets each: the
    seventeenth takes the total past 4096. *)
Definition long_eap_packet : tvbuff_t :=
  octets (header 4355 ++ concat (repeat ([79; 255] ++ repeat 7 253) 17)).

(** The same seventeen attributes with an attribute of type 1 behind
    them. *)
Definition long_eap_name_packet : tvbuff_t :=
  octets (header 4358 ++ concat (repeat ([79; 255] ++ repeat 7 253) 17) ++ [1; 3; 65]).

(** Where the attributes of that packet start. *)
Definition long_eap_name_offsets : list Z :=
  map (fun i => 20 + 255 * i) (seqZ 0 18).

(** Two tagged attributes, an EAP-Message, and an attribute of vendor 9
    with a tag and a value of four octets. *)
Definition mixed_packet : tvbuff_t :=
  octets (header 51 ++ [64; 6; 31; 0; 0; 1] ++ [79; 6; 1; 2; 3; 4]
          ++ [64; 6; 32; 0; 0; 1] ++ [26; 13; 0; 0; 0; 9; 1; 7; 2; 0; 0; 0; 5]).

(** A header that gives 10 as the length of the packet. *)
Definition bogus_packet : tvbuff_t := octets ([1; 7; 0; 10] ++ repeat 0 16).

(** A packet that is its header alone. *)
Definition header_packet : tvbuff_t := octets (header 20).

(** A packet whose length field leaves 5 octets for the attributes, with
    an attribute of declared length 6 that the capture holds in full. *)
Definition overshoot_packet : tvbuff_t :=
  octets (header 25 ++ [1; 6; 65; 66; 67; 68]).

(** An attribute of a type no dictionary knows. *)
Definition unknown_packet : tvbuff_t :=
  octets (header 25 ++ [99; 5; 1; 2; 3]).

(** ** The header fields of a packet *)

(** The code, the identifier and the length field of the packet in [tvb],
    and the Info column made of them. *)
Definition packet_code (tvb : tvbuff_t) : Z := byte_at tvb 0.

Definition packet_identifier (tvb : tvbuff_t) : Z := byte_at tvb 1.

Definition packet_length (tvb : tvbuff_t) : Z := 256 * byte_at tvb 2 + byte_at tvb 3.

Definition info_column (tvb : tvbuff_t) : string :=
  val_to_str (packet_code tvb) radius_vals "Unknown Packet" +:+ "("
  +:+ pretty (packet_code tvb) +:+ ") (id=" +:+ pretty (packet_identifier tvb)
  +:+ ", l=" +:+ pretty (packet_length tvb) +:+ ")".

(** ** Values of a length their type does not take *)

(** The note a decoder puts in place of the value when the length is not
    one it takes: integers take 2, 3, 4 or 8 octets, IPv4 addresses and
    dates 4, IPv6 addresses 16; the other types take every length. *)
Definition wrong_length (ty : radius_attr_dissector_t) (len : Z) : option text :=
  match ty with
  | type_radius_integer =>
      if (len =? 2) || (len =? 3) || (len =? 4) || (len =? 8) then None
      else Some (UnhandledIntLenText (to_guint32 len))
  | type_radius_ipaddr => if len =? 4 then None else Some WrongLenIpText
  | type_radius_ipv6addr => if len =? 16 then None else Some WrongLenIp6Text
  | type_radius_date => if len =? 4 then None else Some WrongLenTimeText
  | _ => None
  end.

(** ** The dissector for the CoSine VP/VC attribute *)

(** Modelled from the spec: [g_snprintf] of GLib, which writes what fits
    into [size - 1] characters and a terminator. *)
Definition g_snprintf (size : nat) (s : string) : string :=
  string_of_list_ascii (take (size - 1) (list_ascii_of_string s)).

(** [dissect_cosine_vpvc]: the items it adds and the text it returns.
    [hf_vpi] and [hf_vci] are the field numbers the registrar gave
    [hf_radius_cosine_vpi] and [hf_radius_cosine_vci]. *)
Definition dissect_cosine_vpvc (hf_vpi hf_vci : Z) (tvb : tvbuff_t)
  : result (list event * string) :=
  if negb (tvb_length tvb =? 4) then Ok ([], "[Wrong Lenght for VP/VC AVP]"%string)
  else
    match tvb_get_ntohs tvb 0 with
    | Raise e => Raise e
    | Ok vpi =>
        match tvb_get_ntohs tvb 2 with
        | Raise e => Raise e
        | Ok vci =>
            Ok ([ proto_tree_add_uint hf_vpi 0 2 vpi;
                  proto_tree_add_uint hf_vci 2 2 vci ],
                g_snprintf 24 (pretty vpi +:+ "/" +:+ pretty vci))
        end
    end.

(** ** Field registration: [register_attrs] and [register_vendors] *)

(** Modelled from the spec: the field types and display bases of
    epan/ftypes and epan/proto.h that packet-radius.c names. *)
Inductive ftenum : Type :=
| FT_NONE | FT_UINT8 | FT_UINT16 | FT_UINT32 | FT_UINT64 | FT_STRING | FT_BYTES
| FT_IPv4 | FT_IPv6 | FT_ABSOLUTE_TIME.

Inductive base_display : Type := BASE_NONE | BASE_DEC | BASE_HEX.

(** The [int] of a descriptor that a [p_id] points to. *)
Inductive attr_field : Type := field_hf | field_hf_len | field_hf64 | field_hf_tag.

(** Modelled from the spec: [hf_register_info] of epan/proto.h, with the
    members packet-radius.c fills in.  [p_id] is the descriptor and which
    of its numbers the registrar is to set; [None] is NULL. *)
Record hf_register_info : Type := {
  p_id : option (radius_attr_info_t * attr_field);
  hfinfo_name : option string;
  hfinfo_abbrev : option string;
  hfinfo_type : ftenum;
  hfinfo_display : base_display;
  hfinfo_strings : option value_string;
  hfinfo_blurb : string
}.

(** An element of the array [ri->ett].  The array is made for elements of
    [sizeof(gint)] octets (line 784), and [g_array_append_val(ri->ett,ett)]
    copies one such element from the start of the variable [ett], a pointer
    that holds the address of the [ett] of a descriptor (lines 590, 668).
    So the element is the first [sizeof(gint)] octets of that address; it
    is the address as a whole only where a pointer is as wide as a
    [gint]. *)
Inductive ett_element : Type :=
| ett_address_head (a : radius_attr_info_t).

(** [hfett_t]: the arrays the registration collects. *)
Record hfett_t : Type := {
  ri_hf : list hf_register_info;
  ri_ett : list ett_element;
  ri_vend_vs : value_string
}.

(** An array element as the initialiser of [hfri] leaves it. *)
Definition blank_hfri (t : ftenum) (d : base_display) : hf_register_info :=
  {| p_id := None; hfinfo_name := None; hfinfo_abbrev := None; hfinfo_type := t;
     hfinfo_display := d; hfinfo_strings := None; hfinfo_blurb := "" |}.

(** Lines 601-603: every '-' of the string becomes '_'. *)
Fixpoint replace_hyphens (s : string) : string :=
  match s with
  | EmptyString => EmptyString
  | String c s =>
      String (if Ascii.eqb c "-" then "_"%char else c) (replace_hyphens s)
  end.

(** Lines 615-655: the field type and base for the type of a descriptor. *)
Definition value_field_type (a : radius_attr_info_t) : ftenum * base_display :=
  match type a with
  | Some type_radius_integer => (FT_UINT32, BASE_DEC)
  | Some type_radius_string => (FT_STRING, BASE_NONE)
  | Some type_radius_octets => (FT_BYTES, BASE_NONE)
  | Some type_radius_ipaddr => (FT_IPv4, BASE_DEC)
  | Some type_radius_ipv6addr => (FT_IPv6, BASE_HEX)
  | Some type_radius_date => (FT_ABSOLUTE_TIME, BASE_NONE)
  | Some type_radius_abinary => (FT_BYTES, BASE_NONE)
  | Some type_radius_ifid => (FT_BYTES, BASE_NONE)
  | None => (FT_BYTES, BASE_NONE)
  end.

Definition is_radius_integer (a : radius_attr_info_t) : bool :=
  match type a with
  | Some type_radius_integer => true
  | _ => false
  end.

(** [register_attrs]: the array [hfri] of four elements is filled in and
    its first [len_hf] elements are appended to [ri->hf]. *)
Definition register_attrs (a : radius_attr_info_t) (ri : hfett_t) : hfett_t :=
  let abbrev := replace_hyphens ("radius." +:+ name a) in
  let hfri0 :=
    {| p_id := Some (a, field_hf); hfinfo_name := Some (name a);
       hfinfo_abbrev := Some abbrev;
       hfinfo_type := (value_field_type a).1;
       hfinfo_display := (value_field_type a).2;
       hfinfo_strings := if is_radius_integer a then vs a else None;
       hfinfo_blurb := "" |} in
  let hfri1 :=
    {| p_id := Some (a, field_hf_len); hfinfo_name := Some "Length"%string;
       hfinfo_abbrev := Some (abbrev +:+ ".len");
       hfinfo_type := FT_UINT8; hfinfo_display := BASE_DEC;
       hfinfo_strings := None; hfinfo_blurb := name a +:+ " Length" |} in
  let hfri2 :=
    if is_radius_integer a then
      {| p_id := Some (a, field_hf64); hfinfo_name := Some (name a);
         hfinfo_abbrev := Some abbrev;
         hfinfo_type := FT_UINT64; hfinfo_display := BASE_DEC;
         hfinfo_strings := None; hfinfo_blurb := "" |}
    else blank_hfri FT_NONE BASE_NONE in
  let hfri := [hfri0; hfri1; hfri2; blank_hfri FT_NONE BASE_NONE] in
  let len_hf := if is_radius_integer a then 3%nat else 2%nat in
  let tag :=
    {| p_id := Some (a, field_hf_tag); hfinfo_name := Some "Tag"%string;
       hfinfo_abbrev := Some (abbrev +:+ ".tag");
       hfinfo_type := FT_UINT8; hfinfo_display := BASE_HEX;
       hfinfo_strings := None; hfinfo_blurb := name a +:+ " Tag" |} in
  let hfri := if tagged a then <[len_hf := tag]> hfri else hfri in
  let len_hf := if tagged a then S len_hf else len_hf in
  {| ri_hf := ri_hf ri ++ take len_hf hfri;
     ri_ett := ri_ett ri ++ [ett_address_head a];
     ri_vend_vs := ri_vend_vs ri |}.

(** Modelled from the spec: [g_hash_table_foreach] of GLib, which calls the
    function on every entry of the table, once each, in an order of its
    own.  [entries] is the entries of the table in the order GLib takes
    them; the key is not used by the functions called here. *)
Definition g_hash_table_foreach {V : Type} (entries : list (Z * V))
    (func : V -> hfett_t -> hfett_t) (ri : hfett_t) : hfett_t :=
  foldl (fun ri entry => func entry.2 ri) ri entries.

(** An order in which the tables of a kind may be gone through: it gives,
    for each table, the entries of the table, each once. *)
Definition traversal {V : Type} (order : gmap Z V -> list (Z * V)) : Prop :=
  forall table, order table ≡ₚ map_to_list table.

(** [register_vendors]: the vendor's number and name go to [ri->vend_vs],
    then every attribute of the vendor is registered. *)
Definition register_vendors
    (attrs_order : gmap Z radius_attr_info_t -> list (Z * radius_attr_info_t))
    (vnd : radius_vendor_info_t) (ri : hfett_t) : hfett_t :=
  let ri :=
    {| ri_hf := ri_hf ri; ri_ett := ri_ett ri;
       ri_vend_vs := ri_vend_vs ri ++ [(vendor_code vnd, vendor_name vnd)] |} in
  g_hash_table_foreach (attrs_order (vendor_attrs_by_id vnd)) register_attrs ri.

(** Lines 813-815: what [proto_register_radius] collects from a dictionary
    that was loaded, on top of what [ri] holds: first the top-level
    attributes, then the vendors. *)
Definition register_dictionary
    (attrs_order : gmap Z radius_attr_info_t -> list (Z * radius_attr_info_t))
    (vendors_order : gmap Z radius_vendor_info_t -> list (Z * radius_vendor_info_t))
    (dict : radius_dictionary_t) (ri : hfett_t) : hfett_t :=
  g_hash_table_foreach (vendors_order (vendors_by_id dict))
    (register_vendors attrs_order)
    (g_hash_table_foreach (attrs_order (attrs_by_id dict)) register_attrs ri).

(** The number of fields [register_attrs] registers for a descriptor. *)
Definition field_count (a : radius_attr_info_t) : nat :=
  (2 + (if is_radius_integer a then 1 else 0) + (if tagged a then 1 else 0))%nat.

(** The number of descriptors of a dictionary, top-level and of vendors. *)
Definition dictionary_attributes (dict : radius_dictionary_t) : nat :=
  (size (attrs_by_id dict)
   + sum_list ((fun entry => size (vendor_attrs_by_id entry.2))
               <$> map_to_list (vendors_by_id dict)))%nat.

Section Radius.

(** The MD5 digest of epan/crypt-md5.c ([md5_init], [md5_append] twice,
    [md5_finish]), as a function from the message to the digest. *)
Variable md5 : list byte -> list byte.

(** The globals the dissector reads: the dictionary [dict] and the
    preference [shared_secret].  The third, [authenticator], is written by
    [dissect_radius] and so is passed along. *)
Variable dict : radius_dictionary_t.
Variable shared_secret : list byte.

(** ** Attribute decryption: [radius_decrypt_avp] *)

(** [for (i = 0; i < AUTHENTICATOR_LENGTH && i < length; i++)] runs [i] over
    [0 .. min(16, length) - 1]; [while (i < length)] then runs it up to
    [length - 1]. *)
Definition radius_decrypt_avp (authenticator : list byte)
    (tvb : tvbuff_t) (offset length : Z) : result string :=
  let dest := [dquote] in
  let digest := md5 (shared_secret ++ authenticator) in
  match tvb_get_ptr tvb offset length with
  | Raise e => Raise e
  | Ok pd =>
      let n := Z.max 0 (Z.min AUTHENTICATOR_LENGTH length) in
      let dest :=
        foldl (fun dest i => put_char dest (Z.lxor (byte_at pd i) (byte_at digest i)))
              dest (seqZ 0 n) in
      let dest :=
        foldl (fun dest i => put_char dest (byte_at pd i))
              dest (seqZ n (length - n)) in
      Ok (string_of_list_ascii (dest ++ [dquote]))
  end.

(** ** The value decoders *)

Definition radius_integer (a : radius_attr_info_t) (tvb : tvbuff_t)
    (offset len : Z) : M unit :=
  if len =? 8 then
    uint64 ← lift (tvb_get_ntoh64 tvb offset);
    emit (proto_tree_add_uint64 (hf64 a) offset len uint64);;
    emit (proto_item_append_text (Uint64Text uint64))
  else if (len =? 2) || (len =? 3) || (len =? 4) then
    uint ← lift (tvb_get_ntoh len tvb offset);
    emit (proto_tree_add_uint (hf a) offset len uint);;
    match vs a with
    | Some table =>
        emit (proto_item_append_text (EnumText (val_to_str uint table "Unknown") uint))
    | None => emit (proto_item_append_text (UintText uint))
    end
  else emit (proto_item_append_text (UnhandledIntLenText (to_guint32 len))).

Definition radius_string (authenticator : list byte) (a : radius_attr_info_t)
    (tvb : tvbuff_t) (offset len : Z) : M unit :=
  if encrypt a then
    match shared_secret with
    | [] =>
        emit (proto_item_append_text EncryptedText);;
        add_item (hf a) tvb offset len
    | _ :: _ =>
        buffer ← lift (radius_decrypt_avp authenticator tvb offset len);
        lift (gchar_array 1024 buffer);;
        emit (proto_item_append_text (DecryptedText buffer));;
        add_string (hf a) tvb offset len buffer
    end
  else
    add_item (hf a) tvb offset len;;
    value ← tvb_value_bytes tvb offset len;
    emit (proto_item_append_text (FormatText value)).

Definition radius_octets (a : radius_attr_info_t) (tvb : tvbuff_t)
    (offset len : Z) : M unit :=
  add_item (hf a) tvb offset len;;
  value ← tvb_value_bytes tvb offset len;
  emit (proto_item_append_text (BytesText value)).

Definition radius_ipaddr (a : radius_attr_info_t) (tvb : tvbuff_t)
    (offset len : Z) : M unit :=
  if negb (len =? 4) then emit (proto_item_append_text WrongLenIpText)
  else
    uint ← lift (tvb_get_ntohl tvb offset);
    add_item (hf a) tvb offset len;;
    emit (proto_item_append_text (IpText uint)).

Definition radius_ipv6addr (a : radius_attr_info_t) (tvb : tvbuff_t)
    (offset len : Z) : M unit :=
  if negb (len =? 16) then emit (proto_item_append_text WrongLenIp6Text)
  else
    add_item (hf a) tvb offset len;;
    ipv6_buff ← lift (tvb_memcpy tvb offset len);
    emit (proto_item_append_text (Ip6Text ipv6_buff)).

Definition radius_date (a : radius_attr_info_t) (tvb : tvbuff_t)
    (offset len : Z) : M unit :=
  if negb (len =? 4) then emit (proto_item_append_text WrongLenTimeText)
  else
    secs ← lift (tvb_get_ntohl tvb offset);
    emit (proto_tree_add_time (hf a) offset len secs);;
    emit (proto_item_append_text (TimeText secs)).

Definition radius_abinary (a : radius_attr_info_t) (tvb : tvbuff_t)
    (offset len : Z) : M unit :=
  add_item (hf a) tvb offset len;;
  value ← tvb_value_bytes tvb offset len;
  emit (proto_item_append_text (BytesText value)).

Definition radius_ifid (a : radius_attr_info_t) (tvb : tvbuff_t)
    (offset len : Z) : M unit :=
  add_item (hf a) tvb offset len;;
  value ← tvb_value_bytes tvb offset len;
  emit (proto_item_append_text (BytesText value)).

(** The call [dictionary_entry->type(...)]; through a NULL pointer it is
    undefined. *)
Definition call_type (authenticator : list byte) (a : radius_attr_info_t)
    (tvb : tvbuff_t) (offset len : Z) : M unit :=
  match type a with
  | Some type_radius_integer => radius_integer a tvb offset len
  | Some type_radius_string => radius_string authenticator a tvb offset len
  | Some type_radius_octets => radius_octets a tvb offset len
  | Some type_radius_ipaddr => radius_ipaddr a tvb offset len
  | Some type_radius_ipv6addr => radius_ipv6addr a tvb offset len
  | Some type_radius_date => radius_date a tvb offset len
  | Some type_radius_abinary => radius_abinary a tvb offset len
  | Some type_radius_ifid => radius_ifid a tvb offset len
  | None => lift (Raise NullCall)
  end.

(** ** The walker: [dissect_attribute_value_pairs] *)

(** [tvb_memcpy(tvb, eap_buffer + eap_tot_len, ...)]: the octets land in
    [eap_buffer] from [pos] on; past the end of the array it is undefined. *)
Definition write_buffer (buffer : list byte) (pos : Z) (data : list byte)
  : result (list byte) :=
  if (0 <=? pos) && (pos + Z.of_nat (length data) <=? Z.of_nat (length buffer))
  then Ok (take (Z.to_nat pos) buffer ++ data
           ++ drop (Z.to_nat pos + length data) buffer)
  else Raise BufferOverrun.

(** Lines 386-408: the Vendor-Specific branch.  It yields the descriptor
    and the value of [avp_length] after it. *)
Definition vendor_specific (tvb : tvbuff_t) (avp_length : Z)
  : M (radius_attr_info_t * Z) :=
  offset ← get w_offset;
  vendor_id ← lift (tvb_get_ntohl tvb (offset + 2));
  avp_vsa_type ← lift (tvb_get_guint8 tvb (offset + 6));
  avp_vsa_len ← lift (tvb_get_guint8 tvb (offset + 7));
  let vendor := vendors_by_id dict !! vendor_id in
  dictionary_entry ←
    match vendor with
    | Some v =>
        emit (proto_item_append_text (VendorText (vendor_name v) vendor_id));;
        ret (vendor_attrs_by_id v !! avp_vsa_type)
    | None =>
        emit (proto_item_append_text (UnknownVendorText vendor_id));;
        ret None
    end;
  let dictionary_entry := default no_dictionary_entry dictionary_entry in
  emit (proto_item_append_text (TypeText (name dictionary_entry) avp_vsa_type));;
  modify (set_offset (offset + 8));;
  ret (dictionary_entry, to_guint32 (avp_length - 8)).

(** Lines 410-448: the EAP-Message branch, which ends in [continue]. *)
Definition eap_message (tvb : tvbuff_t) (avp_length : Z)
  : M (radius_attr_info_t * Z) :=
  offset ← get w_offset;
  w ← get id;
  let eap_seg_len := to_guint32 (avp_length - 2) in
  if to_guint32 (eap_tot_len w + eap_seg_len) >? MAX_RADIUS_PACKET_SIZE then
    emit (proto_tree_add_text offset 0 EapTooLong);;
    return_
  else
    data ← lift (tvb_memcpy tvb (offset + 2) eap_seg_len);
    buffer ← lift (write_buffer (eap_buffer w) (eap_tot_len w) data);
    let tot_len := to_guint32 (eap_tot_len w + eap_seg_len) in
    let seg_num := to_guint32 (eap_seg_num w + 1) in
    last ←
      (if tvb_bytes_exist tvb offset (to_gint (avp_length + 3)) then
         next_type ← lift (tvb_get_guint8 tvb (to_gint (offset + avp_length)));
         ret (if negb (next_type =? RADIUS_EAP_MESSAGE_CODE) then true else last_eap w)
       else ret true);
    (if last : bool then
       emit (proto_item_append_text (EapLastSegmentText seg_num));;
       modify (set_eap last buffer seg_num tot_len true (Some tot_len));;
       emit (add_new_data_source (take (Z.to_nat tot_len) buffer))
     else
       emit (proto_item_append_text (EapSegmentText seg_num));;
       modify (set_eap last buffer seg_num tot_len (eap_tree w) (eap_tvb w)));;
    modify (set_offset (to_gint (offset + avp_length)));;
    continue_.

(** Lines 449-461: every other attribute. *)
Definition plain_attribute (avp_type avp_length : Z)
  : M (radius_attr_info_t * Z) :=
  offset ← get w_offset;
  let dictionary_entry := default no_dictionary_entry (attrs_by_id dict !! avp_type) in
  emit (proto_item_append_text (TypeText (name dictionary_entry) avp_type));;
  modify (set_offset (offset + 2));;
  ret (dictionary_entry, to_guint32 (avp_length - 2)).

(** Lines 470-483: the tag of a tagged attribute; yields [avp_length]. *)
Definition extract_tag (dictionary_entry : radius_attr_info_t) (tvb : tvbuff_t)
    (avp_length : Z) : M Z :=
  if tagged dictionary_entry then
    offset ← get w_offset;
    tag ← lift (tvb_get_guint8 tvb offset);
    if tag <=? 31 then
      emit (proto_tree_add_uint (hf_tag dictionary_entry) offset 1 tag);;
      emit (proto_item_append_text (TagText tag));;
      modify (set_offset (offset + 1));;
      ret (to_guint32 (avp_length - 1))
    else ret avp_length
  else ret avp_length.

(** Lines 485-498: the registered dissector if there is one, else the
    decoder of the descriptor's type. *)
Definition decode_value (authenticator : list byte)
    (dictionary_entry : radius_attr_info_t) (tvb : tvbuff_t)
    (avp_length : Z) : M unit :=
  offset ← get w_offset;
  match dissector dictionary_entry with
  | Some avp_dissector =>
      tvb_value ← lift (tvb_get_ptr tvb offset (to_gint avp_length));
      emit (avp_dissector_items tvb_value);;
      emit (proto_item_append_text (DissectorText (avp_dissector tvb_value)))
  | None =>
      emit (proto_item_append_text ColonText);;
      call_type authenticator dictionary_entry tvb offset (to_gint avp_length)
  end.

(** Lines 463-500: what the Vendor-Specific and the ordinary attribute
    share, from the length item to [offset += avp_length]. *)
Definition avp_tail (authenticator : list byte)
    (dictionary_entry : radius_attr_info_t) (tvb : tvbuff_t)
    (avp_length : Z) : M unit :=
  emit (proto_tree_add_uint (hf_len dictionary_entry) 0 0 avp_length);;
  avp_length ← extract_tag dictionary_entry tvb avp_length;
  decode_value authenticator dictionary_entry tvb avp_length;;
  modify (fun w => set_offset (to_gint (w_offset w + avp_length)) w).

(** Line 386, 410, 449: the branch a pass takes, by the type of the
    attribute. *)
Definition avp_branch (tvb : tvbuff_t) (avp_type avp_length : Z)
  : M (radius_attr_info_t * Z) :=
  if avp_type =? RADIUS_VENDOR_SPECIFIC_CODE then vendor_specific tvb avp_length
  else if avp_type =? RADIUS_EAP_MESSAGE_CODE then eap_message tvb avp_length
  else plain_attribute avp_type avp_length.

(** One pass through the body of the [do ... while] loop. *)
Definition avp_body (authenticator : list byte) (tvb : tvbuff_t) : M unit :=
  offset ← get w_offset;
  avp_type ← lift (tvb_get_guint8 tvb offset);
  avp_length ← lift (tvb_get_guint8 tvb (offset + 1));
  if avp_length <? 3 then
    emit (proto_tree_add_text offset 0 AvpTooShort);;
    return_
  else
    modify (fun w => set_length (to_gint (w_length w - avp_length)) w);;
    lift (tvb_ensure_length_remaining tvb (to_gint (offset + avp_length - 1)));;
    emit (proto_tree_add_text offset avp_length (AvpHeader avp_length));;
    '(dictionary_entry, avp_length) ← avp_branch tvb avp_type avp_length;
    avp_tail authenticator dictionary_entry tvb avp_length.

(** [do { ... } while (length > 0)], with a bound on the number of passes;
    [None] when the bound is used up. *)
Fixpoint do_while (fuel : nat) (authenticator : list byte) (tvb : tvbuff_t)
    (w : walker) : option (ending * walker) :=
  match fuel with
  | O => None
  | S fuel =>
      match avp_body authenticator tvb w with
      | (Val _, w') | (Continue, w') =>
          if w_length w' >? 0 then do_while fuel authenticator tvb w'
          else Some (Completed, w')
      | (Return, w') => Some (Returned, w')
      | (Throw e, w') => Some (Thrown e, w')
      end
  end.

(** The locals at function entry; [buffer] is what the static [eap_buffer]
    holds from earlier calls. *)
Definition walker_init (buffer : list byte) (offset length : Z) : walker :=
  {| w_offset := offset; w_length := length; last_eap := false;
     eap_buffer := buffer; eap_seg_num := 0; eap_tot_len := 0;
     eap_tree := false; eap_tvb := None; w_tree := [] |}.

(** Lines 504-506: the call of the EAP dissector after the loop. *)
Definition call_eap (w : walker) : walker :=
  match eap_tree w, eap_tvb w with
  | true, Some len =>
      set_tree (w_tree w ++ [call_dissector (take (Z.to_nat len) (eap_buffer w))]) w
  | _, _ => w
  end.

Definition dissect_attribute_value_pairs (fuel : nat)
    (authenticator buffer : list byte) (tvb : tvbuff_t) (offset length : Z)
  : option (ending * walker) :=
  let w := walker_init buffer offset length in
  if length =? 0 then
    Some (Returned, set_tree [proto_tree_add_text offset 0 NoAvpsFound] w)
  else
    match do_while fuel authenticator tvb w with
    | Some (Completed, w') => Some (Completed, call_eap w')
    | r => r
    end.

(** What the dictionary holds for the attribute of type [avp_type] at
    [offset]: for a Vendor-Specific attribute the vendor's descriptor for
    the sub-type, for any other the descriptor for the type. *)
Definition dictionary_lookup (tvb : tvbuff_t) (offset avp_type : Z)
  : option radius_attr_info_t :=
  if avp_type =? RADIUS_VENDOR_SPECIFIC_CODE then
    match tvb_get_ntohl tvb (offset + 2), tvb_get_guint8 tvb (offset + 6) with
    | Ok vendor_id, Ok avp_vsa_type =>
        match vendors_by_id dict !! vendor_id with
        | Some vendor => vendor_attrs_by_id vendor !! avp_vsa_type
        | None => None
        end
    | _, _ => None
    end
  else attrs_by_id dict !! avp_type.

(** The octets before the value: eight in a Vendor-Specific attribute, two
    in any other. *)
Definition header_width (avp_type : Z) : Z :=
  if avp_type =? RADIUS_VENDOR_SPECIFIC_CODE then 8 else 2.

(** What is shown for an attribute of declared length [l] at [offset]
    that has no descriptor: the item of the attribute, for a
    Vendor-Specific attribute the vendor, then the name Unknown-Attribute
    with the code, the length of the value, and the value octets as
    octets. *)
Definition unknown_attribute_events (tvb : tvbuff_t) (offset avp_type l : Z)
  : list event :=
  let h := header_width avp_type in
  [proto_tree_add_text offset l (AvpHeader l)]
  ++ (if avp_type =? RADIUS_VENDOR_SPECIFIC_CODE then
        match tvb_get_ntohl tvb (offset + 2) with
        | Ok vendor_id =>
            match vendors_by_id dict !! vendor_id with
            | Some vendor =>
                [proto_item_append_text (VendorText (vendor_name vendor) vendor_id)]
            | None => [proto_item_append_text (UnknownVendorText vendor_id)]
            end
        | Raise _ => []
        end
      else [])
  ++ [proto_item_append_text
        (TypeText "Unknown-Attribute"
           (if avp_type =? RADIUS_VENDOR_SPECIFIC_CODE
            then byte_at tvb (offset + 6) else avp_type));
      proto_tree_add_uint (hf_len no_dictionary_entry) 0 0 (l - h);
      proto_item_append_text ColonText;
      proto_tree_add_item (hf no_dictionary_entry) (offset + h) (l - h);
      proto_item_append_text
        (BytesText (take (Z.to_nat (l - h)) (drop (Z.to_nat (offset + h)) tvb)))].

(** [walks a tvb w offsets w']: from [w] the loop makes one pass for each
    of [offsets], the offsets at which the passes start, each pass reaching
    the loop condition and finding it true; the next pass would start in
    [w']. *)
Inductive walks (authenticator : list byte) (tvb : tvbuff_t)
  : walker -> list Z -> walker -> Prop :=
| walks_nil w : walks authenticator tvb w [] w
| walks_cons w f w1 offsets w2 :
    avp_body authenticator tvb w = (f, w1) ->
    f = Val tt \/ f = Continue ->
    w_length w1 > 0 ->
    walks authenticator tvb w1 offsets w2 ->
    walks authenticator tvb w (w_offset w :: offsets) w2.

(** [walks] as a function: the walker after [n] passes that each reach the
    loop condition and find it true, with the offsets at which they
    started. *)
Fixpoint run_passes (n : nat) (authenticator : list byte) (tvb : tvbuff_t)
    (w : walker) : option (list Z * walker) :=
  match n with
  | O => Some ([], w)
  | S n =>
      match avp_body authenticator tvb w with
      | (Val _, w1) | (Continue, w1) =>
          if w_length w1 >? 0 then
            match run_passes n authenticator tvb w1 with
            | Some (offsets, w2) => Some (w_offset w :: offsets, w2)
            | None => None
            end
          else None
      | _ => None
      end
  end.

(** [completes a tvb w offsets w']: from [w] the loop makes one pass for
    each of [offsets] and ends after the last of them, which finds the loop
    condition false, in [w']. *)
Inductive completes (authenticator : list byte) (tvb : tvbuff_t)
  : walker -> list Z -> walker -> Prop :=
| completes_last w f w1 :
    avp_body authenticator tvb w = (f, w1) ->
    f = Val tt \/ f = Continue ->
    w_length w1 <= 0 ->
    completes authenticator tvb w [w_offset w] w1
| completes_cons w f w1 offsets w2 :
    avp_body authenticator tvb w = (f, w1) ->
    f = Val tt \/ f = Continue ->
    w_length w1 > 0 ->
    completes authenticator tvb w1 offsets w2 ->
    completes authenticator tvb w (w_offset w :: offsets) w2.

(** ** The packet decoder: [dissect_radius] *)

Variable ids : header_fields.

(** [tree] says whether the caller has a tree to fill ([tree] not NULL);
    without one the Info column is written and nothing else is done.
    [authenticator] and [buffer] are the globals as earlier packets left
    them.  The item of the protocol stands for the octets of the packet as
    a whole and, like an item of text, has no value that is fetched; the
    item of the authenticator is a field of octets, which is. *)
Definition dissect_radius (tree : bool) (fuel : nat)
    (authenticator buffer : list byte) (tvb : tvbuff_t) : option dissection :=
  match tvb_memcpy tvb 0 4 with
  | Raise e => Some (Build_dissection "" [] authenticator buffer (Thrown e))
  | Ok rh =>
      let rhcode := byte_at rh 0 in
      let rhident := byte_at rh 1 in
      let rhlength := ntoh (drop 2 rh) in
      let hdrlength := RD_HDR_LENGTH + AUTHENTICATOR_LENGTH in
      let avplength := to_gint (rhlength - hdrlength) in
      let info :=
        val_to_str rhcode radius_vals "Unknown Packet" +:+ "(" +:+ pretty rhcode
        +:+ ") (id=" +:+ pretty rhident +:+ ", l=" +:+ pretty rhlength +:+ ")" in
      if tree then
        let radius_tree :=
          [ proto_tree_add_item (proto_radius ids) 0 rhlength;
            proto_tree_add_uint (hf_radius_code ids) 0 1 rhcode;
            proto_tree_add_uint_format (hf_radius_id ids) 1 1 rhident
              (PacketIdText rhident) ] in
        if avplength >=? 0 then
          let radius_tree :=
            radius_tree ++ [proto_tree_add_uint (hf_radius_length ids) 2 2 rhlength] in
          match tvb_get_ptr tvb 4 AUTHENTICATOR_LENGTH with
          | Raise e =>
              Some (Build_dissection info radius_tree authenticator buffer (Thrown e))
          | Ok _ =>
              let radius_tree :=
                radius_tree ++ [proto_tree_add_item (hf_radius_authenticator ids) 4
                                  AUTHENTICATOR_LENGTH] in
              match tvb_memcpy tvb 0 AUTHENTICATOR_LENGTH with
              | Raise e =>
                  Some (Build_dissection info radius_tree authenticator buffer (Thrown e))
              | Ok authenticator =>
                  if avplength >? 0 then
                    let radius_tree :=
                      radius_tree ++ [proto_tree_add_text hdrlength avplength AvpsText] in
                    match dissect_attribute_value_pairs fuel authenticator buffer
                            tvb hdrlength avplength with
                    | None => None
                    | Some (e, w) =>
                        Some (Build_dissection info (radius_tree ++ w_tree w)
                                authenticator (eap_buffer w) e)
                    end
                  else
                    Some (Build_dissection info radius_tree authenticator buffer Completed)
              end
          end
        else
          Some (Build_dissection info
                  (radius_tree ++ [proto_tree_add_text 2 2 (BogusLengthText rhlength)])
                  authenticator buffer Returned)
      else Some (Build_dissection info [] authenticator buffer Completed)
  end.

(** The walker once the header of an attribute of declared length [l] has
    been accepted: the length is counted down and the item is in the
    tree. *)
Definition accepted (l : Z) (w : walker) : walker :=
  set_tree (w_tree w ++ [proto_tree_add_text (w_offset w) l (AvpHeader l)])
    (set_length (to_gint (w_length w - l)) w).

(** ** What a piece of the loop body leaves alone *)

(** [keeps w w']: the tree has grown by events that are not calls of the
    EAP dissector, and the remaining length and all the EAP variables are
    as before. *)
Definition keeps (w w' : walker) : Prop :=
  w_length w' = w_length w /\ last_eap w' = last_eap w
  /\ eap_buffer w' = eap_buffer w /\ eap_seg_num w' = eap_seg_num w
  /\ eap_tot_len w' = eap_tot_len w /\ eap_tree w' = eap_tree w
  /\ eap_tvb w' = eap_tvb w
  /\ exists evs, w_tree w' = w_tree w ++ evs /\ eap_calls evs = [].

(** [quiet w w']: moreover the offset is as before. *)
Definition quiet (w w' : walker) : Prop :=
  keeps w w' /\ w_offset w' = w_offset w.

(** A piece that is quiet however it ends, and ends neither in [continue]
    nor in [return] nor in a write past the end of an array. *)
Definition quietly {A} (m : M A) : Prop :=
  forall w f w', m w = (f, w') ->
    quiet w w' /\ f <> Continue /\ f <> Return /\ f <> Throw BufferOverrun.

(** How the branch of a pass ends the pass when it does not fall through to
    the tail. *)
Definition ends_pass {A B} (fb : flow A) (f : flow B) : Prop :=
  (fb = Continue /\ f = Continue) \/ (fb = Return /\ f = Return)
  \/ (exists e, fb = Throw e /\ f = Throw e).

(** What the EAP variables hold after the passes at [offsets]: the front of
    [eap_buffer] is the fragments met, in the order met; the total is their
    size; a last fragment has been seen exactly if one of the attributes
    passed was one; and the buffer for the EAP dissector is there exactly
    then, over all that is accumulated. *)
Definition reassembled (tvb : tvbuff_t) (offsets : list Z) (w : walker) : Prop :=
  take (Z.to_nat (eap_tot_len w)) (eap_buffer w) = concat (eap_fragments tvb offsets)
  /\ eap_tot_len w = Z.of_nat (length (concat (eap_fragments tvb offsets)))
  /\ eap_tot_len w = foldr Z.add 0 (eap_fragment_sizes tvb offsets)
  /\ last_eap w = existsb (last_fragment_at tvb) offsets
  /\ eap_tree w = last_eap w
  /\ eap_tvb w = (if last_eap w then Some (eap_tot_len w) else None).

(** What holds of the EAP variables throughout a walk: the total is within
    the size of [eap_buffer], and [eap_buffer] has its size. *)
Definition eap_inv (w : walker) : Prop :=
  0 <= eap_tot_len w <= MAX_RADIUS_PACKET_SIZE
  /\ Z.of_nat (length (eap_buffer w)) = MAX_RADIUS_PACKET_SIZE.


(** ** Regions the walk gets through *)

(** The type of the attribute at [offset]. *)
Definition avp_type_at (tvb : tvbuff_t) (offset : Z) : Z :=
  match tvb_get_guint8 tvb offset with
  | Ok avp_type => avp_type
  | Raise _ => 0
  end.

(** A Vendor-Specific attribute declares at least the eight octets of its
    two headers. *)
Definition vendor_specific_fits (tvb : tvbuff_t) (offset : Z) : bool :=
  if avp_type_at tvb offset =? RADIUS_VENDOR_SPECIFIC_CODE
  then 8 <=? avp_length_at tvb offset
  else true.

(** A descriptor that has something to decode a value with: a registered
    dissector or a type. *)
Definition has_decoder (a : radius_attr_info_t) : bool :=
  match dissector a, type a with
  | None, None => false
  | _, _ => true
  end.

(** The attribute at [offset] can be decoded from its own octets: its
    descriptor has a decoder and, when it is tagged, there is a value octet
    for the tag.  An EAP-Message is not decoded by the walker. *)
Definition decodable (tvb : tvbuff_t) (offset : Z) : bool :=
  let avp_type := avp_type_at tvb offset in
  if avp_type =? RADIUS_EAP_MESSAGE_CODE then true
  else
    let dictionary_entry :=
      default no_dictionary_entry (dictionary_lookup tvb offset avp_type) in
    has_decoder dictionary_entry
    && (if tagged dictionary_entry
        then header_width avp_type <? avp_length_at tvb offset
        else true).

(** The walk of the region of [length] octets at [offset] ran to the end of
    its loop, the offset at the end of the region and nothing left of the
    length. *)
Definition region_consumed (fuel : nat) (authenticator buffer : list byte)
    (tvb : tvbuff_t) (offset length : Z) : Prop :=
  exists w,
    dissect_attribute_value_pairs fuel authenticator buffer tvb offset length
    = Some (Completed, w)
    /\ w_offset w = offset + length /\ w_length w = 0.

(** ** Dictionaries whose descriptors can all decode *)

(** Every descriptor of the dictionary, top-level or of a vendor, has a
    registered dissector or a type. *)
Definition dict_decodes (d : radius_dictionary_t) : Prop :=
  map_Forall (fun _ a => has_decoder a = true) (attrs_by_id d)
  /\ map_Forall
       (fun _ vendor =>
          map_Forall (fun _ a => has_decoder a = true) (vendor_attrs_by_id vendor))
       (vendors_by_id d).

(** Every descriptor of the dictionary, top-level or of a vendor, has a
    type and no registered dissector. *)
Definition dict_typed (d : radius_dictionary_t) : Prop :=
  map_Forall (fun _ a => dissector a = None /\ type a <> None) (attrs_by_id d)
  /\ map_Forall
       (fun _ vendor =>
          map_Forall (fun _ a => dissector a = None /\ type a <> None)
            (vendor_attrs_by_id vendor))
       (vendors_by_id d).

(** A piece of the loop body that makes no call through a NULL pointer. *)
Definition defined {A} (m : M A) : Prop :=
  forall w f w', m w = (f, w') -> f <> Throw NullCall.

(** ** What [dissect_radius] puts into the tree for the header *)

(** The items for the protocol, the code and the identifier, and with them
    those for the length and the authenticator. *)
Definition header_items (tvb : tvbuff_t) : list event :=
  [ proto_tree_add_item (proto_radius ids) 0 (packet_length tvb);
    proto_tree_add_uint (hf_radius_code ids) 0 1 (packet_code tvb);
    proto_tree_add_uint_format (hf_radius_id ids) 1 1 (packet_identifier tvb)
      (PacketIdText (packet_identifier tvb)) ].

Definition length_items (tvb : tvbuff_t) : list event :=
  [ proto_tree_add_uint (hf_radius_length ids) 2 2 (packet_length tvb);
    proto_tree_add_item (hf_radius_authenticator ids) 4 AUTHENTICATOR_LENGTH ].

(** * Properties *)

(** ** Machine integers and the buffer *)

Lemma u8_range (b : byte) : 0 <= u8 b <= 255.
Proof.
  unfold u8. pose proof (Byte.to_N_bounded b). lia.
Qed.

Lemma to_gint_small (z : Z) : - 2 ^ 31 <= z < 2 ^ 31 -> to_gint z = z.
Proof.
  intros Hz. unfold to_gint. rewrite Z.mod_small; lia.
Qed.

Lemma to_guint32_small (z : Z) : 0 <= z < 2 ^ 32 -> to_guint32 z = z.
Proof.
  intros Hz. unfold to_guint32. apply Z.mod_small; lia.
Qed.

(** Adding a [guint32] to an [int] only sees it modulo 2^32. *)
Lemma to_gint_add_guint32 (a b : Z) : to_gint (a + to_guint32 b) = to_gint (a + b).
Proof.
  unfold to_gint, to_guint32. f_equal.
  rewrite <- (Z.add_assoc a), (Z.add_comm (b mod 2 ^ 32)), Z.add_assoc.
  rewrite Z.add_mod_idemp_r by lia. f_equal. lia.
Qed.

Lemma to_guint32_sub_guint32 (a b : Z) :
  to_guint32 (to_guint32 a - b) = to_guint32 (a - b).
Proof.
  unfold to_guint32. rewrite Zminus_mod_idemp_l. reflexivity.
Qed.

Lemma tvb_get_guint8_Ok (tvb : tvbuff_t) (offset v : Z) :
  tvb_get_guint8 tvb offset = Ok v ->
  0 <= v <= 255 /\ 0 <= offset < tvb_length tvb.
Proof.
  unfold tvb_get_guint8, tvb_length. intros H.
  destruct (0 <=? offset) eqn:Ho; [|discriminate].
  destruct (tvb !! Z.to_nat offset) as [b|] eqn:Hb; [|discriminate].
  injection H as <-. apply lookup_lt_Some in Hb.
  split; [apply u8_range | lia].
Qed.

Lemma tvb_memcpy_Ok (tvb : tvbuff_t) (offset len : Z) (bs : list byte) :
  tvb_memcpy tvb offset len = Ok bs ->
  bs = take (Z.to_nat len) (drop (Z.to_nat offset) tvb)
  /\ Z.of_nat (length bs) = len /\ 0 <= offset /\ offset + len <= tvb_length tvb.
Proof.
  unfold tvb_memcpy, tvb_bytes_exist, tvb_length. intros H.
  destruct (_ && _) eqn:Hb; [|discriminate]. injection H as <-.
  rewrite !andb_true_iff in Hb. destruct Hb as [[H1 H2] H3].
  split; [reflexivity|]. rewrite length_take, length_drop. lia.
Qed.

Lemma tvb_memcpy_exists (tvb : tvbuff_t) (offset len : Z) :
  0 <= offset -> 0 <= len -> offset + len <= tvb_length tvb ->
  tvb_memcpy tvb offset len = Ok (take (Z.to_nat len) (drop (Z.to_nat offset) tvb)).
Proof.
  intros H1 H2 H3. unfold tvb_memcpy, tvb_bytes_exist.
  replace (0 <=? offset) with true by lia.
  replace (0 <=? len) with true by lia.
  replace (offset + len <=? tvb_length tvb) with true by lia.
  reflexivity.
Qed.

Lemma tvb_get_ptr_exists (tvb : tvbuff_t) (offset len : Z) :
  0 <= offset -> 0 <= len -> offset + len <= tvb_length tvb ->
  tvb_get_ptr tvb offset len = Ok (take (Z.to_nat len) (drop (Z.to_nat offset) tvb)).
Proof.
  intros H1 H2 H3. unfold tvb_get_ptr, tvb_bytes_exist.
  replace (len =? -1) with false by lia.
  replace (0 <=? offset) with true by lia.
  replace (0 <=? len) with true by lia.
  replace (offset + len <=? tvb_length tvb) with true by lia.
  reflexivity.
Qed.

(** The accessors raise nothing but [BoundsError]. *)
Lemma tvb_get_guint8_Raise (tvb : tvbuff_t) (offset : Z) (e : exn) :
  tvb_get_guint8 tvb offset = Raise e -> e = BoundsError.
Proof.
  unfold tvb_get_guint8.
  destruct (0 <=? offset); [destruct (tvb !! Z.to_nat offset)|]; congruence.
Qed.

Lemma tvb_memcpy_Raise (tvb : tvbuff_t) (offset len : Z) (e : exn) :
  tvb_memcpy tvb offset len = Raise e -> e = BoundsError.
Proof.
  unfold tvb_memcpy. destruct (tvb_bytes_exist tvb offset len); congruence.
Qed.

Lemma tvb_get_ptr_Raise (tvb : tvbuff_t) (offset len : Z) (e : exn) :
  tvb_get_ptr tvb offset len = Raise e -> e = BoundsError.
Proof.
  unfold tvb_get_ptr.
  destruct (len =? -1); [destruct (_ && _)|destruct (tvb_bytes_exist tvb offset len)];
    congruence.
Qed.

Lemma tvb_get_ntoh_Raise (width : Z) (tvb : tvbuff_t) (offset : Z) (e : exn) :
  tvb_get_ntoh width tvb offset = Raise e -> e = BoundsError.
Proof.
  unfold tvb_get_ntoh. destruct (tvb_memcpy tvb offset width) eqn:E; [discriminate|].
  intros [= <-]. eapply tvb_memcpy_Raise, E.
Qed.

Lemma tvb_ensure_length_remaining_Raise (tvb : tvbuff_t) (offset : Z) (e : exn) :
  tvb_ensure_length_remaining tvb offset = Raise e -> e = BoundsError.
Proof.
  unfold tvb_ensure_length_remaining. destruct (_ && _); congruence.
Qed.

(** ** Attribute decryption *)

Lemma put_char_render (dest : list ascii) (c : Z) :
  put_char dest c = dest ++ render_octet c.
Proof.
  unfold put_char, render_octet. destruct (isprint c); reflexivity.
Qed.

Lemma foldl_put_char (f : Z -> Z) (l : list Z) (dest : list ascii) :
  foldl (fun dest i => put_char dest (f i)) dest l
  = dest ++ concat (map (fun i => render_octet (f i)) l).
Proof.
  revert dest. induction l as [|i l IH]; intros dest; simpl.
  - rewrite app_nil_r. reflexivity.
  - rewrite IH, put_char_render, <- app_assoc. reflexivity.
Qed.

(** The output octets, index by index. *)
Lemma decrypt_output_seqZ (ciphertext digest : list byte) :
  decrypt_output ciphertext digest
  = map (fun i => if i <? 16
                  then Z.lxor (byte_at ciphertext i) (byte_at digest i)
                  else byte_at ciphertext i)
        (seqZ 0 (Z.of_nat (length ciphertext))).
Proof.
  unfold decrypt_output. apply list_eq. intros i.
  rewrite list_lookup_imap, list_lookup_fmap.
  destruct (ciphertext !! i) as [b|] eqn:Hb; simpl.
  - pose proof (lookup_lt_Some _ _ _ Hb) as Hlt.
    rewrite lookup_seqZ_lt by lia. simpl. rewrite Z.add_0_l.
    assert (byte_at ciphertext (Z.of_nat i) = u8 b) as ->; [|reflexivity].
    unfold byte_at. rewrite Nat2Z.id, (nth_lookup_Some _ _ _ _ Hb). reflexivity.
  - apply lookup_ge_None in Hb. rewrite lookup_seqZ_ge by lia. reflexivity.
Qed.

(** The two loops of [radius_decrypt_avp] together go through the output
    octets once. *)
Lemma decrypt_loops (pd digest : list byte) (length : Z) :
  0 <= length -> Z.of_nat (List.length pd) = length ->
  let n := Z.max 0 (Z.min AUTHENTICATOR_LENGTH length) in
  foldl (fun dest i => put_char dest (byte_at pd i))
    (foldl (fun dest i => put_char dest (Z.lxor (byte_at pd i) (byte_at digest i)))
       [dquote] (seqZ 0 n))
    (seqZ n (length - n))
  = [dquote] ++ concat (map render_octet (decrypt_output pd digest)).
Proof.
  intros Hlen Hpd n.
  rewrite (foldl_put_char (fun i => Z.lxor (byte_at pd i) (byte_at digest i))).
  rewrite (foldl_put_char (fun i => byte_at pd i)).
  rewrite <- app_assoc. f_equal.
  rewrite decrypt_output_seqZ, Hpd.
  unfold AUTHENTICATOR_LENGTH in n.
  assert (seqZ 0 length = seqZ 0 n ++ seqZ n (length - n)) as ->.
  { rewrite <- (Z.add_0_l n) at 2. rewrite <- seqZ_app by lia. f_equal. lia. }
  rewrite !map_app, concat_app.
  rewrite !map_map. f_equal; f_equal; apply map_ext_in; intros i Hi;
    apply list_elem_of_In, elem_of_seqZ in Hi.
  - replace (i <? 16) with true by lia. reflexivity.
  - replace (i <? 16) with false by lia. reflexivity.
Qed.

Lemma tvb_get_ptr_length (tvb : tvbuff_t) (offset len : Z) (pd : list byte) :
  0 <= len -> tvb_get_ptr tvb offset len = Ok pd -> Z.of_nat (length pd) = len.
Proof.
  intros Hlen. unfold tvb_get_ptr, tvb_bytes_exist, tvb_length.
  replace (len =? -1) with false by lia.
  destruct (_ && _) eqn:Hb; [|discriminate]. intros [= <-].
  rewrite !andb_true_iff in Hb. destruct Hb as [[H1 H2] H3].
  rewrite length_take, length_drop. lia.
Qed.

(** C3. [radius_decrypt_avp] takes the one digest
    MD5(shared_secret ‖ authenticator); on the ciphertext it fetched, the
    string it builds is the display string of the specification: output
    octet [i] is [ciphertext[i] XOR digest[i]] below 16 and [ciphertext[i]]
    itself from 16 on, each output octet is shown literally when printable
    and as a backslash with three octal digits otherwise, and the whole
    stands between one leading and one trailing quote. *)
Theorem radius_decrypt_avp_correct (authenticator : list byte) (tvb : tvbuff_t)
    (offset length : Z) (ciphertext : list byte) :
  0 <= length ->
  tvb_get_ptr tvb offset length = Ok ciphertext ->
  radius_decrypt_avp authenticator tvb offset length
  = Ok (decrypt_display ciphertext (md5 (shared_secret ++ authenticator))).
Proof.
  intros Hlen Hpd. unfold radius_decrypt_avp, decrypt_display. rewrite Hpd.
  rewrite decrypt_loops by eauto using tvb_get_ptr_length.
  rewrite <- app_assoc. reflexivity.
Qed.

(** ** What the pieces of the loop body leave alone *)

Lemma eap_calls_app (t1 t2 : list event) :
  eap_calls (t1 ++ t2) = eap_calls t1 ++ eap_calls t2.
Proof.
  induction t1 as [|e t1 IH]; simpl; [reflexivity|].
  destruct e; simpl; rewrite ?IH; reflexivity.
Qed.

Lemma quiet_refl (w : walker) : quiet w w.
Proof.
  unfold quiet, keeps. repeat split; try reflexivity.
  exists []. rewrite app_nil_r. split; reflexivity.
Qed.

Lemma quiet_trans (w1 w2 w3 : walker) : quiet w1 w2 -> quiet w2 w3 -> quiet w1 w3.
Proof.
  unfold quiet, keeps.
  intros [(H1 & H2 & H3 & H4 & H5 & H6 & H7 & evs & H8 & H9) H10]
         [(K1 & K2 & K3 & K4 & K5 & K6 & K7 & evs' & K8 & K9) K10].
  repeat split; try congruence.
  exists (evs ++ evs'). split.
  - rewrite K8, H8, app_assoc. reflexivity.
  - rewrite eap_calls_app, H9, K9. reflexivity.
Qed.

Lemma quietly_ret {A} (a : A) : quietly (mret a).
Proof.
  intros w f w' [= <- <-]. split; [apply quiet_refl | repeat split; discriminate].
Qed.

Lemma quietly_bind {A B} (m : M A) (k : A -> M B) :
  quietly m -> (forall a, quietly (k a)) -> quietly (m ≫= k).
Proof.
  intros Hm Hk w f w'. unfold mbind, M_bind, bind.
  destruct (m w) as [[a| | |e] w1] eqn:E; intros H.
  - destruct (Hm _ _ _ E) as [Q1 _]. destruct (Hk a _ _ _ H) as (Q2 & ? & ? & ?).
    split; [eapply quiet_trans; eassumption | repeat split; assumption].
  - destruct (Hm _ _ _ E) as (_ & ? & _). congruence.
  - destruct (Hm _ _ _ E) as (_ & _ & ? & _). congruence.
  - injection H as <- <-. destruct (Hm _ _ _ E) as (Q1 & _ & _ & Hn).
    split; [assumption | repeat split; try discriminate].
    intros [= ->]. apply Hn. reflexivity.
Qed.

Lemma quietly_lift {A} (r : result A) :
  (forall e, r = Raise e -> e <> BufferOverrun) -> quietly (lift r).
Proof.
  intros Hr w f w'. unfold lift. destruct r; intros [= <- <-];
    (split; [apply quiet_refl | repeat split; try discriminate]).
  intros [= ->]. eapply Hr; reflexivity.
Qed.

Lemma quietly_get {A} (g : walker -> A) : quietly (get g).
Proof.
  intros w f w' [= <- <-]. split; [apply quiet_refl | repeat split; discriminate].
Qed.

Lemma quietly_emit (e : event) : eap_calls [e] = [] -> quietly (emit e).
Proof.
  intros He w f w' [= <- <-]. split; [|repeat split; discriminate].
  unfold quiet, keeps. simpl. repeat split. exists [e]. split; [reflexivity | exact He].
Qed.

Create HintDb quietly.
(** The accessors and the decryption raise nothing but [BoundsError]. *)
Lemma radius_decrypt_avp_Raise (authenticator : list byte) (tvb : tvbuff_t)
    (offset length : Z) (e : exn) :
  radius_decrypt_avp authenticator tvb offset length = Raise e -> e = BoundsError.
Proof.
  unfold radius_decrypt_avp.
  destruct (tvb_get_ptr tvb offset length) eqn:E; [discriminate|].
  intros [= <-]. eapply tvb_get_ptr_Raise, E.
Qed.

Ltac no_overrun :=
  let e := fresh "e" in
  let H := fresh "H" in
  intros e H;
  first [ discriminate H
        | apply tvb_get_ptr_Raise in H
        | apply tvb_memcpy_Raise in H
        | apply tvb_get_guint8_Raise in H
        | apply tvb_get_ntoh_Raise in H
        | apply tvb_ensure_length_remaining_Raise in H
        | apply radius_decrypt_avp_Raise in H
        | injection H as H; symmetry in H ];
  subst e; discriminate.

#[local] Hint Resolve quietly_ret quietly_get : quietly.
#[local] Hint Extern 1 (quietly (lift _)) => (apply quietly_lift; no_overrun) : quietly.
#[local] Hint Extern 1 (quietly (emit _)) => (apply quietly_emit; reflexivity) : quietly.
#[local] Hint Extern 2 (quietly (_ ≫= _)) => (apply quietly_bind; [|intros ?]) : quietly.
#[local] Hint Extern 3 (quietly (if ?b then _ else _)) => destruct b : quietly.
#[local] Hint Extern 3 (quietly (match ?x with _ => _ end)) => destruct x : quietly.

Lemma quietly_item_length (tvb : tvbuff_t) (offset len : Z) :
  quietly (item_length tvb offset len).
Proof. unfold item_length. auto with quietly. Qed.

#[local] Hint Resolve quietly_item_length : quietly.

Lemma quietly_add_item (hf_id : Z) (tvb : tvbuff_t) (offset len : Z) :
  quietly (add_item hf_id tvb offset len).
Proof. unfold add_item. auto with quietly. Qed.

Lemma quietly_add_string (hf_id : Z) (tvb : tvbuff_t) (offset len : Z)
    (value : string) :
  quietly (add_string hf_id tvb offset len value).
Proof. unfold add_string. auto with quietly. Qed.


Lemma quietly_tvb_value_bytes (tvb : tvbuff_t) (offset len : Z) :
  quietly (tvb_value_bytes tvb offset len).
Proof. unfold tvb_value_bytes. auto with quietly. Qed.

#[local] Hint Resolve quietly_add_item quietly_add_string quietly_tvb_value_bytes
  : quietly.

(** What follows may rely on a property of the value handed over. *)
Lemma quietly_bind_val {A B} (P : A -> Prop) (m : M A) (k : A -> M B) :
  quietly m ->
  (forall w a w', m w = (Val a, w') -> P a) ->
  (forall a, P a -> quietly (k a)) ->
  quietly (m ≫= k).
Proof.
  intros Hm HP Hk w f w'. unfold mbind, M_bind, bind.
  destruct (m w) as [[a| | |e] w1] eqn:E; intros H.
  - destruct (Hm _ _ _ E) as [Q1 _].
    destruct (Hk a (HP _ _ _ E) _ _ _ H) as (Q2 & ? & ? & ?).
    split; [eapply quiet_trans; eassumption | repeat split; assumption].
  - destruct (Hm _ _ _ E) as (_ & ? & _). congruence.
  - destruct (Hm _ _ _ E) as (_ & _ & ? & _). congruence.
  - injection H as <- <-. destruct (Hm _ _ _ E) as (Q1 & _ & _ & Hn).
    split; [assumption | repeat split; try discriminate].
    intros [= ->]. apply Hn. reflexivity.
Qed.

(** ** The size of the decrypted text *)

Lemma length_string_of_list_ascii (l : list ascii) :
  String.length (string_of_list_ascii l) = length l.
Proof. induction l as [|c l IH]; simpl; [reflexivity|rewrite IH; reflexivity]. Qed.

Lemma render_octets_length (cs : list Z) :
  (length cs <= length (concat (map render_octet cs)) <= 4 * length cs)%nat.
Proof.
  induction cs as [|c cs IH]; simpl; [lia|].
  rewrite length_app. unfold render_octet at 1 3.
  destruct (isprint c); simpl; lia.
Qed.

(** The text has the two quotes and, for each octet of the value, one
    character or four. *)
Lemma radius_decrypt_avp_length (authenticator : list byte) (tvb : tvbuff_t)
    (offset len : Z) (buffer : string) :
  0 <= len ->
  radius_decrypt_avp authenticator tvb offset len = Ok buffer ->
  len + 2 <= Z.of_nat (String.length buffer) <= 4 * len + 2.
Proof.
  intros Hlen. unfold radius_decrypt_avp.
  destruct (tvb_get_ptr tvb offset len) as [pd|] eqn:Hpd; [|discriminate].
  pose proof (tvb_get_ptr_length tvb offset len pd Hlen Hpd) as Hsize.
  rewrite decrypt_loops by (lia || exact Hsize).
  intros [= <-]. simpl. rewrite length_string_of_list_ascii, length_app. simpl.
  pose proof (render_octets_length (decrypt_output pd (md5 (shared_secret ++ authenticator))))
    as Hr.
  assert (length (decrypt_output pd (md5 (shared_secret ++ authenticator))) = length pd)
    as Hout by (unfold decrypt_output; apply length_imap).
  rewrite Hout in Hr. lia.
Qed.

(** For a length below 0 that the fetch accepts, which is -1, neither loop
    makes a turn and the text is the two quotes. *)
Lemma radius_decrypt_avp_fits (authenticator : list byte) (tvb : tvbuff_t)
    (offset len : Z) (buffer : string) :
  len <= 255 ->
  radius_decrypt_avp authenticator tvb offset len = Ok buffer ->
  Z.of_nat (String.length buffer) + 1 <= 1024.
Proof.
  intros Hlen Hbuffer. destruct (Z_le_dec 0 len) as [Hpos|Hneg].
  - pose proof (radius_decrypt_avp_length _ _ _ _ _ Hpos Hbuffer). lia.
  - revert Hbuffer. unfold radius_decrypt_avp.
    destruct (tvb_get_ptr tvb offset len) as [pd|]; [|discriminate].
    replace (Z.max 0 (Z.min AUTHENTICATOR_LENGTH len)) with 0
      by (unfold AUTHENTICATOR_LENGTH; lia).
    rewrite !seqZ_nil by lia. simpl. intros [= <-]. simpl. lia.
Qed.

Lemma gchar_array_Raise (size : Z) (s : string) (e : exn) :
  gchar_array size s = Raise e -> e = BufferOverrun.
Proof.
  unfold gchar_array. destruct (_ <=? size); congruence.
Qed.

(** [radius_string] on a value of up to 255 octets: the text stays within
    the 1024 characters of [buffer]. *)
Lemma quietly_radius_string (authenticator : list byte) (a : radius_attr_info_t)
    (tvb : tvbuff_t) (offset len : Z) :
  len <= 255 -> quietly (radius_string authenticator a tvb offset len).
Proof.
  intros Hlen. unfold radius_string.
  destruct (encrypt a); [destruct shared_secret as [|c secret]|];
    [auto 20 with quietly| |auto 20 with quietly].
  apply (quietly_bind_val (fun buffer => Z.of_nat (String.length buffer) + 1 <= 1024)).
  - auto with quietly.
  - intros w buffer w'. unfold lift.
    destruct (radius_decrypt_avp authenticator tvb offset len) as [b|] eqn:Hb;
      intros [= <- _]. exact (radius_decrypt_avp_fits _ _ _ _ _ Hlen Hb).
  - intros buffer Hfits. unfold gchar_array.
    replace (Z.of_nat (String.length buffer) + 1 <=? 1024) with true by lia.
    auto 20 with quietly.
Qed.

(** The decoders are quiet on a value of up to 255 octets, and so on every
    value an attribute can hold. *)
Lemma quietly_call_type (authenticator : list byte) (a : radius_attr_info_t)
    (tvb : tvbuff_t) (offset len : Z) :
  len <= 255 -> quietly (call_type authenticator a tvb offset len).
Proof.
  intros Hlen. pose proof (quietly_radius_string authenticator a tvb offset len Hlen).
  unfold call_type, radius_integer, radius_octets, radius_ipaddr,
    radius_ipv6addr, radius_date, radius_abinary, radius_ifid.
  auto 20 with quietly.
Qed.

Lemma quietly_decode_value (authenticator : list byte) (a : radius_attr_info_t)
    (tvb : tvbuff_t) (avp_length : Z) :
  to_gint avp_length <= 255 ->
  quietly (decode_value authenticator a tvb avp_length).
Proof.
  intros Hlen. unfold decode_value.
  pose proof (fun offset =>
                quietly_call_type authenticator a tvb offset (to_gint avp_length) Hlen).
  auto 20 with quietly.
Qed.

Lemma quiet_keeps (w w' : walker) : quiet w w' -> keeps w w'.
Proof. intros [H _]. exact H. Qed.

Lemma keeps_refl (w : walker) : keeps w w.
Proof. apply quiet_keeps, quiet_refl. Qed.

Lemma keeps_trans (w1 w2 w3 : walker) : keeps w1 w2 -> keeps w2 w3 -> keeps w1 w3.
Proof.
  unfold keeps.
  intros (H1 & H2 & H3 & H4 & H5 & H6 & H7 & evs & H8 & H9)
         (K1 & K2 & K3 & K4 & K5 & K6 & K7 & evs' & K8 & K9).
  repeat split; try congruence.
  exists (evs ++ evs'). split.
  - rewrite K8, H8, app_assoc. reflexivity.
  - rewrite eap_calls_app, H9, K9. reflexivity.
Qed.

Lemma keeps_set_offset (v : Z) (w : walker) : keeps w (set_offset v w).
Proof.
  unfold keeps. simpl. repeat split. exists []. rewrite app_nil_r. split; reflexivity.
Qed.

Lemma keeps_emit (e : event) (w : walker) :
  eap_calls [e] = [] -> keeps w (set_tree (w_tree w ++ [e]) w).
Proof.
  intros He. unfold keeps. simpl. repeat split. exists [e]. split; [reflexivity|exact He].
Qed.

(** The walker after some events and assignments that are not to the EAP
    variables or the length. *)
Ltac keeps_now :=
  unfold keeps; simpl; repeat split;
  eexists; split; [rewrite <- ?app_assoc; reflexivity | reflexivity].

Ltac run :=
  unfold mbind, M_bind, bind, mret, M_ret, ret, get, lift, modify, emit,
    return_, continue_ in *; simpl in *.

(** An exception out of a buffer accessor: nothing has changed. *)
Ltac raised H :=
  intros [= <- <-];
  split; [apply keeps_refl|];
  split; [discriminate|]; split; [discriminate|];
  split; [|discriminate];
  first [ apply tvb_get_guint8_Raise in H | apply tvb_get_ntoh_Raise in H ];
  rewrite H; discriminate.

(** The Vendor-Specific branch: eight octets of header are passed and
    [avp_length] loses eight, modulo 2^32. *)
Lemma vendor_specific_spec (tvb : tvbuff_t) (avp_length : Z) (w : walker)
    (f : flow (radius_attr_info_t * Z)) (w' : walker) :
  vendor_specific tvb avp_length w = (f, w') ->
  keeps w w' /\ f <> Continue /\ f <> Return /\ f <> Throw BufferOverrun
  /\ forall a len, f = Val (a, len) ->
       w_offset w' = w_offset w + 8 /\ len = to_guint32 (avp_length - 8).
Proof.
  unfold vendor_specific. run.
  destruct (tvb_get_ntohl tvb (w_offset w + 2)) as [vendor_id|e] eqn:H1;
    [|raised H1].
  destruct (tvb_get_guint8 tvb (w_offset w + 6)) as [vsa_type|e] eqn:H2;
    [|raised H2].
  destruct (tvb_get_guint8 tvb (w_offset w + 7)) as [vsa_len|e] eqn:H3;
    [|raised H3].
  destruct (vendors_by_id dict !! vendor_id) as [v|]; simpl; intros [= <- <-];
    (split; [keeps_now|]); (do 3 (split; [discriminate|]));
    intros a len [= <- <-]; split; reflexivity.
Qed.

Lemma plain_attribute_spec (avp_type avp_length : Z) (w : walker)
    (f : flow (radius_attr_info_t * Z)) (w' : walker) :
  plain_attribute avp_type avp_length w = (f, w') ->
  keeps w w' /\ f <> Continue /\ f <> Return /\ f <> Throw BufferOverrun
  /\ forall a len, f = Val (a, len) ->
       w_offset w' = w_offset w + 2 /\ len = to_guint32 (avp_length - 2).
Proof.
  unfold plain_attribute. run. intros [= <- <-].
  split; [keeps_now|]. do 3 (split; [discriminate|]).
  intros a len [= <- <-]; split; reflexivity.
Qed.

(** The tag: where one is taken, the offset gains one and [avp_length]
    loses one, modulo 2^32. *)
Lemma extract_tag_spec (a : radius_attr_info_t) (tvb : tvbuff_t) (avp_length : Z)
    (w : walker) (f : flow Z) (w' : walker) :
  extract_tag a tvb avp_length w = (f, w') ->
  keeps w w' /\ f <> Continue /\ f <> Return /\ f <> Throw BufferOverrun
  /\ forall len, f = Val len ->
       (len = avp_length \/ len = to_guint32 (avp_length - 1))
       /\ to_gint (w_offset w' + len) = to_gint (w_offset w + avp_length).
Proof.
  unfold extract_tag. destruct (tagged a); run.
  - destruct (tvb_get_guint8 tvb (w_offset w)) as [tag|e] eqn:H1; [|raised H1].
    destruct (tag <=? 31); run; intros [= <- <-].
    + split; [keeps_now|]. do 3 (split; [discriminate|]).
      intros len [= <-]. split; [right; reflexivity|].
      simpl. rewrite to_gint_add_guint32. f_equal. lia.
    + split; [apply keeps_refl|]. do 3 (split; [discriminate|]).
      intros len [= <-]. split; [left; reflexivity|reflexivity].
  - intros [= <- <-]. split; [apply keeps_refl|]. do 3 (split; [discriminate|]).
    intros len [= <-]. split; [left; reflexivity|reflexivity].
Qed.

(** The tail of the pass leaves the offset [avp_length] further, modulo
    2^32, whether or not a tag was taken. *)
Lemma avp_tail_spec (authenticator : list byte) (a : radius_attr_info_t)
    (tvb : tvbuff_t) (avp_length : Z) (w : walker) (f : flow unit) (w' : walker) :
  to_gint avp_length <= 255 ->
  to_gint (to_guint32 (avp_length - 1)) <= 255 ->
  avp_tail authenticator a tvb avp_length w = (f, w') ->
  keeps w w' /\ f <> Continue /\ f <> Return /\ f <> Throw BufferOverrun
  /\ (f = Val tt -> w_offset w' = to_gint (w_offset w + avp_length)).
Proof.
  intros Hfits Hfits1. unfold avp_tail.
  unfold mbind at 1, M_bind at 1, bind at 1. unfold emit at 1.
  set (w0 := set_tree _ w).
  assert (K0 : keeps w w0) by (apply keeps_emit; reflexivity).
  assert (O0 : w_offset w0 = w_offset w) by reflexivity.
  clearbody w0.
  unfold mbind at 1, M_bind at 1, bind at 1.
  destruct (extract_tag a tvb avp_length w0) as [ft w1] eqn:Et.
  apply extract_tag_spec in Et. destruct Et as (K1 & Hc & Hr & Hn & Hlen).
  destruct ft as [len| | |e]; try congruence.
  2:{ intros [= <- <-]. split; [eapply keeps_trans; eassumption|].
      do 2 (split; [discriminate|]). split; [|discriminate].
      intros [= ->]. apply Hn. reflexivity. }
  destruct (Hlen len eq_refl) as [Hcases Hlen']. clear Hlen. rename Hlen' into Hlen.
  unfold mbind at 1, M_bind at 1, bind at 1.
  destruct (decode_value authenticator a tvb len w1) as [fd w2] eqn:Ed.
  apply quietly_decode_value in Ed; [|destruct Hcases as [-> | ->]; assumption].
  destruct Ed as ([K2 O2] & Hc2 & Hr2 & Hn2).
  destruct fd as [[]| | |e]; try congruence.
  2:{ intros [= <- <-]. split.
      - eapply keeps_trans; [|eassumption]. eapply keeps_trans; eassumption.
      - do 2 (split; [discriminate|]). split; [|discriminate].
        intros [= ->]. apply Hn2. reflexivity. }
  unfold modify. intros [= <- <-]. split.
  - eapply keeps_trans; [|apply keeps_set_offset].
    eapply keeps_trans; [|eassumption]. eapply keeps_trans; eassumption.
  - do 3 (split; [discriminate|]).
    intros _. simpl. rewrite O2, Hlen, O0. reflexivity.
Qed.

(** The EAP-Message branch.  It returns when the fragment would take the
    total past the size of [eap_buffer]; otherwise the fragment, the value
    octets of the attribute, is put into [eap_buffer] behind what is there,
    and the pass ends in [continue]. *)
Lemma eap_message_spec (tvb : tvbuff_t) (avp_length : Z) (w : walker)
    (f : flow (radius_attr_info_t * Z)) (w' : walker) :
  tvb_length tvb < 2 ^ 31 ->
  3 <= avp_length <= 255 ->
  0 <= eap_tot_len w <= MAX_RADIUS_PACKET_SIZE ->
  Z.of_nat (length (eap_buffer w)) = MAX_RADIUS_PACKET_SIZE ->
  eap_message tvb avp_length w = (f, w') ->
  let tot := eap_tot_len w + (avp_length - 2) in
  let data := take (Z.to_nat (avp_length - 2)) (drop (Z.to_nat (w_offset w + 2)) tvb) in
  let last :=
    last_eap w
    || (negb (tvb_bytes_exist tvb (w_offset w) (avp_length + 3))
        || negb (is_eap_at tvb (w_offset w + avp_length))) in
  (f = Return /\ MAX_RADIUS_PACKET_SIZE < tot
   /\ w' = set_tree (w_tree w ++ [proto_tree_add_text (w_offset w) 0 EapTooLong]) w)
  \/ (f = Throw BoundsError /\ w' = w)
  \/ (f = Continue /\ tot <= MAX_RADIUS_PACKET_SIZE
      /\ Z.of_nat (length data) = avp_length - 2
      /\ w_offset w' = to_gint (w_offset w + avp_length)
      /\ w_length w' = w_length w
      /\ eap_buffer w'
         = take (Z.to_nat (eap_tot_len w)) (eap_buffer w) ++ data
           ++ drop (Z.to_nat tot) (eap_buffer w)
      /\ eap_tot_len w' = tot
      /\ eap_seg_num w' = to_guint32 (eap_seg_num w + 1)
      /\ last_eap w' = last
      /\ eap_tree w' = (if last then true else eap_tree w)
      /\ eap_tvb w' = (if last then Some tot else eap_tvb w)
      /\ exists evs, w_tree w' = w_tree w ++ evs /\ eap_calls evs = []).
Proof.
  unfold MAX_RADIUS_PACKET_SIZE. intros Htvb Hl Htot Hbuf. unfold eap_message. run.
  rewrite (to_guint32_small (avp_length - 2)) by lia.
  rewrite (to_guint32_small (eap_tot_len w + (avp_length - 2))) by lia.
  unfold MAX_RADIUS_PACKET_SIZE.
  destruct (eap_tot_len w + (avp_length - 2) >? 4096) eqn:Hover.
  { intros [= <- <-]. left. repeat split. lia. }
  destruct (tvb_memcpy tvb (w_offset w + 2) (avp_length - 2)) as [data|e] eqn:Hcpy.
  2:{ intros [= <- <-]. right. left. split; [|reflexivity].
      f_equal. eapply tvb_memcpy_Raise, Hcpy. }
  apply tvb_memcpy_Ok in Hcpy. destruct Hcpy as (-> & Hdata & Hoff & Hend).
  unfold write_buffer. rewrite Hdata.
  replace (0 <=? eap_tot_len w) with true by lia.
  replace (eap_tot_len w + (avp_length - 2) <=? Z.of_nat (length (eap_buffer w)))
    with true by lia.
  simpl.
  assert (Hdrop : (Z.to_nat (eap_tot_len w)
                   + length (take (Z.to_nat (avp_length - 2))
                               (drop (Z.to_nat (w_offset w + 2)) tvb)))%nat
                  = Z.to_nat (eap_tot_len w + (avp_length - 2))) by lia.
  rewrite Hdrop.
  rewrite (to_gint_small (avp_length + 3)) by lia.
  unfold is_eap_at.
  destruct (tvb_bytes_exist tvb (w_offset w) (avp_length + 3)) eqn:Hex; run.
  - unfold tvb_bytes_exist in Hex. rewrite !andb_true_iff in Hex.
    destruct Hex as [[Ho _] He].
    rewrite (to_gint_small (w_offset w + avp_length)) by lia.
    destruct (tvb_get_guint8 tvb (w_offset w + avp_length)) as [next_type|e] eqn:Hnext.
    2:{ intros [= <- <-]. right. left. split; [|reflexivity].
        f_equal. eapply tvb_get_guint8_Raise, Hnext. }
    destruct (next_type =? RADIUS_EAP_MESSAGE_CODE), (last_eap w) eqn:Hlast;
      simpl; intros [= <- <-]; right; right; simpl; rewrite ?Hlast;
      (repeat split; try lia);
      eexists; (split; [rewrite <- ?app_assoc; reflexivity | reflexivity]).
  - intros [= <- <-]. rewrite orb_true_r.
    right; right; simpl; (repeat split; try lia);
      eexists; (split; [rewrite <- ?app_assoc; reflexivity | reflexivity]).
Qed.

(** ** One pass of the loop *)

Lemma avp_body_unreadable (authenticator : list byte) (tvb : tvbuff_t) (w : walker) :
  (exists e, tvb_get_guint8 tvb (w_offset w) = Raise e)
  \/ (exists e, tvb_get_guint8 tvb (w_offset w + 1) = Raise e) ->
  avp_body authenticator tvb w = (Throw BoundsError, w).
Proof.
  unfold avp_body. run. intros [[e He]|[e He]].
  - rewrite He. apply tvb_get_guint8_Raise in He. subst e. reflexivity.
  - destruct (tvb_get_guint8 tvb (w_offset w)) as [t|e'] eqn:Ht.
    + rewrite He. apply tvb_get_guint8_Raise in He. subst e. reflexivity.
    + apply tvb_get_guint8_Raise in Ht. subst e'. reflexivity.
Qed.

Lemma avp_body_short (authenticator : list byte) (tvb : tvbuff_t) (w : walker)
    (t l : Z) :
  tvb_get_guint8 tvb (w_offset w) = Ok t ->
  tvb_get_guint8 tvb (w_offset w + 1) = Ok l ->
  l < 3 ->
  avp_body authenticator tvb w
  = (Return, set_tree (w_tree w ++ [proto_tree_add_text (w_offset w) 0 AvpTooShort]) w).
Proof.
  intros Ht Hl Hshort. unfold avp_body. run. rewrite Ht, Hl.
  replace (l <? 3) with true by lia. reflexivity.
Qed.

Lemma avp_body_truncated (authenticator : list byte) (tvb : tvbuff_t) (w : walker)
    (t l : Z) (e : exn) :
  tvb_get_guint8 tvb (w_offset w) = Ok t ->
  tvb_get_guint8 tvb (w_offset w + 1) = Ok l ->
  3 <= l ->
  tvb_ensure_length_remaining tvb (to_gint (w_offset w + l - 1)) = Raise e ->
  avp_body authenticator tvb w
  = (Throw BoundsError, set_length (to_gint (w_length w - l)) w).
Proof.
  intros Ht Hl Hlong He. unfold avp_body. run. rewrite Ht, Hl.
  replace (l <? 3) with false by lia. rewrite He.
  apply tvb_ensure_length_remaining_Raise in He. subst e. reflexivity.
Qed.

Lemma avp_body_accepted (authenticator : list byte) (tvb : tvbuff_t) (w : walker)
    (t l : Z) :
  tvb_get_guint8 tvb (w_offset w) = Ok t ->
  tvb_get_guint8 tvb (w_offset w + 1) = Ok l ->
  3 <= l ->
  tvb_ensure_length_remaining tvb (to_gint (w_offset w + l - 1)) = Ok tt ->
  avp_body authenticator tvb w
  = (avp_branch tvb t l
       ≫= (fun '(a, len) => avp_tail authenticator a tvb len)) (accepted l w).
Proof.
  intros Ht Hl Hlong He. unfold avp_body, avp_branch, accepted. run. rewrite Ht, Hl.
  replace (l <? 3) with false by lia. rewrite He. reflexivity.
Qed.

(** What the EAP-Message branch does in every case: it never falls through,
    it leaves the remaining length alone, and where it ends in [continue]
    the offset is the declared length further. *)
Lemma eap_message_frame (tvb : tvbuff_t) (avp_length : Z) (w : walker)
    (f : flow (radius_attr_info_t * Z)) (w' : walker) :
  eap_message tvb avp_length w = (f, w') ->
  w_length w' = w_length w
  /\ (exists evs, w_tree w' = w_tree w ++ evs /\ eap_calls evs = [])
  /\ (forall v, f <> Val v)
  /\ (f = Continue -> w_offset w' = to_gint (w_offset w + avp_length))
  /\ (f = Return ->
      w' = set_tree (w_tree w ++ [proto_tree_add_text (w_offset w) 0 EapTooLong]) w).
Proof.
  unfold eap_message. run.
  repeat match goal with
         | |- context [match ?x with _ => _ end] =>
             lazymatch x with
             | context [match _ with _ => _ end] => fail
             | _ => destruct x eqn:?; run
             end
         end;
    intros [= <- <-]; simpl;
    (split; [reflexivity|]);
    (split; [eexists; split;
               [first [rewrite <- ?app_assoc; reflexivity | symmetry; apply app_nil_r]
               | reflexivity]|]);
    (split; [discriminate|]); (split; [try discriminate; reflexivity|]);
    try discriminate; reflexivity.
Qed.

Lemma to_gint_wrap (z : Z) : 2 ^ 31 <= z < 2 ^ 32 -> to_gint z = z - 2 ^ 32.
Proof.
  intros Hz. unfold to_gint.
  replace (z + 2 ^ 31) with (z - 2 ^ 31 + 1 * 2 ^ 32) by lia.
  rewrite Z_mod_plus_full, Z.mod_small; lia.
Qed.

(** The check on the last octet of the attribute puts the whole attribute
    inside the buffer. *)
Lemma ensure_last_octet (tvb : tvbuff_t) (offset l : Z) :
  tvb_length tvb < 2 ^ 31 ->
  0 <= offset < tvb_length tvb -> 3 <= l <= 255 ->
  tvb_ensure_length_remaining tvb (to_gint (offset + l - 1)) = Ok tt ->
  offset + l <= tvb_length tvb.
Proof.
  intros Htvb Ho Hl. unfold tvb_ensure_length_remaining.
  destruct (_ && _) eqn:Hb; [|discriminate]. intros _.
  apply andb_true_iff in Hb. destruct Hb as [H1 H2].
  destruct (Z_lt_dec (offset + l - 1) (2 ^ 31)) as [Hs|Hs].
  - rewrite to_gint_small in H2 by lia. lia.
  - rewrite to_gint_wrap in H1 by lia. lia.
Qed.

Lemma ensure_Raise_or_Ok (tvb : tvbuff_t) (offset : Z) :
  tvb_ensure_length_remaining tvb offset = Ok tt
  \/ tvb_ensure_length_remaining tvb offset = Raise BoundsError.
Proof.
  unfold tvb_ensure_length_remaining. destruct (_ && _); auto.
Qed.

Lemma to_gint_guint32 (z : Z) : to_gint (to_guint32 z) = to_gint z.
Proof.
  unfold to_gint, to_guint32. f_equal. rewrite Z.add_mod_idemp_l by lia. reflexivity.
Qed.

(** What is left of a declared length once the header is passed, and once
    a tag is, is a length a value can have, or is below 0. *)
Lemma value_length_bound (l k : Z) :
  0 <= l <= 255 -> 0 <= k <= 8 ->
  to_gint (to_guint32 (l - k)) <= 255
  /\ to_gint (to_guint32 (to_guint32 (l - k) - 1)) <= 255.
Proof.
  intros Hl Hk. rewrite to_guint32_sub_guint32, !to_gint_guint32.
  rewrite !to_gint_small by lia. lia.
Qed.

(** The ways a pass can go. *)
Lemma avp_body_inv (authenticator : list byte) (tvb : tvbuff_t)
    (w : walker) (f : flow unit) (w' : walker) :
  avp_body authenticator tvb w = (f, w') ->
  (f = Throw BoundsError /\ w' = w)
  \/ exists t l,
       tvb_get_guint8 tvb (w_offset w) = Ok t
       /\ tvb_get_guint8 tvb (w_offset w + 1) = Ok l
       /\ 0 <= l <= 255 /\ 0 <= w_offset w < tvb_length tvb
       /\ ((l < 3 /\ f = Return
            /\ w' = set_tree (w_tree w ++ [proto_tree_add_text (w_offset w) 0 AvpTooShort]) w)
           \/ (3 <= l /\ f = Throw BoundsError
               /\ w' = set_length (to_gint (w_length w - l)) w)
           \/ (3 <= l
               /\ tvb_ensure_length_remaining tvb (to_gint (w_offset w + l - 1)) = Ok tt
               /\ t = RADIUS_EAP_MESSAGE_CODE
               /\ exists fe, eap_message tvb l (accepted l w) = (fe, w')
                             /\ ends_pass fe f)
           \/ (3 <= l
               /\ tvb_ensure_length_remaining tvb (to_gint (w_offset w + l - 1)) = Ok tt
               /\ t <> RADIUS_EAP_MESSAGE_CODE
               /\ keeps (accepted l w) w'
               /\ f <> Continue /\ f <> Return /\ f <> Throw BufferOverrun
               /\ (f = Val tt -> w_offset w' = to_gint (w_offset w + l)))).
Proof.
  intros Hbody.
  destruct (tvb_get_guint8 tvb (w_offset w)) as [t|e] eqn:Ht.
  2:{ rewrite avp_body_unreadable in Hbody by eauto.
      injection Hbody as <- <-. left. split; reflexivity. }
  destruct (tvb_get_guint8 tvb (w_offset w + 1)) as [l|e] eqn:Hl.
  2:{ rewrite avp_body_unreadable in Hbody by eauto.
      injection Hbody as <- <-. left. split; reflexivity. }
  pose proof (tvb_get_guint8_Ok _ _ _ Ht) as [_ Ho].
  pose proof (tvb_get_guint8_Ok _ _ _ Hl) as [Hl255 _].
  right. exists t, l. do 4 (split; [first [reflexivity | assumption]|]).
  destruct (Z_lt_dec l 3) as [Hshort|Hlong].
  { rewrite (avp_body_short _ _ _ _ _ Ht Hl Hshort) in Hbody.
    injection Hbody as <- <-. left. repeat split. assumption. }
  right.
  destruct (ensure_Raise_or_Ok tvb (to_gint (w_offset w + l - 1))) as [He|He].
  2:{ rewrite (avp_body_truncated _ _ _ _ _ _ Ht Hl ltac:(lia) He) in Hbody.
      injection Hbody as <- <-. left. repeat split. lia. }
  right.
  rewrite (avp_body_accepted _ _ _ _ _ Ht Hl ltac:(lia) He) in Hbody.
  unfold mbind, M_bind, bind in Hbody.
  destruct (avp_branch tvb t l (accepted l w)) as [fb wb] eqn:Hb.
  unfold avp_branch in Hb.
  assert (Hframe :
    forall k, 0 <= k <= 8 ->
      keeps (accepted l w) wb -> fb <> Continue -> fb <> Return ->
      fb <> Throw BufferOverrun ->
      (forall a len, fb = Val (a, len) ->
         w_offset wb = w_offset w + k /\ len = to_guint32 (l - k)) ->
      keeps (accepted l w) w'
      /\ f <> Continue /\ f <> Return /\ f <> Throw BufferOverrun
      /\ (f = Val tt -> w_offset w' = to_gint (w_offset w + l))).
  { intros k Hk K Hc Hr Hn Hval.
    destruct fb as [[a len]| | |e]; try congruence.
    2:{ injection Hbody as <- <-. split; [assumption|].
        do 2 (split; [discriminate|]). split; [|discriminate].
        intros [= ->]. apply Hn. reflexivity. }
    destruct (Hval a len eq_refl) as [Hoff Hlen].
    destruct (value_length_bound l k Hl255 Hk) as [Hfits Hfits1].
    apply avp_tail_spec in Hbody; [|rewrite Hlen; assumption..].
    destruct Hbody as (K' & Hc' & Hr' & Hn' & Hoff').
    split; [eapply keeps_trans; eassumption|]. do 3 (split; [assumption|]).
    intros Hv. rewrite (Hoff' Hv), Hoff, Hlen, to_gint_add_guint32. f_equal. lia. }
  destruct (t =? RADIUS_VENDOR_SPECIFIC_CODE) eqn:Hvsa.
  { right. apply vendor_specific_spec in Hb. destruct Hb as (K & Hc & Hr & Hn & Hval).
    split; [lia|]. split; [assumption|].
    split; [unfold RADIUS_VENDOR_SPECIFIC_CODE, RADIUS_EAP_MESSAGE_CODE in *; lia|].
    eapply (Hframe 8); [lia|eassumption..]. }
  destruct (t =? RADIUS_EAP_MESSAGE_CODE) eqn:Heap.
  { left. split; [lia|]. split; [assumption|]. split; [lia|].
    pose proof (eap_message_frame _ _ _ _ _ Hb) as (_ & _ & E4 & _ & _).
    destruct fb as [v| | |e].
    - exfalso. eapply E4. reflexivity.
    - injection Hbody as <- <-. exists Continue. split; [assumption|].
      left. split; reflexivity.
    - injection Hbody as <- <-. exists Return. split; [assumption|].
      right. left. split; reflexivity.
    - injection Hbody as <- <-. exists (Throw e). split; [assumption|].
      right. right. exists e. split; reflexivity. }
  right. apply plain_attribute_spec in Hb. destruct Hb as (K & Hc & Hr & Hn & Hval).
  split; [lia|]. split; [assumption|]. split; [lia|].
  eapply (Hframe 2); [lia|eassumption..].
Qed.

(** A pass that reaches the loop condition has gone through an attribute
    with a sound header that lies inside the buffer; it has counted the
    declared length off the remaining length and moved the offset by the
    declared length, whatever the header width and the tag took; it has
    added to the tree without calling the EAP dissector; and unless the
    attribute is an EAP-Message it has left the EAP variables alone. *)
Lemma avp_body_continues (authenticator : list byte) (tvb : tvbuff_t)
    (w : walker) (f : flow unit) (w' : walker) :
  tvb_length tvb < 2 ^ 31 ->
  avp_body authenticator tvb w = (f, w') ->
  f = Val tt \/ f = Continue ->
  exists t l,
    tvb_get_guint8 tvb (w_offset w) = Ok t
    /\ tvb_get_guint8 tvb (w_offset w + 1) = Ok l
    /\ 3 <= l <= 255
    /\ 0 <= w_offset w /\ w_offset w + l <= tvb_length tvb
    /\ w_length w' = to_gint (w_length w - l)
    /\ w_offset w' = w_offset w + l
    /\ (exists evs, w_tree w' = w_tree w ++ evs /\ eap_calls evs = [])
    /\ (t <> RADIUS_EAP_MESSAGE_CODE ->
        last_eap w' = last_eap w /\ eap_buffer w' = eap_buffer w
        /\ eap_seg_num w' = eap_seg_num w /\ eap_tot_len w' = eap_tot_len w
        /\ eap_tree w' = eap_tree w /\ eap_tvb w' = eap_tvb w)
    /\ (t = RADIUS_EAP_MESSAGE_CODE ->
        eap_message tvb l (accepted l w) = (Continue, w')).
Proof.
  intros Htvb Hbody Hf.
  apply avp_body_inv in Hbody.
  destruct Hbody as [[-> _]|(t & l & Ht & Hl & Hl255 & Ho & Hcases)];
    [destruct Hf; discriminate|].
  exists t, l. do 2 (split; [assumption|]).
  destruct Hcases as [(_ & -> & _)|[(_ & -> & _)|[(Hl3 & He & -> & fe & Hm & Hends)
                     |(Hl3 & He & Hne & K & Hc & Hr & Hn & Hoff)]]];
    try (destruct Hf; discriminate).
  - pose proof (ensure_last_octet tvb (w_offset w) l Htvb Ho ltac:(lia) He) as Hend.
    pose proof (eap_message_frame _ _ _ _ _ Hm) as (E1 & (evs & E2 & E3) & E4 & E5 & _).
    assert (fe = Continue) as ->.
    { destruct Hends as [[-> _]|[[_ ->]|(e & _ & ->)]];
        [reflexivity|destruct Hf; discriminate|destruct Hf; discriminate]. }
    specialize (E5 eq_refl). simpl in *.
    split; [lia|]. split; [lia|]. split; [lia|]. split; [congruence|].
    split; [rewrite E5; apply to_gint_small; lia|].
    split.
    { exists ([proto_tree_add_text (w_offset w) l (AvpHeader l)] ++ evs).
      rewrite E2, <- app_assoc. split; [reflexivity|].
      rewrite eap_calls_app, E3. reflexivity. }
    split; [congruence|]. intros _. assumption.
  - pose proof (ensure_last_octet tvb (w_offset w) l Htvb Ho ltac:(lia) He) as Hend.
    destruct Hf as [-> | ->]; [|congruence]. specialize (Hoff eq_refl).
    destruct K as (L1 & L2 & L3 & L4 & L5 & L6 & L7 & evs & L8 & L9).
    simpl in *.
    split; [lia|]. split; [lia|]. split; [lia|]. split; [assumption|].
    split; [rewrite Hoff; apply to_gint_small; lia|].
    split.
    { exists ([proto_tree_add_text (w_offset w) l (AvpHeader l)] ++ evs).
      rewrite L8, <- app_assoc. split; [reflexivity|].
      rewrite eap_calls_app, L9. reflexivity. }
    split; [intros _; repeat split; assumption|]. intros; congruence.
Qed.

(** ** The loop *)

Lemma do_while_walks (authenticator : list byte) (tvb : tvbuff_t)
    (w : walker) (offsets : list Z) (w' : walker) (fuel : nat) :
  walks authenticator tvb w offsets w' ->
  do_while (length offsets + fuel) authenticator tvb w
  = do_while fuel authenticator tvb w'.
Proof.
  induction 1 as [w|w f w1 offsets w2 Hbody Hf Hlen Hwalks IH]; [reflexivity|].
  simpl. rewrite Hbody.
  replace (w_length w1 >? 0) with true by lia.
  destruct Hf as [-> | ->]; exact IH.
Qed.

Lemma run_passes_walks (authenticator : list byte) (tvb : tvbuff_t) (n : nat) :
  forall w offsets w',
    run_passes n authenticator tvb w = Some (offsets, w') ->
    walks authenticator tvb w offsets w'.
Proof.
  induction n as [|n IH]; intros w offsets w'; simpl.
  - intros [= <- <-]. apply walks_nil.
  - destruct (avp_body authenticator tvb w) as [f w1] eqn:Hbody.
    assert (Hgo : (f = Val tt \/ f = Continue) ->
                  (if w_length w1 >? 0 then
                     match run_passes n authenticator tvb w1 with
                     | Some (offsets, w2) => Some (w_offset w :: offsets, w2)
                     | None => None
                     end
                   else None) = Some (offsets, w') ->
                  walks authenticator tvb w offsets w').
    { intros Hf. destruct (w_length w1 >? 0) eqn:Hlen; [|discriminate].
      destruct (run_passes n authenticator tvb w1) as [[offs w2]|] eqn:Hrest;
        [|discriminate].
      intros [= <- <-]. eapply walks_cons; eauto. lia. }
    destruct f as [[]| | |e]; try discriminate; apply Hgo; auto.
Qed.

(** Each pass ends the walk, by one of the two reports or by an exception,
    or takes the declared length, at least 3, off the remaining length. *)
Lemma avp_body_counts (authenticator : list byte) (tvb : tvbuff_t)
    (w : walker) (f : flow unit) (w' : walker) :
  avp_body authenticator tvb w = (f, w') ->
  (f = Return
   /\ exists report,
        (report = AvpTooShort \/ report = EapTooLong)
        /\ exists tree, w_tree w' = tree ++ [proto_tree_add_text (w_offset w) 0 report])
  \/ (exists e, f = Throw e)
  \/ ((f = Val tt \/ f = Continue)
      /\ exists l, tvb_get_guint8 tvb (w_offset w + 1) = Ok l
                   /\ 3 <= l <= 255 /\ w_length w' = to_gint (w_length w - l)).
Proof.
  intros Hbody. apply avp_body_inv in Hbody.
  destruct Hbody as [[-> _]|(t & l & Ht & Hl & Hl255 & Ho & Hcases)];
    [right; left; eauto|].
  destruct Hcases as [(_ & -> & ->)|[(_ & -> & _)|[(Hl3 & He & -> & fe & Hm & Hends)
                     |(Hl3 & He & Hne & K & Hc & Hr & Hn & Hoff)]]].
  - left. split; [reflexivity|]. exists AvpTooShort. split; [auto|].
    exists (w_tree w). reflexivity.
  - right; left; eauto.
  - pose proof (eap_message_frame _ _ _ _ _ Hm) as (E1 & _ & _ & _ & E6).
    destruct Hends as [[-> ->]|[[-> ->]|(e & _ & ->)]].
    + right; right. split; [auto|]. exists l. split; [exact Hl|]. split; [lia|].
      rewrite E1. reflexivity.
    + left. split; [reflexivity|]. exists EapTooLong. split; [auto|].
      rewrite (E6 eq_refl). simpl. eexists. reflexivity.
    + right; left; eauto.
  - destruct f as [[]| | |e]; try congruence.
    + right; right. split; [auto|]. exists l. split; [exact Hl|]. split; [lia|].
      destruct K as (L1 & _). rewrite L1. reflexivity.
    + right; left; eauto.
Qed.

Lemma do_while_enough (authenticator : list byte) (tvb : tvbuff_t) (n : nat) :
  forall w, 0 < w_length w < 2 ^ 31 -> w_length w <= Z.of_nat n ->
    exists r, forall fuel, (n <= fuel)%nat ->
      do_while fuel authenticator tvb w = Some r.
Proof.
  induction n as [|n IH]; intros w Hpos Hle; [lia|].
  destruct (avp_body authenticator tvb w) as [f w'] eqn:Hbody.
  pose proof (avp_body_counts _ _ _ _ _ Hbody)
    as [[-> _]|[[e ->]|[Hf (l & _ & Hl & Hlen)]]].
  - exists (Returned, w'). intros [|fuel] Hfuel; [lia|]. simpl. rewrite Hbody. reflexivity.
  - exists (Thrown e, w'). intros [|fuel] Hfuel; [lia|]. simpl. rewrite Hbody. reflexivity.
  - rewrite to_gint_small in Hlen by lia.
    destruct (Z_lt_dec 0 (w_length w')) as [Hmore|Hdone].
    + destruct (IH w' ltac:(lia) ltac:(lia)) as [r Hr]. exists r.
      intros [|fuel] Hfuel; [lia|]. simpl. rewrite Hbody.
      replace (w_length w' >? 0) with true by lia.
      destruct Hf as [-> | ->]; apply Hr; lia.
    + exists (Completed, w'). intros [|fuel] Hfuel; [lia|]. simpl. rewrite Hbody.
      replace (w_length w' >? 0) with false by lia.
      destruct Hf as [-> | ->]; reflexivity.
Qed.

(** C9. For every buffer and every positive length of the attribute region
    the loop of the walker terminates: a bound of [length] passes always
    gives a result.  Each pass ends the walk, with one of the two reports
    ("AVP too short", EAP-Message too long) or with an exception of a
    buffer read, or takes the declared length of its attribute, which is
    at least 3, off the remaining length, which thus goes down strictly
    until it is no longer positive. *)
Theorem walker_terminates (authenticator buffer : list byte) (tvb : tvbuff_t)
    (offset length : Z) :
  0 < length < 2 ^ 31 ->
  (exists r, forall fuel, (Z.to_nat length <= fuel)%nat ->
     dissect_attribute_value_pairs fuel authenticator buffer tvb offset length = Some r)
  /\ (forall w f w',
        0 < w_length w < 2 ^ 31 ->
        avp_body authenticator tvb w = (f, w') ->
        (f = Return
         /\ exists report,
              (report = AvpTooShort \/ report = EapTooLong)
              /\ exists tree,
                   w_tree w' = tree ++ [proto_tree_add_text (w_offset w) 0 report])
        \/ (exists e, f = Throw e)
        \/ ((f = Val tt \/ f = Continue)
            /\ 3 <= avp_length_at tvb (w_offset w)
            /\ w_length w' = w_length w - avp_length_at tvb (w_offset w)
            /\ w_length w' < w_length w)).
Proof.
  intros Hlen. split.
  - destruct (do_while_enough authenticator tvb (Z.to_nat length)
                (walker_init buffer offset length)) as [r Hr]; [simpl; lia..|].
    exists (match r with (Completed, w') => (Completed, call_eap w') | _ => r end).
    intros fuel Hfuel. unfold dissect_attribute_value_pairs.
    replace (length =? 0) with false by lia.
    rewrite (Hr fuel Hfuel). destruct r as [[| |e] w']; reflexivity.
  - intros w f w' Hw Hbody.
    destruct (avp_body_counts _ _ _ _ _ Hbody)
      as [H|[H|[Hf (l & Hread & Hl & Hcount)]]];
      [left; exact H|right; left; exact H|].
    right; right. split; [exact Hf|].
    unfold avp_length_at. rewrite Hread.
    rewrite to_gint_small in Hcount by lia. lia.
Qed.


(** ** The tree and the EAP variables along a walk *)

Lemma is_eap_at_type (tvb : tvbuff_t) (offset t : Z) :
  tvb_get_guint8 tvb offset = Ok t ->
  is_eap_at tvb offset = (t =? RADIUS_EAP_MESSAGE_CODE).
Proof. unfold is_eap_at. intros ->. reflexivity. Qed.

Lemma avp_length_at_length (tvb : tvbuff_t) (offset l : Z) :
  tvb_get_guint8 tvb (offset + 1) = Ok l -> avp_length_at tvb offset = l.
Proof. unfold avp_length_at. intros ->. reflexivity. Qed.


(** No pass calls the EAP dissector, however it ends. *)
Lemma avp_body_tree (authenticator : list byte) (tvb : tvbuff_t)
    (w : walker) (f : flow unit) (w' : walker) :
  avp_body authenticator tvb w = (f, w') ->
  exists evs, w_tree w' = w_tree w ++ evs /\ eap_calls evs = [].
Proof.
  intros Hbody. apply avp_body_inv in Hbody.
  destruct Hbody as [[_ ->]|(t & l & Ht & Hl & Hl255 & Ho & Hcases)].
  { exists []. rewrite app_nil_r. split; reflexivity. }
  destruct Hcases as [(_ & _ & ->)|[(_ & _ & ->)|[(Hl3 & He & _ & fe & Hm & _)
                     |(Hl3 & He & Hne & K & _)]]].
  - eexists. split; reflexivity.
  - exists []. simpl. rewrite app_nil_r. split; reflexivity.
  - pose proof (eap_message_frame _ _ _ _ _ Hm) as (_ & (evs & E2 & E3) & _).
    exists ([proto_tree_add_text (w_offset w) l (AvpHeader l)] ++ evs).
    rewrite E2. simpl. rewrite <- app_assoc. split; [reflexivity|exact E3].
  - destruct K as (_ & _ & _ & _ & _ & _ & _ & evs & L8 & L9).
    exists ([proto_tree_add_text (w_offset w) l (AvpHeader l)] ++ evs).
    rewrite L8. simpl. rewrite <- app_assoc. split; [reflexivity|exact L9].
Qed.

Lemma walks_tree (authenticator : list byte) (tvb : tvbuff_t)
    (w : walker) (offsets : list Z) (w' : walker) :
  walks authenticator tvb w offsets w' ->
  exists evs, w_tree w' = w_tree w ++ evs /\ eap_calls evs = [].
Proof.
  induction 1 as [w|w f w1 offsets w2 Hbody Hf Hlen Hwalks IH].
  - exists []. rewrite app_nil_r. split; reflexivity.
  - destruct (avp_body_tree _ _ _ _ _ Hbody) as (evs1 & E1 & N1).
    destruct IH as (evs2 & E2 & N2).
    exists (evs1 ++ evs2). rewrite E2, E1, <- app_assoc.
    split; [reflexivity|]. rewrite eap_calls_app, N1, N2. reflexivity.
Qed.

(** C4. An attribute whose declared length is below 3 stops the walk at
    once with the report "AVP too short": the function returns, the tree
    is the tree the passes over the preceding attributes had built followed
    by the report alone, so nothing is shown for the malformed attribute or
    for what follows it, and the EAP dissector is not called. *)
Theorem malformed_avp_stops (authenticator buffer : list byte) (tvb : tvbuff_t)
    (offset length : Z) (offsets : list Z) (w : walker) (t l : Z) (fuel : nat) :
  length <> 0 ->
  walks authenticator tvb (walker_init buffer offset length) offsets w ->
  tvb_get_guint8 tvb (w_offset w) = Ok t ->
  tvb_get_guint8 tvb (w_offset w + 1) = Ok l ->
  l < 3 ->
  (List.length offsets < fuel)%nat ->
  dissect_attribute_value_pairs fuel authenticator buffer tvb offset length
  = Some (Returned,
          set_tree (w_tree w ++ [proto_tree_add_text (w_offset w) 0 AvpTooShort]) w)
  /\ eap_calls (w_tree w ++ [proto_tree_add_text (w_offset w) 0 AvpTooShort]) = [].
Proof.
  intros Hlen Hwalks Ht Hl Hshort Hfuel. split.
  2:{ destruct (walks_tree _ _ _ _ _ Hwalks) as (evs & -> & Hevs). simpl.
      rewrite eap_calls_app, Hevs. reflexivity. }
  unfold dissect_attribute_value_pairs.
  replace (length =? 0) with false by lia.
  replace fuel with (List.length offsets + S (fuel - S (List.length offsets)))%nat by lia.
  rewrite (do_while_walks _ _ _ _ _ _ Hwalks). simpl.
  rewrite (avp_body_short _ _ _ _ _ Ht Hl Hshort). reflexivity.
Qed.

(** Every pass keeps the total within the size of [eap_buffer] and
    [eap_buffer] at its size, and none writes past its end. *)
Lemma avp_body_eap_inv (authenticator : list byte) (tvb : tvbuff_t)
    (w : walker) (f : flow unit) (w' : walker) :
  tvb_length tvb < 2 ^ 31 ->
  eap_inv w ->
  avp_body authenticator tvb w = (f, w') ->
  eap_inv w' /\ f <> Throw BufferOverrun.
Proof.
  intros Htvb Hinv Hbody. apply avp_body_inv in Hbody.
  destruct Hbody as [[-> ->]|(t & l & Ht & Hl & Hl255 & Ho & Hcases)];
    [split; [assumption|discriminate]|].
  destruct Hcases as [(_ & -> & ->)|[(_ & -> & ->)|[(Hl3 & He & _ & fe & Hm & Hends)
                     |(Hl3 & He & Hne & K & _ & _ & Hn & _)]]];
    try (split; [exact Hinv|discriminate]).
  - destruct Hinv as [Htot Hbuf].
    apply eap_message_spec in Hm; [|assumption|lia|exact Htot|exact Hbuf].
    simpl in Hm.
    destruct Hm as [(-> & _ & ->)|[(-> & ->)
      |(-> & Hle & Hdata & _ & _ & Ebuf & Etot & _)]].
    + split; [split; assumption|].
      destruct Hends as [[? _]|[[_ ->]|(e & ? & _)]]; congruence.
    + split; [split; assumption|].
      destruct Hends as [[? _]|[[? _]|(e & [= <-] & ->)]]; congruence.
    + split.
      * unfold eap_inv. rewrite Etot, Ebuf. split; [lia|].
        rewrite !length_app, length_take, length_drop.
        unfold MAX_RADIUS_PACKET_SIZE in *. lia.
      * destruct Hends as [[_ ->]|[[? _]|(e & ? & _)]]; congruence.
  - split; [|exact Hn].
    destruct K as (_ & _ & L3 & _ & L5 & _). unfold eap_inv.
    rewrite L3, L5. exact Hinv.
Qed.

Lemma walks_eap_inv (authenticator : list byte) (tvb : tvbuff_t)
    (w : walker) (offsets : list Z) (w' : walker) :
  tvb_length tvb < 2 ^ 31 ->
  walks authenticator tvb w offsets w' -> eap_inv w -> eap_inv w'.
Proof.
  intros Htvb. induction 1 as [w|w f w1 offsets w2 Hbody Hf Hlen Hwalks IH];
    intros Hinv; [assumption|].
  apply IH. eapply avp_body_eap_inv; eassumption.
Qed.

Lemma do_while_eap_inv (authenticator : list byte) (tvb : tvbuff_t) (fuel : nat) :
  tvb_length tvb < 2 ^ 31 ->
  forall w e wf, eap_inv w ->
    do_while fuel authenticator tvb w = Some (e, wf) ->
    eap_inv wf /\ e <> Thrown BufferOverrun.
Proof.
  intros Htvb. induction fuel as [|fuel IH]; intros w e wf Hinv; [discriminate|].
  simpl. destruct (avp_body authenticator tvb w) as [f w'] eqn:Hbody.
  destruct (avp_body_eap_inv _ _ _ _ _ Htvb Hinv Hbody) as [Hinv' Hn].
  destruct f as [[]| | |x].
  - destruct (w_length w' >? 0); [apply IH; assumption|].
    intros [= <- <-]. split; [assumption|discriminate].
  - destruct (w_length w' >? 0); [apply IH; assumption|].
    intros [= <- <-]. split; [assumption|discriminate].
  - intros [= <- <-]. split; [assumption|discriminate].
  - intros [= <- <-]. split; [assumption|]. intros [= ->]. apply Hn. reflexivity.
Qed.

Lemma eap_inv_init (buffer : list byte) (offset length : Z) :
  Z.of_nat (List.length buffer) = MAX_RADIUS_PACKET_SIZE ->
  eap_inv (walker_init buffer offset length).
Proof.
  intros Hbuf. unfold eap_inv, MAX_RADIUS_PACKET_SIZE in *. simpl. lia.
Qed.

(** C6. When the value octets of an EAP-Message would take the accumulated
    size past 4096, the size of [eap_buffer], the walker reports
    "Eap-Message longer than maximum radius packet size" and returns: the
    rest of the region is not decoded and [eap_buffer] is as it was.  And
    whatever the packet, no walk ever writes past the end of [eap_buffer]:
    no walk ends in [BufferOverrun], and at the end [eap_buffer] still has
    4096 octets of which at most 4096 are counted as accumulated. *)
Theorem eap_overflow_stops (authenticator buffer : list byte) (tvb : tvbuff_t)
    (offset length : Z) :
  Z.of_nat (List.length buffer) = MAX_RADIUS_PACKET_SIZE ->
  tvb_length tvb < 2 ^ 31 ->
  length <> 0 ->
  (forall offsets w l fuel,
     walks authenticator tvb (walker_init buffer offset length) offsets w ->
     tvb_get_guint8 tvb (w_offset w) = Ok RADIUS_EAP_MESSAGE_CODE ->
     tvb_get_guint8 tvb (w_offset w + 1) = Ok l ->
     3 <= l -> w_offset w + l <= tvb_length tvb ->
     MAX_RADIUS_PACKET_SIZE < eap_tot_len w + (l - 2) ->
     (List.length offsets < fuel)%nat ->
     dissect_attribute_value_pairs fuel authenticator buffer tvb offset length
     = Some (Returned,
             set_tree (w_tree w ++ [proto_tree_add_text (w_offset w) l (AvpHeader l);
                                    proto_tree_add_text (w_offset w) 0 EapTooLong])
               (set_length (to_gint (w_length w - l)) w)))
  /\ (forall fuel e wf,
        dissect_attribute_value_pairs fuel authenticator buffer tvb offset length
        = Some (e, wf) ->
        e <> Thrown BufferOverrun
        /\ Z.of_nat (List.length (eap_buffer wf)) = MAX_RADIUS_PACKET_SIZE
        /\ 0 <= eap_tot_len wf <= MAX_RADIUS_PACKET_SIZE).
Proof.
  intros Hbuf Htvb Hlen. split.
  - intros offsets w l fuel Hwalks Ht Hl Hl3 Hend Hover Hfuel.
    pose proof (walks_eap_inv _ _ _ _ _ Htvb Hwalks (eap_inv_init _ _ _ Hbuf))
      as [Htot _].
    pose proof (tvb_get_guint8_Ok _ _ _ Ht) as [_ Ho].
    pose proof (tvb_get_guint8_Ok _ _ _ Hl) as [Hl255 _].
    unfold dissect_attribute_value_pairs.
    replace (length =? 0) with false by lia.
    replace fuel with (List.length offsets + S (fuel - S (List.length offsets)))%nat
      by lia.
    rewrite (do_while_walks _ _ _ _ _ _ Hwalks). simpl.
    rewrite (avp_body_accepted _ _ _ _ _ Ht Hl Hl3).
    2:{ unfold tvb_ensure_length_remaining. rewrite to_gint_small by lia.
        replace (0 <=? w_offset w + l - 1) with true by lia.
        replace (w_offset w + l - 1 <? tvb_length tvb) with true by lia. reflexivity. }
    unfold avp_branch, eap_message. run.
    rewrite (to_guint32_small (l - 2)) by lia.
    unfold MAX_RADIUS_PACKET_SIZE in *.
    rewrite (to_guint32_small (eap_tot_len w + (l - 2))) by lia.
    replace (eap_tot_len w + (l - 2) >? 4096) with true by lia.
    simpl. rewrite <- app_assoc. reflexivity.
  - intros fuel e wf. unfold dissect_attribute_value_pairs.
    replace (length =? 0) with false by lia.
    destruct (do_while fuel authenticator tvb (walker_init buffer offset length))
      as [[e' w']|] eqn:Hloop; [|discriminate].
    destruct (do_while_eap_inv _ _ _ Htvb _ _ _ (eap_inv_init _ _ _ Hbuf) Hloop)
      as [[Htot Hb] Hn].
    destruct e'; intros [= <- <-]; (split; [first [discriminate|assumption]|]).
    + unfold call_eap. destruct (eap_tree w'), (eap_tvb w'); simpl; split; assumption.
    + split; assumption.
    + split; assumption.
Qed.

(** A walk that runs to the end of its loop has passed attributes that lie
    one behind the other, each pass moving the offset by the declared
    length of its attribute, and what it took off the remaining length is
    what it moved the offset by. *)
Lemma completes_in_step (authenticator : list byte) (tvb : tvbuff_t)
    (w : walker) (offsets : list Z) (w' : walker) :
  tvb_length tvb < 2 ^ 31 ->
  completes authenticator tvb w offsets w' ->
  0 < w_length w < 2 ^ 31 ->
  in_step tvb offsets (w_offset w) (w_offset w')
  /\ w_offset w' + w_length w' = w_offset w + w_length w.
Proof.
  intros Htvb.
  induction 1 as [w f w1 Hbody Hf Hlen|w f w1 offsets w2 Hbody Hf Hlen Hrest IH];
    intros Hpos;
    destruct (avp_body_continues _ _ _ _ _ Htvb Hbody Hf)
      as (t & l & Ht & Hl & Hl3 & Ho & Hend & Hcount & Hoff & _);
    rewrite to_gint_small in Hcount by lia; simpl;
    rewrite (avp_length_at_length _ _ _ Hl).
  - split; [|lia]. repeat split; [lia|]. rewrite Hoff. reflexivity.
  - destruct IH as [Hstep Hsum]; [lia|]. split; [|lia].
    repeat split; [lia|]. rewrite <- Hoff. exact Hstep.
Qed.

(** ** EAP reassembly *)

Lemma eap_fragments_snoc (tvb : tvbuff_t) (offsets : list Z) (offset : Z) :
  eap_fragments tvb (offsets ++ [offset])
  = eap_fragments tvb offsets
    ++ (if is_eap_at tvb offset then [avp_value_at tvb offset] else []).
Proof.
  unfold eap_fragments. rewrite List.filter_app, map_app. simpl.
  destruct (is_eap_at tvb offset); reflexivity.
Qed.

Lemma eap_fragment_sizes_snoc (tvb : tvbuff_t) (offsets : list Z) (offset : Z) :
  eap_fragment_sizes tvb (offsets ++ [offset])
  = eap_fragment_sizes tvb offsets
    ++ (if is_eap_at tvb offset then [avp_length_at tvb offset - 2] else []).
Proof.
  unfold eap_fragment_sizes. rewrite List.filter_app, map_app. simpl.
  destruct (is_eap_at tvb offset); reflexivity.
Qed.

Lemma foldr_add_snoc (xs : list Z) (x : Z) :
  foldr Z.add 0 (xs ++ [x]) = foldr Z.add 0 xs + x.
Proof.
  induction xs as [|y xs IH]; simpl; [lia|]. rewrite IH. lia.
Qed.

(** One more pass, one more attribute accounted for. *)
Lemma avp_body_reassembled (authenticator : list byte) (tvb : tvbuff_t)
    (offsets : list Z) (w : walker) (f : flow unit) (w' : walker) :
  tvb_length tvb < 2 ^ 31 ->
  eap_inv w -> reassembled tvb offsets w ->
  avp_body authenticator tvb w = (f, w') ->
  f = Val tt \/ f = Continue ->
  reassembled tvb (offsets ++ [w_offset w]) w'.
Proof.
  intros Htvb [Htot Hbuf] (R1 & R2 & R3 & R4 & R5 & R6) Hbody Hf.
  destruct (avp_body_continues _ _ _ _ _ Htvb Hbody Hf)
    as (t & l & Ht & Hl & Hl3 & Ho & Hend & _ & _ & _ & Hother & Heap).
  unfold reassembled.
  rewrite eap_fragments_snoc, eap_fragment_sizes_snoc, existsb_app. simpl.
  unfold last_fragment_at at 2.
  rewrite (is_eap_at_type _ _ _ Ht), (avp_length_at_length _ _ _ Hl).
  destruct (Z.eq_dec t RADIUS_EAP_MESSAGE_CODE) as [->|Hne].
  - rewrite Z.eqb_refl. simpl. rewrite concat_app, foldr_add_snoc. simpl.
    rewrite orb_false_r, app_nil_r.
    specialize (Heap eq_refl).
    apply eap_message_spec in Heap; [|assumption|lia|exact Htot|exact Hbuf].
    simpl in Heap.
    destruct Heap as [(? & _)|[(? & _)
      |(_ & Hle & Hdata & _ & _ & Ebuf & Etot & _ & Elast & Etree & Etvb & _)]];
      try discriminate.
    assert (Hval : avp_value_at tvb (w_offset w)
                   = take (Z.to_nat (l - 2)) (drop (Z.to_nat (w_offset w + 2)) tvb)).
    { unfold avp_value_at. rewrite (avp_length_at_length _ _ _ Hl). reflexivity. }
    rewrite Hval. unfold MAX_RADIUS_PACKET_SIZE in *.
    set (data := take (Z.to_nat (l - 2)) (drop (Z.to_nat (w_offset w + 2)) tvb)) in *.
    split; [|split; [|split; [|split; [|split]]]].
    + rewrite Etot, Ebuf, app_assoc.
      rewrite take_app_length'; [rewrite R1; reflexivity|].
      rewrite length_app, length_take. lia.
    + rewrite Etot, length_app. lia.
    + rewrite Etot, R3. reflexivity.
    + rewrite Elast, R4. reflexivity.
    + rewrite Etree, Elast. destruct (_ || _) eqn:E; [reflexivity|].
      rewrite R5. apply orb_false_iff in E. tauto.
    + rewrite Etvb, Elast, Etot. destruct (_ || _) eqn:E; [reflexivity|].
      rewrite R6. apply orb_false_iff in E. destruct E as [-> _]. reflexivity.
  - replace (t =? RADIUS_EAP_MESSAGE_CODE) with false by lia. simpl.
    rewrite !app_nil_r, orb_false_r.
    destruct (Hother Hne) as (-> & -> & _ & -> & -> & ->).
    repeat split; assumption.
Qed.

Lemma completes_reassembled (authenticator : list byte) (tvb : tvbuff_t)
    (w : walker) (offsets : list Z) (w' : walker) :
  tvb_length tvb < 2 ^ 31 ->
  completes authenticator tvb w offsets w' ->
  forall passed, eap_inv w -> reassembled tvb passed w ->
    reassembled tvb (passed ++ offsets) w'
    /\ exists evs, w_tree w' = w_tree w ++ evs /\ eap_calls evs = [].
Proof.
  intros Htvb.
  induction 1 as [w f w1 Hbody Hf Hlen|w f w1 offsets w2 Hbody Hf Hlen Hrest IH];
    intros passed Hinv Hre.
  - split; [eapply avp_body_reassembled; eassumption|].
    eapply avp_body_tree; eassumption.
  - destruct (IH (passed ++ [w_offset w])) as [Hre' (evs2 & E2 & N2)].
    + eapply avp_body_eap_inv; eassumption.
    + eapply avp_body_reassembled; eassumption.
    + rewrite <- app_assoc in Hre'. split; [exact Hre'|].
      destruct (avp_body_tree _ _ _ _ _ Hbody) as (evs1 & E1 & N1).
      exists (evs1 ++ evs2). rewrite E2, E1, <- app_assoc.
      split; [reflexivity|]. rewrite eap_calls_app, N1, N2. reflexivity.
Qed.

Lemma do_while_completes (authenticator : list byte) (tvb : tvbuff_t) (fuel : nat) :
  forall w w', do_while fuel authenticator tvb w = Some (Completed, w') ->
    exists offsets, completes authenticator tvb w offsets w'.
Proof.
  induction fuel as [|fuel IH]; intros w w'; [discriminate|].
  simpl. destruct (avp_body authenticator tvb w) as [f w1] eqn:Hbody.
  assert (Hgo : (f = Val tt \/ f = Continue) ->
                (if w_length w1 >? 0 then do_while fuel authenticator tvb w1
                 else Some (Completed, w1)) = Some (Completed, w') ->
                exists offsets, completes authenticator tvb w offsets w').
  { intros Hf. destruct (w_length w1 >? 0) eqn:Hlen.
    - intros Hrest. destruct (IH _ _ Hrest) as [offsets Hc].
      exists (w_offset w :: offsets). eapply completes_cons; eauto. lia.
    - intros [= <-]. exists [w_offset w]. eapply completes_last; eauto. lia. }
  destruct f as [[]| | |e]; try discriminate; apply Hgo; auto.
Qed.

Lemma do_while_tree (authenticator : list byte) (tvb : tvbuff_t) (fuel : nat) :
  forall w e w', do_while fuel authenticator tvb w = Some (e, w') ->
    exists evs, w_tree w' = w_tree w ++ evs /\ eap_calls evs = [].
Proof.
  induction fuel as [|fuel IH]; intros w e w'; [discriminate|].
  simpl. destruct (avp_body authenticator tvb w) as [f w1] eqn:Hbody.
  destruct (avp_body_tree _ _ _ _ _ Hbody) as (evs1 & E1 & N1).
  assert (Hgo : (if w_length w1 >? 0 then do_while fuel authenticator tvb w1
                 else Some (Completed, w1)) = Some (e, w') ->
                exists evs, w_tree w' = w_tree w ++ evs /\ eap_calls evs = []).
  { destruct (w_length w1 >? 0).
    - intros Hrest. destruct (IH _ _ _ Hrest) as (evs2 & E2 & N2).
      exists (evs1 ++ evs2). rewrite E2, E1, <- app_assoc.
      split; [reflexivity|]. rewrite eap_calls_app, N1, N2. reflexivity.
    - intros [= <- <-]. eauto. }
  destruct f as [[]| | |x]; try exact Hgo; intros [= <- <-]; eauto.
Qed.

Lemma reassembled_init (tvb : tvbuff_t) (buffer : list byte) (offset length : Z) :
  reassembled tvb [] (walker_init buffer offset length).
Proof. unfold reassembled. simpl. repeat split; reflexivity. Qed.

(** ** Attributes without a descriptor *)

Lemma tvb_get_guint8_byte_at (tvb : tvbuff_t) (offset v : Z) :
  tvb_get_guint8 tvb offset = Ok v -> byte_at tvb offset = v.
Proof.
  unfold tvb_get_guint8, byte_at. destruct (0 <=? offset); [|discriminate].
  destruct (tvb !! Z.to_nat offset) as [b|] eqn:Hb; [|discriminate].
  intros [= <-]. rewrite (nth_lookup_Some _ _ _ _ Hb). reflexivity.
Qed.

Lemma tvb_get_guint8_exists (tvb : tvbuff_t) (offset : Z) :
  0 <= offset < tvb_length tvb -> exists v, tvb_get_guint8 tvb offset = Ok v.
Proof.
  intros Ho. unfold tvb_get_guint8, tvb_length in *.
  replace (0 <=? offset) with true by lia.
  destruct (tvb !! Z.to_nat offset) as [b|] eqn:Hb; [eauto|].
  apply lookup_ge_None in Hb. lia.
Qed.

Lemma ensure_exists (tvb : tvbuff_t) (offset : Z) :
  tvb_length tvb < 2 ^ 31 -> 0 <= offset < tvb_length tvb ->
  tvb_ensure_length_remaining tvb (to_gint offset) = Ok tt.
Proof.
  intros Htvb Ho. unfold tvb_ensure_length_remaining. rewrite to_gint_small by lia.
  replace (0 <=? offset) with true by lia.
  replace (offset <? tvb_length tvb) with true by lia. reflexivity.
Qed.

Lemma item_length_given (tvb : tvbuff_t) (offset len : Z) :
  len <> -1 -> item_length tvb offset len = mret tt.
Proof.
  intros Hlen. unfold item_length. replace (len =? -1) with false by lia. reflexivity.
Qed.

(** Two walkers are the same when they agree field by field. *)
Lemma walker_ext (w1 w2 : walker) :
  w_offset w1 = w_offset w2 -> w_length w1 = w_length w2 ->
  last_eap w1 = last_eap w2 -> eap_buffer w1 = eap_buffer w2 ->
  eap_seg_num w1 = eap_seg_num w2 -> eap_tot_len w1 = eap_tot_len w2 ->
  eap_tree w1 = eap_tree w2 -> eap_tvb w1 = eap_tvb w2 ->
  w_tree w1 = w_tree w2 -> w1 = w2.
Proof.
  destruct w1, w2. simpl. intros; subst; reflexivity.
Qed.

Ltac walker_eq :=
  apply (f_equal (pair _)); apply walker_ext; simpl;
  first [reflexivity | lia | rewrite <- ?app_assoc; reflexivity].

(** The tail of a pass for the descriptor Unknown-Attribute, on a value
    that lies in the buffer: no tag, no registered dissector, the value
    shown as octets. *)
Lemma avp_tail_unknown (authenticator : list byte) (tvb : tvbuff_t)
    (len : Z) (w : walker) :
  tvb_length tvb < 2 ^ 31 ->
  0 <= w_offset w -> 0 <= len -> w_offset w + len <= tvb_length tvb ->
  avp_tail authenticator no_dictionary_entry tvb len w
  = (Val tt,
     set_offset (w_offset w + len)
       (set_tree
          (w_tree w
           ++ [proto_tree_add_uint (hf_len no_dictionary_entry) 0 0 len;
               proto_item_append_text ColonText;
               proto_tree_add_item (hf no_dictionary_entry) (w_offset w) len;
               proto_item_append_text
                 (BytesText (take (Z.to_nat len) (drop (Z.to_nat (w_offset w)) tvb)))])
          w)).
Proof.
  intros Htvb Ho Hlen Hend.
  unfold avp_tail, extract_tag, decode_value, call_type, radius_octets, add_item,
    tvb_value_bytes. run.
  rewrite (to_gint_small len) by lia. rewrite item_length_given by lia. run.
  rewrite (tvb_get_ptr_exists _ _ _ Ho Hlen Hend). simpl.
  rewrite (to_gint_small (w_offset w + len)) by lia.
  rewrite take_take, Nat.min_id. walker_eq.
Qed.

(** C7. An attribute for which the dictionary has no descriptor (for a
    Vendor-Specific attribute: no such vendor, or no such sub-type of the
    vendor) does not stop the walk.  The pass goes on with the descriptor
    Unknown-Attribute: it shows the attribute under that name with its
    value octets as octets, and ends at the loop condition with the offset
    on the next attribute and the declared length counted off. *)
Theorem unknown_attribute_decoded (authenticator : list byte) (tvb : tvbuff_t)
    (w : walker) (t l : Z) :
  tvb_length tvb < 2 ^ 31 ->
  tvb_get_guint8 tvb (w_offset w) = Ok t ->
  tvb_get_guint8 tvb (w_offset w + 1) = Ok l ->
  3 <= l ->
  (t = RADIUS_VENDOR_SPECIFIC_CODE -> 8 <= l) ->
  w_offset w + l <= tvb_length tvb ->
  t <> RADIUS_EAP_MESSAGE_CODE ->
  dictionary_lookup tvb (w_offset w) t = None ->
  avp_body authenticator tvb w
  = (Val tt,
     set_offset (w_offset w + l)
       (set_tree (w_tree w ++ unknown_attribute_events tvb (w_offset w) t l)
          (set_length (to_gint (w_length w - l)) w))).
Proof.
  intros Htvb Ht Hl Hl3 Hvsa Hend Hne Hlookup.
  pose proof (tvb_get_guint8_Ok _ _ _ Ht) as [_ Ho].
  pose proof (tvb_get_guint8_Ok _ _ _ Hl) as [Hl255 _].
  rewrite (avp_body_accepted _ _ _ _ _ Ht Hl Hl3)
    by (apply ensure_exists; [assumption|lia]).
  unfold avp_branch, dictionary_lookup, unknown_attribute_events, header_width in *.
  replace (t =? RADIUS_EAP_MESSAGE_CODE) with false by lia.
  destruct (t =? RADIUS_VENDOR_SPECIFIC_CODE) eqn:Hv.
  - assert (8 <= l) as Hl8 by (apply Hvsa; lia).
    assert (exists vendor_id, tvb_get_ntohl tvb (w_offset w + 2) = Ok vendor_id)
      as [vendor_id Hvid].
    { unfold tvb_get_ntohl, tvb_get_ntoh.
      rewrite tvb_memcpy_exists by lia. eauto. }
    destruct (tvb_get_guint8_exists tvb (w_offset w + 6) ltac:(lia)) as [sub Hsub].
    destruct (tvb_get_guint8_exists tvb (w_offset w + 7) ltac:(lia)) as [sublen Hsublen].
    rewrite Hvid, Hsub in Hlookup. rewrite Hvid.
    rewrite (tvb_get_guint8_byte_at _ _ _ Hsub).
    unfold mbind at 1, M_bind at 1, bind at 1.
    unfold vendor_specific. run. rewrite Hvid, Hsub, Hsublen.
    rewrite (to_guint32_small (l - 8)) by lia.
    destruct (vendors_by_id dict !! vendor_id) as [vendor|]; simpl.
    + rewrite Hlookup. simpl.
      match goal with
      | |- avp_tail _ _ _ _ ?w1 = _ =>
          rewrite (avp_tail_unknown authenticator tvb (l - 8) w1 Htvb)
            by (simpl; lia)
      end.
      walker_eq.
    + match goal with
      | |- avp_tail _ _ _ _ ?w1 = _ =>
          rewrite (avp_tail_unknown authenticator tvb (l - 8) w1 Htvb)
            by (simpl; lia)
      end.
      walker_eq.
  - unfold mbind at 1, M_bind at 1, bind at 1.
    unfold plain_attribute. run. rewrite Hlookup. simpl.
    rewrite (to_guint32_small (l - 2)) by lia.
    match goal with
    | |- avp_tail _ _ _ _ ?w1 = _ =>
        rewrite (avp_tail_unknown authenticator tvb (l - 2) w1 Htvb)
          by (simpl; lia)
    end.
    walker_eq.
Qed.

(** ** Tags *)

(** C8. For a descriptor marked tagged, on a value of at least one octet
    whose first octet is [b]: when [b] is at most 0x1F the walker shows [b]
    as the Tag and hands the value decoder the value less its first octet,
    one octet further on and one octet shorter; when [b] is 0x20 or more
    no Tag is shown and the value decoder gets the value as it is. *)
Theorem tag_extraction (authenticator : list byte) (a : radius_attr_info_t)
    (tvb : tvbuff_t) (avp_length : Z) (w : walker) (b : Z) :
  tagged a = true ->
  1 <= avp_length < 2 ^ 32 ->
  tvb_get_guint8 tvb (w_offset w) = Ok b ->
  let shown := w_tree w ++ [proto_tree_add_uint (hf_len a) 0 0 avp_length] in
  avp_tail authenticator a tvb avp_length w
  = if b <=? 31 then
      (decode_value authenticator a tvb (avp_length - 1)
         ≫= fun _ => modify (fun w => set_offset (to_gint (w_offset w + (avp_length - 1))) w))
        (set_offset (w_offset w + 1)
           (set_tree (shown ++ [proto_tree_add_uint (hf_tag a) (w_offset w) 1 b;
                                proto_item_append_text (TagText b)]) w))
    else
      (decode_value authenticator a tvb avp_length
         ≫= fun _ => modify (fun w => set_offset (to_gint (w_offset w + avp_length)) w))
        (set_tree shown w).
Proof.
  intros Htagged Hlen Hb shown. unfold avp_tail, extract_tag. rewrite Htagged.
  run. rewrite Hb. simpl.
  destruct (b <=? 31); simpl.
  - rewrite (to_guint32_small (avp_length - 1)) by lia.
    unfold shown. rewrite <- !app_assoc. reflexivity.
  - reflexivity.
Qed.

(** ** A sound region is walked to its end *)

Lemma avp_type_at_type (tvb : tvbuff_t) (offset t : Z) :
  tvb_get_guint8 tvb offset = Ok t -> avp_type_at tvb offset = t.
Proof. unfold avp_type_at. intros ->. reflexivity. Qed.

Lemma tvb_get_ntoh_exists (width : Z) (tvb : tvbuff_t) (offset : Z) :
  0 <= offset -> 0 <= width -> offset + width <= tvb_length tvb ->
  exists v, tvb_get_ntoh width tvb offset = Ok v.
Proof.
  intros Ho Hw Hend. unfold tvb_get_ntoh.
  rewrite tvb_memcpy_exists by assumption. eauto.
Qed.

Lemma radius_decrypt_avp_exists (authenticator : list byte) (tvb : tvbuff_t)
    (offset len : Z) :
  0 <= offset -> 0 <= len -> offset + len <= tvb_length tvb ->
  exists buffer, radius_decrypt_avp authenticator tvb offset len = Ok buffer.
Proof.
  intros Ho Hlen Hend. unfold radius_decrypt_avp.
  rewrite tvb_get_ptr_exists by assumption. eauto.
Qed.

(** Every decoder of a type gets through a value of up to 255 octets that
    lies in the buffer. *)
Lemma call_type_runs (authenticator : list byte) (a : radius_attr_info_t)
    (tvb : tvbuff_t) (offset len : Z) (w : walker) :
  type a <> None ->
  0 <= offset -> 0 <= len <= 255 -> offset + len <= tvb_length tvb ->
  exists w', call_type authenticator a tvb offset len w = (Val tt, w').
Proof.
  intros Hty Ho [Hlen H255] Hend. unfold call_type.
  destruct (type a) as [[]|]; [..|congruence].
  - unfold radius_integer. destruct (len =? 8) eqn:H8.
    + destruct (tvb_get_ntoh_exists 8 tvb offset) as [v Hv]; [lia..|].
      unfold tvb_get_ntoh64. run. rewrite Hv. eauto.
    + destruct ((len =? 2) || (len =? 3) || (len =? 4)) eqn:H234; [|run; eauto].
      destruct (tvb_get_ntoh_exists len tvb offset) as [v Hv]; [lia..|].
      run. rewrite Hv. destruct (vs a); eauto.
  - unfold radius_string, add_item, add_string, tvb_value_bytes.
    rewrite item_length_given by lia.
    destruct (encrypt a).
    + destruct shared_secret as [|c secret] eqn:Hsecret.
      * run. rewrite tvb_get_ptr_exists by assumption. eauto.
      * destruct (radius_decrypt_avp_exists authenticator tvb offset len Ho Hlen Hend)
          as [buffer Hbuffer].
        pose proof (radius_decrypt_avp_fits _ _ _ _ _ H255 Hbuffer) as Hfits.
        unfold gchar_array. run. rewrite Hbuffer.
        replace (Z.of_nat (String.length buffer) + 1 <=? 1024) with true by lia.
        eauto.
    + run. rewrite tvb_get_ptr_exists by assumption. simpl. eauto.
  - unfold radius_octets, add_item, tvb_value_bytes.
    rewrite item_length_given by lia. run.
    rewrite tvb_get_ptr_exists by assumption. simpl. eauto.
  - unfold radius_ipaddr, add_item. destruct (len =? 4) eqn:H4; [|run; eauto].
    destruct (tvb_get_ntoh_exists 4 tvb offset) as [v Hv]; [lia..|].
    rewrite item_length_given by lia.
    unfold tvb_get_ntohl. run. rewrite Hv.
    rewrite tvb_get_ptr_exists by assumption. eauto.
  - unfold radius_ipv6addr, add_item. destruct (len =? 16) eqn:H16; [|run; eauto].
    rewrite item_length_given by lia.
    run. rewrite tvb_get_ptr_exists by assumption. simpl.
    rewrite tvb_memcpy_exists by assumption. eauto.
  - unfold radius_date. destruct (len =? 4) eqn:H4; [|run; eauto].
    destruct (tvb_get_ntoh_exists 4 tvb offset) as [v Hv]; [lia..|].
    unfold tvb_get_ntohl. run. rewrite Hv. eauto.
  - unfold radius_abinary, add_item, tvb_value_bytes.
    rewrite item_length_given by lia. run.
    rewrite tvb_get_ptr_exists by assumption. simpl. eauto.
  - unfold radius_ifid, add_item, tvb_value_bytes.
    rewrite item_length_given by lia. run.
    rewrite tvb_get_ptr_exists by assumption. simpl. eauto.
Qed.

Lemma has_decoder_cases (a : radius_attr_info_t) :
  has_decoder a = true -> dissector a <> None \/ type a <> None.
Proof.
  unfold has_decoder. destruct (dissector a), (type a); intros H;
    first [discriminate | left; discriminate | right; discriminate].
Qed.

(** The tail of a pass gets through a value that lies in the buffer, for a
    descriptor with a decoder and, when it is tagged, a value of at least
    one octet. *)
Lemma avp_tail_runs (authenticator : list byte) (a : radius_attr_info_t)
    (tvb : tvbuff_t) (len : Z) (w : walker) :
  tvb_length tvb < 2 ^ 31 ->
  has_decoder a = true ->
  (tagged a = true -> 1 <= len) ->
  0 <= w_offset w -> 0 <= len <= 255 -> w_offset w + len <= tvb_length tvb ->
  exists w', avp_tail authenticator a tvb len w = (Val tt, w').
Proof.
  intros Htvb Hdec Htag Ho Hlen Hend.
  assert (Hvalue : forall len' w1,
            0 <= w_offset w1 -> 0 <= len' <= 255 ->
            w_offset w1 + len' <= tvb_length tvb ->
            exists w', decode_value authenticator a tvb len' w1 = (Val tt, w')).
  { intros len' w1 Ho1 Hlen1 Hend1. unfold decode_value. run.
    rewrite (to_gint_small len') by lia.
    destruct (dissector a) as [d|] eqn:Hd.
    - rewrite tvb_get_ptr_exists by lia. simpl. eauto.
    - apply call_type_runs; try assumption.
      destruct (has_decoder_cases a Hdec) as [H|H]; [congruence|exact H]. }
  unfold avp_tail, extract_tag.
  destruct (tagged a) eqn:Htagged; run.
  - specialize (Htag eq_refl).
    destruct (tvb_get_guint8_exists tvb (w_offset w) ltac:(lia)) as [tag Htagv].
    rewrite Htagv. simpl.
    destruct (tag <=? 31); simpl.
    + rewrite (to_guint32_small (len - 1)) by lia.
      match goal with
      | |- context [decode_value _ _ _ _ ?w1] =>
          destruct (Hvalue (len - 1) w1) as [w' Hw']; [simpl; lia..|]
      end.
      rewrite Hw'. eauto.
    + match goal with
      | |- context [decode_value _ _ _ _ ?w1] =>
          destruct (Hvalue len w1) as [w' Hw']; [simpl; lia..|]
      end.
      rewrite Hw'. eauto.
  - match goal with
    | |- context [decode_value _ _ _ _ ?w1] =>
        destruct (Hvalue len w1) as [w' Hw']; [simpl; lia..|]
    end.
    rewrite Hw'. eauto.
Qed.

(** The EAP-Message branch ends in [continue] when the fragment lies in the
    buffer and fits into [eap_buffer] behind what is there. *)
Lemma eap_message_runs (tvb : tvbuff_t) (avp_length : Z) (w : walker) :
  tvb_length tvb < 2 ^ 31 ->
  3 <= avp_length <= 255 ->
  eap_inv w ->
  0 <= w_offset w -> w_offset w + avp_length <= tvb_length tvb ->
  eap_tot_len w + (avp_length - 2) <= MAX_RADIUS_PACKET_SIZE ->
  exists w', eap_message tvb avp_length w = (Continue, w').
Proof.
  unfold eap_inv, MAX_RADIUS_PACKET_SIZE.
  intros Htvb Hl [Htot Hbuf] Ho Hend Hfits. unfold eap_message. run.
  rewrite (to_guint32_small (avp_length - 2)) by lia.
  rewrite (to_guint32_small (eap_tot_len w + (avp_length - 2))) by lia.
  unfold MAX_RADIUS_PACKET_SIZE.
  replace (eap_tot_len w + (avp_length - 2) >? 4096) with false by lia.
  rewrite tvb_memcpy_exists by lia. simpl.
  unfold write_buffer.
  assert (Hdata : Z.of_nat (length (take (Z.to_nat (avp_length - 2))
                                     (drop (Z.to_nat (w_offset w + 2)) tvb)))
                  = avp_length - 2).
  { rewrite length_take, length_drop. unfold tvb_length in *. lia. }
  rewrite Hdata.
  replace (0 <=? eap_tot_len w) with true by lia.
  replace (eap_tot_len w + (avp_length - 2) <=? Z.of_nat (length (eap_buffer w)))
    with true by lia.
  simpl.
  rewrite (to_gint_small (avp_length + 3)) by lia.
  destruct (tvb_bytes_exist tvb (w_offset w) (avp_length + 3)) eqn:Hex; run.
  - unfold tvb_bytes_exist in Hex. rewrite !andb_true_iff in Hex.
    destruct Hex as [_ He].
    rewrite (to_gint_small (w_offset w + avp_length)) by lia.
    destruct (tvb_get_guint8_exists tvb (w_offset w + avp_length) ltac:(lia))
      as [next_type Hnext].
    rewrite Hnext. simpl.
    destruct (next_type =? RADIUS_EAP_MESSAGE_CODE), (last_eap w); simpl; eauto.
  - eauto.
Qed.

(** A pass over an attribute that lies in the buffer, declares what its
    type needs, can be decoded and, if it is an EAP-Message, fits into
    [eap_buffer], reaches the loop condition. *)
Lemma avp_body_runs (authenticator : list byte) (tvb : tvbuff_t) (w : walker) :
  tvb_length tvb < 2 ^ 31 ->
  eap_inv w ->
  0 <= w_offset w ->
  3 <= avp_length_at tvb (w_offset w) ->
  w_offset w + avp_length_at tvb (w_offset w) <= tvb_length tvb ->
  vendor_specific_fits tvb (w_offset w) = true ->
  decodable tvb (w_offset w) = true ->
  (is_eap_at tvb (w_offset w) = true ->
   eap_tot_len w + (avp_length_at tvb (w_offset w) - 2) <= MAX_RADIUS_PACKET_SIZE) ->
  exists f w', avp_body authenticator tvb w = (f, w') /\ (f = Val tt \/ f = Continue).
Proof.
  intros Htvb Hinv Ho Hl3 Hend Hfits Hdec Heap.
  destruct (tvb_get_guint8_exists tvb (w_offset w) ltac:(lia)) as [t Ht].
  destruct (tvb_get_guint8_exists tvb (w_offset w + 1) ltac:(lia)) as [l Hl].
  pose proof (tvb_get_guint8_Ok _ _ _ Hl) as [Hl255 _].
  unfold vendor_specific_fits, decodable in *.
  rewrite (avp_type_at_type _ _ _ Ht) in *.
  rewrite (is_eap_at_type _ _ _ Ht) in *.
  rewrite (avp_length_at_length _ _ _ Hl) in *.
  rewrite (avp_body_accepted _ _ _ _ _ Ht Hl Hl3)
    by (apply ensure_exists; [assumption|lia]).
  unfold avp_branch, dictionary_lookup, header_width in *.
  destruct (t =? RADIUS_VENDOR_SPECIFIC_CODE) eqn:Hv.
  - replace (t =? RADIUS_EAP_MESSAGE_CODE) with false in *
      by (unfold RADIUS_VENDOR_SPECIFIC_CODE, RADIUS_EAP_MESSAGE_CODE in *; lia).
    assert (8 <= l) as Hl8 by lia.
    destruct (tvb_get_ntoh_exists 4 tvb (w_offset w + 2)) as [vendor_id Hvid]; [lia..|].
    destruct (tvb_get_guint8_exists tvb (w_offset w + 6) ltac:(lia)) as [sub Hsub].
    destruct (tvb_get_guint8_exists tvb (w_offset w + 7) ltac:(lia)) as [sublen Hsublen].
    unfold tvb_get_ntohl in *. rewrite Hvid, Hsub in Hdec.
    apply andb_true_iff in Hdec. destruct Hdec as [Hdec Htag].
    unfold mbind at 1, M_bind at 1, bind at 1.
    unfold vendor_specific, tvb_get_ntohl. run. rewrite Hvid, Hsub, Hsublen.
    rewrite (to_guint32_small (l - 8)) by lia.
    destruct (vendors_by_id dict !! vendor_id) as [vendor|]; simpl;
      match goal with
      | |- context [avp_tail _ ?a _ _ ?w1] =>
          destruct (avp_tail_runs authenticator a tvb (l - 8) w1 Htvb Hdec)
            as [w' Hw'];
          [ intros Htagged; simpl in Htag, Htagged;
            first [discriminate | rewrite Htagged in Htag; lia]
          | simpl; lia .. | ]
      end;
      rewrite Hw'; eauto.
  - destruct (t =? RADIUS_EAP_MESSAGE_CODE) eqn:He.
    + destruct (eap_message_runs tvb l (accepted l w) Htvb ltac:(lia))
        as [w' Hw']; [exact Hinv|simpl; lia..|].
      unfold mbind at 1, M_bind at 1, bind at 1. rewrite Hw'. eauto.
    + apply andb_true_iff in Hdec. destruct Hdec as [Hdec Htag].
      unfold mbind at 1, M_bind at 1, bind at 1.
      unfold plain_attribute. run.
      rewrite (to_guint32_small (l - 2)) by lia.
      match goal with
      | |- context [avp_tail _ ?a _ _ ?w1] =>
          destruct (avp_tail_runs authenticator a tvb (l - 2) w1 Htvb Hdec)
            as [w' Hw'];
          [ intros Htagged; simpl in Htag, Htagged;
            first [discriminate | rewrite Htagged in Htag; lia]
          | simpl; lia .. | ]
      end.
      rewrite Hw'. eauto.
Qed.

Lemma in_step_le (tvb : tvbuff_t) (offsets : list Z) :
  forall start stop, in_step tvb offsets start stop -> start <= stop.
Proof.
  induction offsets as [|offset offsets IH]; simpl; intros start stop.
  - lia.
  - intros (-> & Hl3 & Hrest). apply IH in Hrest. lia.
Qed.

Lemma eap_fragment_sizes_cons (tvb : tvbuff_t) (offset : Z) (offsets : list Z) :
  foldr Z.add 0 (eap_fragment_sizes tvb (offset :: offsets))
  = (if is_eap_at tvb offset then avp_length_at tvb offset - 2 else 0)
    + foldr Z.add 0 (eap_fragment_sizes tvb offsets).
Proof.
  unfold eap_fragment_sizes. simpl. destruct (is_eap_at tvb offset); reflexivity.
Qed.

Lemma eap_fragment_sizes_nonneg (tvb : tvbuff_t) (offsets : list Z) :
  forall start stop, in_step tvb offsets start stop ->
    0 <= foldr Z.add 0 (eap_fragment_sizes tvb offsets).
Proof.
  induction offsets as [|offset offsets IH]; intros start stop.
  - intros _. reflexivity.
  - intros (_ & Hl3 & Hrest). rewrite eap_fragment_sizes_cons.
    apply IH in Hrest. destruct (is_eap_at tvb offset); lia.
Qed.

(** From a walker that stands at the start of a sound region with the
    length of the region left, the loop passes the attributes one by one
    and ends behind the last. *)
Lemma in_step_completes (authenticator : list byte) (tvb : tvbuff_t)
    (offsets : list Z) :
  tvb_length tvb < 2 ^ 31 ->
  forall w stop,
    offsets <> [] ->
    eap_inv w ->
    0 <= w_offset w -> stop <= tvb_length tvb ->
    in_step tvb offsets (w_offset w) stop ->
    forallb (vendor_specific_fits tvb) offsets = true ->
    forallb (decodable tvb) offsets = true ->
    eap_tot_len w + foldr Z.add 0 (eap_fragment_sizes tvb offsets)
    <= MAX_RADIUS_PACKET_SIZE ->
    w_length w = stop - w_offset w ->
    exists w', completes authenticator tvb w offsets w'
               /\ w_offset w' = stop /\ w_length w' = 0.
Proof.
  intros Htvb. induction offsets as [|offset offsets IH]; [congruence|].
  intros w stop _ Hinv Ho Hstop (-> & Hl3 & Hrest) Hfits Hdec Hsum Hlen.
  simpl in Hfits, Hdec. apply andb_true_iff in Hfits, Hdec.
  destruct Hfits as [Hfit Hfits], Hdec as [Hd Hdec].
  rewrite eap_fragment_sizes_cons in Hsum.
  pose proof (in_step_le _ _ _ _ Hrest) as Hle.
  pose proof (eap_fragment_sizes_nonneg _ _ _ _ Hrest) as Hnonneg.
  destruct (avp_body_runs authenticator tvb w Htvb Hinv Ho Hl3 ltac:(lia) Hfit Hd)
    as (f & w1 & Hbody & Hf).
  { intros Heap. rewrite Heap in Hsum. lia. }
  destruct (avp_body_continues _ _ _ _ _ Htvb Hbody Hf)
    as (t & l & Ht & Hl & Hl255 & _ & _ & Hcount & Hoff & _ & Hother & Heap).
  rewrite (avp_length_at_length _ _ _ Hl) in *.
  rewrite (is_eap_at_type _ _ _ Ht) in Hsum.
  rewrite to_gint_small in Hcount by lia.
  destruct offsets as [|next offsets].
  - simpl in Hrest. exists w1. split; [|lia].
    eapply completes_last; [exact Hbody|exact Hf|lia].
  - pose proof Hrest as (Hnext & Hnext3 & Hrest').
    apply in_step_le in Hrest'.
    destruct (avp_body_eap_inv _ _ _ _ _ Htvb Hinv Hbody) as [Hinv1 _].
    destruct (IH w1 stop) as (w' & Hc & Hw'); try assumption;
      [discriminate|lia|rewrite Hoff; exact Hrest| |lia|].
    + destruct (Z.eq_dec t RADIUS_EAP_MESSAGE_CODE) as [->|Hne].
      * rewrite Z.eqb_refl in Hsum.
        destruct Hinv as [Htot Hbuf].
        specialize (Heap eq_refl).
        apply eap_message_spec in Heap; [|assumption|lia|exact Htot|exact Hbuf].
        simpl in Heap.
        destruct Heap as [(? & _)|[(? & _)|(_ & _ & _ & _ & _ & _ & Etot & _)]];
          try discriminate.
        rewrite Etot. lia.
      * destruct (Hother Hne) as (_ & _ & _ & Etot & _). rewrite Etot.
        replace (t =? RADIUS_EAP_MESSAGE_CODE) with false in Hsum by lia. lia.
    + exists w'. split; [|exact Hw'].
      eapply completes_cons; [exact Hbody|exact Hf|lia|exact Hc].
Qed.

Lemma do_while_of_completes (authenticator : list byte) (tvb : tvbuff_t)
    (w : walker) (offsets : list Z) (w' : walker) :
  completes authenticator tvb w offsets w' ->
  forall fuel, (length offsets <= fuel)%nat ->
    do_while fuel authenticator tvb w = Some (Completed, w').
Proof.
  induction 1 as [w f w1 Hbody Hf Hlen|w f w1 offsets w2 Hbody Hf Hlen Hrest IH];
    intros [|fuel] Hfuel; simpl in Hfuel; try lia; simpl; rewrite Hbody.
  - replace (w_length w1 >? 0) with false by lia.
    destruct Hf as [-> | ->]; reflexivity.
  - replace (w_length w1 >? 0) with true by lia.
    destruct Hf as [-> | ->]; apply IH; lia.
Qed.

Lemma in_stepb_in_step (tvb : tvbuff_t) (offsets : list Z) :
  forall start stop,
    in_stepb tvb offsets start stop = true -> in_step tvb offsets start stop.
Proof.
  induction offsets as [|offset offsets IH]; simpl; intros start stop H.
  - lia.
  - rewrite !andb_true_iff in H. destruct H as [[Ho Hl] Hrest].
    repeat split; [lia|lia|]. apply IH, Hrest.
Qed.

Lemma call_eap_offset (w : walker) :
  w_offset (call_eap w) = w_offset w /\ w_length (call_eap w) = w_length w.
Proof.
  unfold call_eap. destruct (eap_tree w), (eap_tvb w); split; reflexivity.
Qed.

(** A result of the loop stays what it is under a larger bound. *)
Lemma do_while_mono (authenticator : list byte) (tvb : tvbuff_t) (fuel : nat) :
  forall w r, do_while fuel authenticator tvb w = Some r ->
    forall fuel', (fuel <= fuel')%nat -> do_while fuel' authenticator tvb w = Some r.
Proof.
  induction fuel as [|fuel IH]; intros w r; [discriminate|].
  intros H [|fuel'] Hle; [lia|]. simpl in *.
  destruct (avp_body authenticator tvb w) as [[[]| | |e] w1]; try exact H;
    (destruct (w_length w1 >? 0); [apply (IH _ _ H); lia|exact H]).
Qed.

Lemma dissect_attribute_value_pairs_mono (authenticator buffer : list byte)
    (tvb : tvbuff_t) (offset length : Z) (fuel fuel' : nat) (r : ending * walker) :
  dissect_attribute_value_pairs fuel authenticator buffer tvb offset length = Some r ->
  (fuel <= fuel')%nat ->
  dissect_attribute_value_pairs fuel' authenticator buffer tvb offset length = Some r.
Proof.
  unfold dissect_attribute_value_pairs. intros H Hle.
  destruct (length =? 0); [exact H|].
  destruct (do_while fuel authenticator tvb (walker_init buffer offset length))
    as [r0|] eqn:Hloop; [|discriminate].
  rewrite (do_while_mono _ _ _ _ _ Hloop _ Hle). exact H.
Qed.

(** C2, as amended.  Let the attribute region be a sound sequence of
    attributes: they lie one behind the other from the start of the region
    to its end, each declaring at least 3 and each Vendor-Specific one at
    least 8.  Let the region lie in the captured buffer, let every
    attribute other than an EAP-Message have a decoder and, when tagged, a
    value octet for the tag, and let the EAP-Message values add up to no
    more than the 4096 octets of [eap_buffer].  Then the walker makes one
    pass for each attribute, each pass starting where the attribute
    starts, so advancing by the full declared length, and runs to the
    end of its loop with the offset at the end of the region and nothing
    left of the length. *)
Theorem sound_region_consumed (authenticator buffer : list byte) (tvb : tvbuff_t)
    (offset length : Z) (offsets : list Z) :
  tvb_length tvb < 2 ^ 31 ->
  Z.of_nat (List.length buffer) = MAX_RADIUS_PACKET_SIZE ->
  0 <= offset -> 0 < length -> offset + length <= tvb_length tvb ->
  in_step tvb offsets offset (offset + length) ->
  forallb (vendor_specific_fits tvb) offsets = true ->
  forallb (decodable tvb) offsets = true ->
  foldr Z.add 0 (eap_fragment_sizes tvb offsets) <= MAX_RADIUS_PACKET_SIZE ->
  (exists w,
     completes authenticator tvb (walker_init buffer offset length) offsets w
     /\ w_offset w = offset + length /\ w_length w = 0)
  /\ forall fuel, (List.length offsets <= fuel)%nat ->
       region_consumed fuel authenticator buffer tvb offset length.
Proof.
  intros Htvb Hbuf Ho Hlen Hend Hstep Hfits Hdec Hsum.
  assert (Hne : offsets <> []).
  { intros ->. simpl in Hstep. lia. }
  destruct (in_step_completes authenticator tvb offsets Htvb
              (walker_init buffer offset length) (offset + length) Hne)
    as (w & Hc & Hoff & Hzero); simpl; try assumption; try lia.
  { apply eap_inv_init, Hbuf. }
  split; [exists w; auto|].
  intros fuel Hfuel. exists (call_eap w).
  destruct (call_eap_offset w) as [-> ->].
  split; [|split; assumption].
  unfold dissect_attribute_value_pairs.
  replace (length =? 0) with false by lia.
  rewrite (do_while_of_completes _ _ _ _ _ Hc fuel Hfuel). reflexivity.
Qed.

(** ** EAP reassembly over a sound region *)

(** In a sequence of attributes that lie one behind the other, an
    EAP-Message is followed by an attribute of another type, or by another
    EAP-Message, or it is the last; so when what lies behind the sequence is
    not taken for a further EAP-Message, one of the EAP-Messages, if there
    is any, is found to be the last fragment. *)
Lemma last_fragment_seen (tvb : tvbuff_t) (offsets : list Z) :
  forall start stop,
    in_step tvb offsets start stop ->
    tvb_bytes_exist tvb stop 3 = false \/ is_eap_at tvb stop = false ->
    existsb (last_fragment_at tvb) offsets = existsb (is_eap_at tvb) offsets.
Proof.
  induction offsets as [|offset offsets IH]; intros start stop; [reflexivity|].
  intros (-> & Hl3 & Hrest) Hbehind. simpl.
  rewrite (IH _ _ Hrest Hbehind).
  unfold last_fragment_at.
  destruct (is_eap_at tvb start) eqn:Heap; [|reflexivity]. simpl.
  destruct offsets as [|next offsets].
  - simpl in Hrest. subst stop. rewrite !orb_false_r.
    destruct Hbehind as [Hnone|Hother].
    + assert (tvb_bytes_exist tvb start (avp_length_at tvb start + 3) = false) as ->;
        [|reflexivity].
      unfold tvb_bytes_exist in *.
      rewrite !andb_false_iff in *. rewrite !Z.leb_gt in *. lia.
    + rewrite Hother, orb_true_r. reflexivity.
  - destruct Hrest as (-> & _ & _). simpl.
    destruct (is_eap_at tvb (start + avp_length_at tvb start));
      [rewrite orb_true_r|rewrite orb_true_r]; reflexivity.
Qed.

Lemma last_fragment_is_eap (tvb : tvbuff_t) (offsets : list Z) :
  existsb (last_fragment_at tvb) offsets = true ->
  existsb (is_eap_at tvb) offsets = true.
Proof.
  induction offsets as [|offset offsets IH]; simpl; [discriminate|].
  unfold last_fragment_at at 1.
  destruct (is_eap_at tvb offset); [reflexivity|]. exact IH.
Qed.


(** ** No call through a NULL pointer *)

Lemma defined_ret {A} (a : A) : defined (mret a).
Proof. intros w f w' [= <- <-]. discriminate. Qed.

Lemma defined_get {A} (g : walker -> A) : defined (get g).
Proof. intros w f w' [= <- <-]. discriminate. Qed.

Lemma defined_emit (e : event) : defined (emit e).
Proof. intros w f w' [= <- <-]. discriminate. Qed.

Lemma defined_modify (g : walker -> walker) : defined (modify g).
Proof. intros w f w' [= <- <-]. discriminate. Qed.

Lemma defined_lift {A} (r : result A) :
  (forall e, r = Raise e -> e <> NullCall) -> defined (lift r).
Proof.
  intros Hr w f w'. unfold lift. destruct r as [a|e]; intros [= <- <-];
    [discriminate|]. intros [= ->]. exact (Hr _ eq_refl eq_refl).
Qed.

(** What follows may rely on a property of the value handed over. *)
Lemma defined_bind_val {A B} (P : A -> Prop) (m : M A) (k : A -> M B) :
  defined m ->
  (forall w a w', m w = (Val a, w') -> P a) ->
  (forall a, P a -> defined (k a)) ->
  defined (m ≫= k).
Proof.
  intros Hm HP Hk w f w'. unfold mbind, M_bind, bind.
  destruct (m w) as [[a| | |e] w1] eqn:Hmw.
  - apply (Hk a (HP _ _ _ Hmw)).
  - intros [= <- <-]. discriminate.
  - intros [= <- <-]. discriminate.
  - intros [= <- <-] [= ->]. apply (Hm _ _ _ Hmw). reflexivity.
Qed.

Lemma defined_bind {A B} (m : M A) (k : A -> M B) :
  defined m -> (forall a, defined (k a)) -> defined (m ≫= k).
Proof.
  intros Hm Hk. apply (defined_bind_val (fun _ => True)); auto.
Qed.

Ltac no_null :=
  let e := fresh "e" in
  let H := fresh "H" in
  intros e H;
  first [ discriminate H
        | first [ apply tvb_get_guint8_Raise in H
                | apply tvb_get_ntoh_Raise in H
                | apply tvb_memcpy_Raise in H
                | apply tvb_get_ptr_Raise in H
                | apply tvb_ensure_length_remaining_Raise in H
                | apply radius_decrypt_avp_Raise in H
                | apply gchar_array_Raise in H ];
          rewrite H; discriminate ].

Create HintDb defined.

#[local] Hint Resolve defined_ret defined_get defined_emit defined_modify : defined.
#[local] Hint Extern 1 (defined (lift _)) => (apply defined_lift; no_null) : defined.
#[local] Hint Extern 2 (defined (_ ≫= _)) => (apply defined_bind; [|intros ?]) : defined.
#[local] Hint Extern 3 (defined (if ?b then _ else _)) => destruct b : defined.
#[local] Hint Extern 3 (defined (match ?x with _ => _ end)) => destruct x : defined.

Lemma defined_call_type (authenticator : list byte) (a : radius_attr_info_t)
    (tvb : tvbuff_t) (offset len : Z) :
  type a <> None -> defined (call_type authenticator a tvb offset len).
Proof.
  intros Hty. unfold call_type.
  destruct (type a) as [[]|]; [..|congruence];
    unfold radius_integer, radius_string, radius_octets, radius_ipaddr,
      radius_ipv6addr, radius_date, radius_abinary, radius_ifid, add_item,
      add_string, item_length, tvb_value_bytes, tvb_get_ntoh64, tvb_get_ntohl;
    auto 20 with defined.
Qed.

Lemma defined_avp_tail (authenticator : list byte) (a : radius_attr_info_t)
    (tvb : tvbuff_t) (avp_length : Z) :
  has_decoder a = true -> defined (avp_tail authenticator a tvb avp_length).
Proof.
  intros Hdec. unfold avp_tail, extract_tag, decode_value.
  destruct (dissector a) as [d|] eqn:Hd.
  - auto 20 with defined.
  - assert (type a <> None) as Hty.
    { destruct (has_decoder_cases a Hdec); congruence. }
    pose proof (defined_call_type authenticator a tvb) as Hcall.
    auto 20 with defined.
Qed.

Lemma write_buffer_Raise (buffer : list byte) (pos : Z) (data : list byte) (e : exn) :
  write_buffer buffer pos data = Raise e -> e = BufferOverrun.
Proof.
  unfold write_buffer.
  destruct ((0 <=? pos) && (pos + Z.of_nat (length data) <=? Z.of_nat (length buffer)));
    congruence.
Qed.

Lemma defined_continue {A} : defined (@continue_ A).
Proof. intros w f w' [= <- <-]. discriminate. Qed.

Lemma defined_return {A} : defined (@return_ A).
Proof. intros w f w' [= <- <-]. discriminate. Qed.

#[local] Hint Resolve defined_continue defined_return : defined.
#[local] Hint Extern 1 (defined (lift (write_buffer _ _ _))) =>
  (apply defined_lift; let e := fresh "e" in let H := fresh "H" in
   intros e H; apply write_buffer_Raise in H; rewrite H; discriminate) : defined.

Lemma defined_eap_message (tvb : tvbuff_t) (avp_length : Z) :
  defined (eap_message tvb avp_length).
Proof.
  unfold eap_message. auto 30 with defined.
Qed.

Lemma has_decoder_default (o : option radius_attr_info_t) :
  (forall a, o = Some a -> has_decoder a = true) ->
  has_decoder (default no_dictionary_entry o) = true.
Proof.
  intros H. destruct o as [a|]; simpl; [apply H; reflexivity|reflexivity].
Qed.

(** The descriptor a branch hands to the tail is one of the dictionary or
    Unknown-Attribute. *)
Lemma avp_branch_decoder (tvb : tvbuff_t) (avp_type avp_length : Z) (w : walker)
    (a : radius_attr_info_t) (len : Z) (w' : walker) :
  dict_decodes dict ->
  avp_branch tvb avp_type avp_length w = (Val (a, len), w') ->
  has_decoder a = true.
Proof.
  intros [Hattrs Hvendors]. unfold avp_branch.
  destruct (avp_type =? RADIUS_VENDOR_SPECIFIC_CODE).
  - unfold vendor_specific. run.
    destruct (tvb_get_ntohl tvb (w_offset w + 2)) as [vendor_id|]; [|discriminate].
    destruct (tvb_get_guint8 tvb (w_offset w + 6)) as [sub|]; [|discriminate].
    destruct (tvb_get_guint8 tvb (w_offset w + 7)) as [sublen|]; [|discriminate].
    destruct (vendors_by_id dict !! vendor_id) as [vendor|] eqn:Hvendor; simpl;
      intros [= <- _ _]; [|reflexivity].
    apply has_decoder_default. intros a Ha.
    exact (Hvendors _ _ Hvendor _ _ Ha).
  - destruct (avp_type =? RADIUS_EAP_MESSAGE_CODE).
    + intros H. destruct (eap_message_frame _ _ _ _ _ H) as (_ & _ & Hn & _).
      destruct (Hn _ eq_refl).
    + unfold plain_attribute. run. intros [= <- _ _].
      apply has_decoder_default. intros a Ha. exact (Hattrs _ _ Ha).
Qed.

Lemma defined_avp_branch (tvb : tvbuff_t) (avp_type avp_length : Z) :
  defined (avp_branch tvb avp_type avp_length).
Proof.
  pose proof (defined_eap_message tvb avp_length).
  unfold avp_branch, vendor_specific, plain_attribute, tvb_get_ntohl.
  auto 30 with defined.
Qed.

Lemma defined_avp_body (authenticator : list byte) (tvb : tvbuff_t) :
  dict_decodes dict -> defined (avp_body authenticator tvb).
Proof.
  intros Hdict. unfold avp_body.
  apply defined_bind; [auto with defined|intros offset].
  apply defined_bind; [auto with defined|intros avp_type].
  apply defined_bind; [auto with defined|intros avp_length].
  destruct (avp_length <? 3); [auto with defined|].
  apply defined_bind; [auto with defined|intros _].
  apply defined_bind; [auto with defined|intros _].
  apply defined_bind; [auto with defined|intros _].
  apply (defined_bind_val (fun p => has_decoder (fst p) = true)).
  - apply defined_avp_branch.
  - intros w [a len] w' H. exact (avp_branch_decoder _ _ _ _ _ _ _ Hdict H).
  - intros [a len] Ha. apply defined_avp_tail, Ha.
Qed.

(** With a dictionary whose descriptors all have a decoder and an
    [eap_buffer] of its size, the loop ends in no exception but that of a
    read outside the buffer. *)
Lemma do_while_raises_bounds (authenticator : list byte) (tvb : tvbuff_t)
    (fuel : nat) :
  tvb_length tvb < 2 ^ 31 ->
  dict_decodes dict ->
  forall w e wf, eap_inv w ->
    do_while fuel authenticator tvb w = Some (Thrown e, wf) -> e = BoundsError.
Proof.
  intros Htvb Hdict. induction fuel as [|fuel IH]; intros w e wf Hinv; [discriminate|].
  simpl. destruct (avp_body authenticator tvb w) as [f w'] eqn:Hbody.
  destruct (avp_body_eap_inv _ _ _ _ _ Htvb Hinv Hbody) as [Hinv' Hn].
  pose proof (defined_avp_body authenticator tvb Hdict _ _ _ Hbody) as Hd.
  destruct f as [[]| | |x].
  - destruct (w_length w' >? 0); [apply IH; assumption|discriminate].
  - destruct (w_length w' >? 0); [apply IH; assumption|discriminate].
  - discriminate.
  - intros [= <- <-]. destruct x; [reflexivity|destruct Hd|destruct Hn]; reflexivity.
Qed.

(** ** The packet decoder *)

Lemma header_octets (tvb : tvbuff_t) :
  4 <= tvb_length tvb ->
  tvb_memcpy tvb 0 4 = Ok (take 4 tvb)
  /\ byte_at (take 4 tvb) 0 = packet_code tvb
  /\ byte_at (take 4 tvb) 1 = packet_identifier tvb
  /\ ntoh (drop 2 (take 4 tvb)) = packet_length tvb
  /\ 0 <= packet_length tvb <= 65535.
Proof.
  intros Hlen. split.
  - rewrite tvb_memcpy_exists by lia. reflexivity.
  - unfold tvb_length in Hlen.
    destruct tvb as [|b0 [|b1 [|b2 [|b3 rest]]]]; simpl in Hlen; try lia.
    unfold packet_code, packet_identifier, packet_length, byte_at, ntoh. simpl.
    pose proof (u8_range b2). pose proof (u8_range b3). repeat split; lia.
Qed.

Lemma short_capture (tvb : tvbuff_t) :
  tvb_length tvb < 4 -> tvb_memcpy tvb 0 4 = Raise BoundsError.
Proof.
  intros Hlen. unfold tvb_memcpy, tvb_bytes_exist.
  replace (0 + 4 <=? tvb_length tvb) with false by lia.
  rewrite andb_false_r. reflexivity.
Qed.

Lemma tvb_get_ptr_short (tvb : tvbuff_t) (offset len : Z) :
  0 <= len -> tvb_length tvb < offset + len ->
  tvb_get_ptr tvb offset len = Raise BoundsError.
Proof.
  intros Hlen Hshort. unfold tvb_get_ptr, tvb_bytes_exist.
  replace (len =? -1) with false by lia.
  replace (offset + len <=? tvb_length tvb) with false by lia.
  rewrite andb_false_r. reflexivity.
Qed.

Lemma completes_ends (authenticator : list byte) (tvb : tvbuff_t)
    (w : walker) (offsets : list Z) (w' : walker) :
  tvb_length tvb < 2 ^ 31 ->
  completes authenticator tvb w offsets w' ->
  w_offset w' <= tvb_length tvb /\ w_length w' <= 0.
Proof.
  intros Htvb.
  induction 1 as [w f w1 Hbody Hf Hlen|w f w1 offsets w2 Hbody Hf Hlen Hrest IH];
    [|exact IH].
  destruct (avp_body_continues _ _ _ _ _ Htvb Hbody Hf)
    as (t & l & _ & _ & _ & _ & Hend & _ & Hoff & _).
  split; lia.
Qed.

(** The walk of a region that reaches past the end of the capture does not
    run to the end of its loop. *)
Lemma truncated_region_stops (authenticator buffer : list byte) (tvb : tvbuff_t)
    (offset length : Z) (fuel : nat) (e : ending) (w : walker) :
  tvb_length tvb < 2 ^ 31 ->
  0 < length < 2 ^ 31 ->
  tvb_length tvb < offset + length ->
  dissect_attribute_value_pairs fuel authenticator buffer tvb offset length
  = Some (e, w) ->
  e <> Completed.
Proof.
  intros Htvb Hlen Hshort. unfold dissect_attribute_value_pairs.
  replace (length =? 0) with false by lia.
  destruct (do_while fuel authenticator tvb (walker_init buffer offset length))
    as [[e0 w0]|] eqn:Hloop; [|discriminate].
  destruct e0; intros [= <- <-]; try discriminate.
  destruct (do_while_completes _ _ _ _ _ Hloop) as [offsets Hc].
  destruct (completes_in_step _ _ _ _ _ Htvb Hc) as [_ Hsum]; [simpl; lia|].
  destruct (completes_ends _ _ _ _ _ Htvb Hc) as [Hoff Hzero].
  simpl in Hsum. lia.
Qed.

Lemma walker_enough (authenticator buffer : list byte) (tvb : tvbuff_t)
    (offset length : Z) :
  0 < length < 2 ^ 31 ->
  exists r, forall fuel, (Z.to_nat length <= fuel)%nat ->
    dissect_attribute_value_pairs fuel authenticator buffer tvb offset length = Some r.
Proof.
  intros Hlen.
  destruct (do_while_enough authenticator tvb (Z.to_nat length)
              (walker_init buffer offset length)) as [r Hr]; [simpl; lia..|].
  exists (match r with (Completed, w') => (Completed, call_eap w') | _ => r end).
  intros fuel Hfuel. unfold dissect_attribute_value_pairs.
  replace (length =? 0) with false by lia.
  rewrite (Hr fuel Hfuel). destruct r as [[| |e] w']; reflexivity.
Qed.

(** The pass that builds the tree, once the four header octets are there
    and the length field says 20 or more. *)
Lemma dissect_radius_tree (fuel : nat) (authenticator buffer : list byte)
    (tvb : tvbuff_t) :
  4 <= tvb_length tvb -> 20 <= packet_length tvb ->
  dissect_radius true fuel authenticator buffer tvb
  = match tvb_get_ptr tvb 4 16 with
    | Raise e =>
        Some {| d_col_info := info_column tvb;
                d_tree := header_items tvb
                          ++ [proto_tree_add_uint (hf_radius_length ids) 2 2
                                (packet_length tvb)];
                d_authenticator := authenticator; d_eap_buffer := buffer;
                d_ending := Thrown e |}
    | Ok _ =>
        if packet_length tvb =? 20 then
          Some {| d_col_info := info_column tvb;
                  d_tree := header_items tvb ++ length_items tvb;
                  d_authenticator := take 16 tvb;
                  d_eap_buffer := buffer; d_ending := Completed |}
        else
          match dissect_attribute_value_pairs fuel (take 16 tvb) buffer tvb 20
                  (packet_length tvb - 20) with
          | None => None
          | Some (e, w) =>
              Some {| d_col_info := info_column tvb;
                      d_tree :=
                        header_items tvb ++ length_items tvb
                        ++ [proto_tree_add_text 20 (packet_length tvb - 20) AvpsText]
                        ++ w_tree w;
                      d_authenticator := take 16 tvb;
                      d_eap_buffer := eap_buffer w;
                      d_ending := e |}
          end
    end.
Proof.
  intros H4 H20. unfold dissect_radius.
  destruct (header_octets tvb H4) as (-> & -> & -> & -> & Hrange).
  unfold RD_HDR_LENGTH, AUTHENTICATOR_LENGTH.
  rewrite to_gint_small by lia.
  replace (packet_length tvb - (4 + 16) >=? 0) with true by lia.
  destruct (tvb_get_ptr tvb 4 16) as [pd|e] eqn:Hpd; [|reflexivity].
  assert (20 <= tvb_length tvb) as Hcap.
  { destruct (Z_le_dec 20 (tvb_length tvb)) as [H|H]; [exact H|].
    rewrite tvb_get_ptr_short in Hpd by lia. discriminate. }
  rewrite tvb_memcpy_exists by lia.
  change (Z.to_nat 16) with 16%nat. change (drop (Z.to_nat 0) tvb) with tvb.
  destruct (packet_length tvb =? 20) eqn:Hhdr.
  - replace (packet_length tvb - (4 + 16) >? 0) with false by lia. reflexivity.
  - replace (packet_length tvb - (4 + 16) >? 0) with true by lia.
    replace (packet_length tvb - (4 + 16)) with (packet_length tvb - 20) by lia.
    change (4 + 16) with 20.
    destruct (dissect_attribute_value_pairs fuel (take 16 tvb) buffer tvb 20
                (packet_length tvb - 20)) as [[e w]|]; [|reflexivity].
    unfold header_items, length_items, AUTHENTICATOR_LENGTH.
    rewrite <- !app_assoc. reflexivity.
Qed.

(** The pass without a tree writes the Info column and does nothing
    else. *)
Lemma dissect_radius_no_tree (fuel : nat) (authenticator buffer : list byte)
    (tvb : tvbuff_t) :
  4 <= tvb_length tvb ->
  dissect_radius false fuel authenticator buffer tvb
  = Some {| d_col_info := info_column tvb; d_tree := [];
            d_authenticator := authenticator; d_eap_buffer := buffer;
            d_ending := Completed |}.
Proof.
  intros H4. unfold dissect_radius.
  destruct (header_octets tvb H4) as (-> & -> & -> & -> & Hrange). reflexivity.
Qed.

(** X1. A capture that is cut short.  With fewer than four octets the header
    cannot be copied out: the dissection ends in [BoundsError] with the
    Info column cleared and nothing shown, tree or no tree.  With four to
    nineteen octets and a length field of 20 or more, the pass that builds
    the tree shows the items for the protocol, the code, the identifier and
    the length and ends in [BoundsError] at the item for the authenticator;
    the stored authenticator is as it was.  With twenty octets or more, but
    fewer than the length field says, the first sixteen octets are stored
    as the authenticator, the header items and the item for the attribute
    region are shown, and the walker is run on a region that reaches past
    the end of the capture: it does not run to the end of its loop, but
    ends in a return or in an exception. *)
Theorem truncated_packet (authenticator buffer : list byte) (tvb : tvbuff_t) :
  (tvb_length tvb < 4 ->
   forall tree fuel,
     dissect_radius tree fuel authenticator buffer tvb
     = Some {| d_col_info := ""; d_tree := []; d_authenticator := authenticator;
               d_eap_buffer := buffer; d_ending := Thrown BoundsError |})
  /\ (4 <= tvb_length tvb < 20 -> 20 <= packet_length tvb ->
      forall fuel,
        dissect_radius true fuel authenticator buffer tvb
        = Some {| d_col_info := info_column tvb;
                  d_tree := header_items tvb
                            ++ [proto_tree_add_uint (hf_radius_length ids) 2 2
                                  (packet_length tvb)];
                  d_authenticator := authenticator;
                  d_eap_buffer := buffer; d_ending := Thrown BoundsError |})
  /\ (20 <= tvb_length tvb < packet_length tvb ->
      exists r,
        (forall fuel, (Z.to_nat 65515 <= fuel)%nat ->
           dissect_radius true fuel authenticator buffer tvb = Some r)
        /\ d_col_info r = info_column tvb
        /\ d_authenticator r = take 16 tvb
        /\ d_ending r <> Completed
        /\ (header_items tvb ++ length_items tvb
            ++ [proto_tree_add_text 20 (packet_length tvb - 20) AvpsText])
           `prefix_of` d_tree r).
Proof.
  split; [|split].
  - intros Hshort tree fuel. unfold dissect_radius.
    rewrite short_capture by assumption. reflexivity.
  - intros Hcap H20 fuel. rewrite dissect_radius_tree by lia.
    rewrite tvb_get_ptr_short by lia. reflexivity.
  - intros Hcap.
    destruct (header_octets tvb ltac:(lia)) as (_ & _ & _ & _ & Hrange).
    destruct (walker_enough (take 16 tvb) buffer tvb 20 (packet_length tvb - 20))
      as [[e w] Hr]; [lia|].
    eexists. split; [|split; [|split; [|split]]].
    + intros fuel Hfuel. rewrite dissect_radius_tree by lia.
      rewrite tvb_get_ptr_exists by lia.
      replace (packet_length tvb =? 20) with false by lia.
      rewrite Hr by lia. reflexivity.
    + reflexivity.
    + reflexivity.
    + simpl.
      apply (truncated_region_stops (take 16 tvb) buffer tvb 20
               (packet_length tvb - 20) (Z.to_nat 65515) e w); try lia.
      apply Hr. lia.
    + cbn [d_tree]. rewrite !app_assoc. apply prefix_app_r. reflexivity.
Qed.

(** X2. A length field below 20 is reported as a bogus header length and the
    dissection returns: the tree holds the items for the protocol, the code
    and the identifier and then the report, whether or not the capture
    holds as many octets as the length field says; the attribute walker is
    not run, and the authenticator and [eap_buffer] are as they were.
    Without a tree nothing is shown and nothing is reported. *)
Theorem bogus_header_length (tree : bool) (fuel : nat)
    (authenticator buffer : list byte) (tvb : tvbuff_t) :
  4 <= tvb_length tvb ->
  packet_length tvb < 20 ->
  dissect_radius tree fuel authenticator buffer tvb
  = Some {| d_col_info := info_column tvb;
            d_tree :=
              if tree
              then header_items tvb
                   ++ [proto_tree_add_text 2 2 (BogusLengthText (packet_length tvb))]
              else [];
            d_authenticator := authenticator;
            d_eap_buffer := buffer;
            d_ending := if tree then Returned else Completed |}.
Proof.
  intros H4 Hbogus. destruct tree; [|apply dissect_radius_no_tree, H4].
  unfold dissect_radius.
  destruct (header_octets tvb H4) as (-> & -> & -> & -> & Hrange).
  unfold RD_HDR_LENGTH, AUTHENTICATOR_LENGTH.
  rewrite to_gint_small by lia.
  replace (packet_length tvb - (4 + 16) >=? 0) with false by lia.
  reflexivity.
Qed.

(** X3. A packet that is its header alone (length field 20) gets, on the pass
    that builds the tree, the five header items and nothing else: the
    attribute walker is not run, so the text for an empty attribute region
    is never shown for it, and the first sixteen octets of the packet are
    stored as the authenticator.  On the pass without a tree nothing is
    shown and the stored authenticator is as it was. *)
Theorem header_only_packet (tree : bool) (fuel : nat)
    (authenticator buffer : list byte) (tvb : tvbuff_t) :
  packet_length tvb = 20 ->
  20 <= tvb_length tvb ->
  dissect_radius tree fuel authenticator buffer tvb
  = Some {| d_col_info := info_column tvb;
            d_tree := if tree then header_items tvb ++ length_items tvb else [];
            d_authenticator := if tree then take 16 tvb else authenticator;
            d_eap_buffer := buffer; d_ending := Completed |}.
Proof.
  intros H20 Hcap. destruct tree; [|apply dissect_radius_no_tree; lia].
  rewrite dissect_radius_tree by lia.
  rewrite tvb_get_ptr_exists by lia.
  replace (packet_length tvb =? 20) with true by lia. reflexivity.
Qed.

(** X4. On a packet longer than its header of which the capture holds at least
    the header, the pass that builds the tree is the five header items, the
    item for the attribute region and then the walk of the region behind
    the twenty header octets, for the length the length field leaves.  The
    key the walk decrypts with is the first sixteen octets of the packet,
    the code, identifier and length octets among them, not the sixteen
    octets of the authenticator field; it is what the dissection leaves as
    the authenticator.  On the pass without a tree the walker is not run
    and the stored authenticator is as it was. *)
Theorem dissect_radius_walks (tree : bool) (fuel : nat)
    (authenticator buffer : list byte) (tvb : tvbuff_t) :
  20 < packet_length tvb ->
  20 <= tvb_length tvb ->
  dissect_radius tree fuel authenticator buffer tvb
  = if tree then
      match dissect_attribute_value_pairs fuel (take 16 tvb) buffer tvb 20
              (packet_length tvb - 20) with
      | None => None
      | Some (e, w) =>
          Some {| d_col_info := info_column tvb;
                  d_tree :=
                    header_items tvb ++ length_items tvb
                    ++ [proto_tree_add_text 20 (packet_length tvb - 20) AvpsText]
                    ++ w_tree w;
                  d_authenticator := take 16 tvb;
                  d_eap_buffer := eap_buffer w;
                  d_ending := e |}
      end
    else
      Some {| d_col_info := info_column tvb; d_tree := [];
              d_authenticator := authenticator; d_eap_buffer := buffer;
              d_ending := Completed |}.
Proof.
  intros H20 Hcap. destruct tree; [|apply dissect_radius_no_tree; lia].
  rewrite dissect_radius_tree by lia.
  rewrite tvb_get_ptr_exists by lia.
  replace (packet_length tvb =? 20) with false by lia. reflexivity.
Qed.

(** X5. The dissection of a packet always comes to an end, tree or no tree,
    and a bound of 65515 passes of the walker's loop is enough for every
    capture: the length field has two octets, so no attribute region is
    longer than that. *)
Theorem dissect_radius_terminates (tree : bool) (authenticator buffer : list byte)
    (tvb : tvbuff_t) :
  exists r, forall fuel, (Z.to_nat 65515 <= fuel)%nat ->
    dissect_radius tree fuel authenticator buffer tvb = Some r.
Proof.
  destruct (Z_lt_dec (tvb_length tvb) 4) as [H4|H4].
  { unfold dissect_radius. rewrite short_capture by assumption.
    eexists. intros fuel _. reflexivity. }
  destruct tree.
  2:{ eexists. intros fuel _. apply dissect_radius_no_tree. lia. }
  destruct (header_octets tvb ltac:(lia)) as (_ & _ & _ & _ & Hrange).
  destruct (Z_lt_dec (packet_length tvb) 20) as [Hbogus|Hlong].
  { unfold dissect_radius.
    destruct (header_octets tvb ltac:(lia)) as (-> & -> & -> & -> & _).
    unfold RD_HDR_LENGTH, AUTHENTICATOR_LENGTH.
    rewrite to_gint_small by lia.
    replace (packet_length tvb - (4 + 16) >=? 0) with false by lia.
    eexists. intros fuel _. reflexivity. }
  destruct (tvb_get_ptr tvb 4 16) as [pd|e] eqn:Hpd.
  2:{ eexists. intros fuel _. rewrite dissect_radius_tree by lia.
      rewrite Hpd. reflexivity. }
  destruct (packet_length tvb =? 20) eqn:Hhdr.
  { eexists. intros fuel _. rewrite dissect_radius_tree by lia.
    rewrite Hpd, Hhdr. reflexivity. }
  destruct (walker_enough (take 16 tvb) buffer tvb 20 (packet_length tvb - 20))
    as [[e w] Hr]; [lia|].
  eexists. intros fuel Hfuel. rewrite dissect_radius_tree by lia.
  rewrite Hpd, Hhdr, Hr by lia. reflexivity.
Qed.

Lemma call_eap_buffer (w : walker) : eap_buffer (call_eap w) = eap_buffer w.
Proof. unfold call_eap. destruct (eap_tree w), (eap_tvb w); reflexivity. Qed.

Lemma dict_typed_decodes : dict_typed dict -> dict_decodes dict.
Proof.
  intros [Hattrs Hvendors]. split.
  - intros c a Ha. destruct (Hattrs c a Ha) as [Hd Hty].
    unfold has_decoder. rewrite Hd. destruct (type a); [reflexivity|congruence].
  - intros v vendor Hv c a Ha. destruct (Hvendors v vendor Hv c a Ha) as [Hd Hty].
    unfold has_decoder. rewrite Hd. destruct (type a); [reflexivity|congruence].
Qed.


(** ** The value decoders *)

(** X7. A value of a length its type does not take is not an error and is not
    read: the decoder appends its note to the item and returns, wherever
    the value is said to lie, in the buffer or not. *)
Theorem wrong_length_is_noted (authenticator : list byte) (a : radius_attr_info_t)
    (ty : radius_attr_dissector_t) (note : text) (tvb : tvbuff_t)
    (offset len : Z) (w : walker) :
  type a = Some ty ->
  wrong_length ty len = Some note ->
  call_type authenticator a tvb offset len w
  = (Val tt, set_tree (w_tree w ++ [proto_item_append_text note]) w).
Proof.
  intros Hty. unfold call_type, wrong_length. rewrite Hty.
  destruct ty; try discriminate.
  - unfold radius_integer.
    destruct (len =? 8) eqn:H8; [rewrite orb_true_r; discriminate|].
    rewrite orb_false_r.
    destruct ((len =? 2) || (len =? 3) || (len =? 4)); [discriminate|].
    intros [= <-]. reflexivity.
  - unfold radius_ipaddr. destruct (len =? 4); [discriminate|].
    intros [= <-]. reflexivity.
  - unfold radius_ipv6addr. destruct (len =? 16); [discriminate|].
    intros [= <-]. reflexivity.
  - unfold radius_date. destruct (len =? 4); [discriminate|].
    intros [= <-]. reflexivity.
Qed.

Lemma ntoh_acc_bound (bs : list byte) :
  forall acc, 0 <= acc ->
    0 <= foldl (fun acc b => acc * 256 + u8 b) acc bs
    < (acc + 1) * 256 ^ Z.of_nat (length bs).
Proof.
  induction bs as [|b bs IH]; intros acc Hacc; simpl foldl.
  - simpl. lia.
  - pose proof (u8_range b) as Hb.
    specialize (IH (acc * 256 + u8 b) ltac:(lia)).
    replace (Z.of_nat (length (b :: bs))) with (1 + Z.of_nat (length bs))
      by (simpl; lia).
    rewrite Z.pow_add_r by lia.
    assert (0 < 256 ^ Z.of_nat (length bs)) by (apply Z.pow_pos_nonneg; lia).
    nia.
Qed.

(** X8. An integer value of 2, 3, 4 or 8 octets that lies in the buffer is
    shown as the big-endian number of its octets, with the label of the
    attribute's value table when it has one.  The number is below 256 to
    the number of octets, so it is held whole in the 32 bits (64 for eight
    octets) the decoder has for it. *)
Theorem radius_integer_value (a : radius_attr_info_t) (tvb : tvbuff_t)
    (offset len : Z) (w : walker) :
  0 <= offset -> offset + len <= tvb_length tvb ->
  len = 2 \/ len = 3 \/ len = 4 \/ len = 8 ->
  let v := ntoh (take (Z.to_nat len) (drop (Z.to_nat offset) tvb)) in
  0 <= v < 256 ^ len
  /\ radius_integer a tvb offset len w
     = (Val tt,
        set_tree
          (w_tree w
           ++ (if len =? 8
               then [proto_tree_add_uint64 (hf64 a) offset len v;
                     proto_item_append_text (Uint64Text v)]
               else [proto_tree_add_uint (hf a) offset len v;
                     proto_item_append_text
                       match vs a with
                       | Some table => EnumText (val_to_str v table "Unknown") v
                       | None => UintText v
                       end]))
          w).
Proof.
  intros Ho Hend Hlen v. split.
  - pose proof (ntoh_acc_bound (take (Z.to_nat len) (drop (Z.to_nat offset) tvb)) 0
                  ltac:(lia)) as Hb.
    rewrite length_take, length_drop in Hb. unfold tvb_length in Hend.
    replace (Z.of_nat (Z.to_nat len `min` (length tvb - Z.to_nat offset))) with len
      in Hb by lia.
    unfold v, ntoh. lia.
  - unfold radius_integer, tvb_get_ntoh64, tvb_get_ntoh. subst v.
    destruct (len =? 8) eqn:H8; run.
    + assert (len = 8) as -> by lia.
      rewrite tvb_memcpy_exists by lia. simpl. walker_eq.
    + replace ((len =? 2) || (len =? 3) || (len =? 4)) with true
        by (destruct Hlen as [-> | [-> | [-> | ->]]]; reflexivity || discriminate).
      rewrite tvb_memcpy_exists by lia. simpl.
      destruct (vs a); simpl; walker_eq.
Qed.

(** X9. The text [radius_decrypt_avp] builds has the two quotes and, for each
    octet of the value, one character or four.  For a value of up to 255
    octets, and so for every value an attribute can hold, it stays, with
    its terminator, within the 1024 characters [radius_string] has for
    it. *)
Theorem decrypted_text_fits (authenticator : list byte) (tvb : tvbuff_t)
    (offset len : Z) (buffer : string) :
  0 <= len <= 255 ->
  radius_decrypt_avp authenticator tvb offset len = Ok buffer ->
  len + 2 <= Z.of_nat (String.length buffer) <= 4 * len + 2
  /\ Z.of_nat (String.length buffer) + 1 <= 1024.
Proof.
  intros Hlen Hbuffer.
  pose proof (radius_decrypt_avp_length _ _ _ _ _ (proj1 Hlen) Hbuffer). lia.
Qed.

(** ** More on the walker *)

(** X10. Whatever the type of a descriptor, its decoder returns normally on a
    value of up to 255 octets that lies in the buffer, whatever the octets,
    and leaves the offset, the remaining length and the EAP variables of
    the walk as they were: it only adds to the tree.  No value of an
    attribute is longer than that; the bound is what keeps the text of an
    encrypted string within the [buffer] of [radius_string]. *)
Theorem type_decoders_return (authenticator : list byte) (a : radius_attr_info_t)
    (tvb : tvbuff_t) (offset len : Z) (w : walker) :
  type a <> None ->
  0 <= offset -> 0 <= len <= 255 -> offset + len <= tvb_length tvb ->
  exists w',
    call_type authenticator a tvb offset len w = (Val tt, w') /\ quiet w w'.
Proof.
  intros Hty Ho Hlen Hend.
  destruct (call_type_runs authenticator a tvb offset len w Hty Ho Hlen Hend)
    as [w' Hw'].
  exists w'. split; [exact Hw'|].
  exact (proj1 (quietly_call_type authenticator a tvb offset len (proj2 Hlen) _ _ _ Hw')).
Qed.

Lemma completes_remainder (authenticator : list byte) (tvb : tvbuff_t)
    (w : walker) (offsets : list Z) (w' : walker) :
  tvb_length tvb < 2 ^ 31 ->
  completes authenticator tvb w offsets w' ->
  0 < w_length w < 2 ^ 31 ->
  -255 < w_length w' <= 0.
Proof.
  intros Htvb.
  induction 1 as [w f w1 Hbody Hf Hlen|w f w1 offsets w2 Hbody Hf Hlen Hrest IH];
    intros Hpos;
    destruct (avp_body_continues _ _ _ _ _ Htvb Hbody Hf)
      as (t & l & _ & _ & Hl3 & _ & _ & Hcount & _);
    rewrite to_gint_small in Hcount by lia.
  - lia.
  - apply IH. lia.
Qed.

(** X11. A walk that runs to the end of its loop has passed attributes that lie
    one behind the other from the start of the region, each as long as its
    header declares, and has moved the offset by exactly what it took off
    the length.  What is left of the length is 0 or negative: the last
    attribute may declare more than was left, by up to 254 octets, and the
    walk then ends that far behind the end of the region. *)
Theorem completed_walk_accounts (fuel : nat) (authenticator buffer : list byte)
    (tvb : tvbuff_t) (offset length : Z) (w : walker) :
  tvb_length tvb < 2 ^ 31 ->
  0 < length < 2 ^ 31 ->
  dissect_attribute_value_pairs fuel authenticator buffer tvb offset length
  = Some (Completed, w) ->
  w_offset w = offset + length - w_length w
  /\ -255 < w_length w <= 0
  /\ exists offsets, in_step tvb offsets offset (w_offset w).
Proof.
  intros Htvb Hlen. unfold dissect_attribute_value_pairs.
  replace (length =? 0) with false by lia.
  destruct (do_while fuel authenticator tvb (walker_init buffer offset length))
    as [[e w0]|] eqn:Hloop; [|discriminate].
  destruct e; intros [= <-].
  destruct (call_eap_offset w0) as [-> ->].
  destruct (do_while_completes _ _ _ _ _ Hloop) as [offsets Hc].
  destruct (completes_in_step _ _ _ _ _ Htvb Hc) as [Hstep Hsum]; [simpl; lia|].
  pose proof (completes_remainder _ _ _ _ _ Htvb Hc) as Hrem.
  simpl in Hsum, Hrem, Hstep.
  split; [lia|]. split; [apply Hrem; lia|]. exists offsets. exact Hstep.
Qed.

(** X12. An attribute whose declared length reaches past the end of the capture
    ends the walk in [BoundsError] as soon as its header is read: its
    length has been taken off the remaining length, but nothing is shown
    for it and no octet of its value is looked at. *)
Theorem truncated_attribute (authenticator : list byte) (tvb : tvbuff_t)
    (w : walker) (t l : Z) :
  tvb_length tvb < 2 ^ 31 ->
  tvb_get_guint8 tvb (w_offset w) = Ok t ->
  tvb_get_guint8 tvb (w_offset w + 1) = Ok l ->
  3 <= l ->
  tvb_length tvb < w_offset w + l ->
  avp_body authenticator tvb w
  = (Throw BoundsError, set_length (to_gint (w_length w - l)) w).
Proof.
  intros Htvb Ht Hl Hl3 Hshort.
  pose proof (tvb_get_guint8_Ok _ _ _ Ht) as [_ Ho].
  pose proof (tvb_get_guint8_Ok _ _ _ Hl) as [Hl255 _].
  apply (avp_body_truncated authenticator tvb w t l BoundsError Ht Hl Hl3).
  destruct (ensure_Raise_or_Ok tvb (to_gint (w_offset w + l - 1))) as [Hok|Hr];
    [|exact Hr].
  apply ensure_last_octet in Hok; [lia|assumption|lia|lia].
Qed.


End Radius.

(** ** The registry *)

Lemma register_in_lookup (fresh : radius_attr_info_t) (attribute_id : Z)
    (d : radius_avp_dissector_t) (by_id : gmap Z radius_attr_info_t) :
  register_in fresh attribute_id d by_id !! attribute_id
  = Some (set_dissector d
            (default (new_dictionary_entry fresh attribute_id) (by_id !! attribute_id))).
Proof.
  unfold register_in. destruct (by_id !! attribute_id) as [old|]; simpl;
    apply lookup_insert_eq.
Qed.

Lemma register_in_other (fresh : radius_attr_info_t) (attribute_id : Z)
    (d : radius_avp_dissector_t) (by_id : gmap Z radius_attr_info_t) (c : Z) :
  c <> attribute_id ->
  register_in fresh attribute_id d by_id !! c = by_id !! c.
Proof.
  intros Hc. unfold register_in. destruct (by_id !! attribute_id) as [old|]; simpl;
    apply lookup_insert_ne; congruence.
Qed.

Lemma register_in_twice (fresh fresh' : radius_attr_info_t) (attribute_id : Z)
    (d d' : radius_avp_dissector_t) (by_id : gmap Z radius_attr_info_t) :
  register_in fresh' attribute_id d' (register_in fresh attribute_id d by_id)
  = register_in fresh attribute_id d' by_id.
Proof.
  unfold register_in at 1. rewrite register_in_lookup.
  unfold register_in. destruct (by_id !! attribute_id) as [old|]; simpl;
    rewrite insert_insert_eq; reflexivity.
Qed.

(** C10. Registration with vendor number 0 puts the dissector on the entry
    of the top-level table for the attribute code and touches no vendor:
    the vendor tables and the other entries are as before.  If the table
    had no entry for the code, the entry is a new descriptor named
    Unknown-Attribute-<code>, with that code, not encrypted and without a
    value decoder of its own.  Registering again for the same code changes
    nothing but the dissector of the entry, so that the last registration
    is the one in force: two registrations leave the dictionary as the
    second alone would. *)
Theorem register_top_level (fresh : radius_attr_info_t) (attribute_id : Z)
    (d : radius_avp_dissector_t) (dict : radius_dictionary_t) :
  let dict' := radius_register_avp_dissector fresh 0 attribute_id d dict in
  vendors_by_id dict' = vendors_by_id dict
  /\ vendors_by_name dict' = vendors_by_name dict
  /\ (forall c, c <> attribute_id -> attrs_by_id dict' !! c = attrs_by_id dict !! c)
  /\ (exists entry,
        attrs_by_id dict' !! attribute_id = Some entry
        /\ dissector entry = Some d
        /\ match attrs_by_id dict !! attribute_id with
           | Some old => entry = set_dissector d old
           | None =>
               name entry = "Unknown-Attribute-" +:+ pretty attribute_id
               /\ code entry = attribute_id
               /\ encrypt entry = false
               /\ type entry = None
           end
        /\ forall fresh' d',
             exists entry',
               attrs_by_id (radius_register_avp_dissector fresh' 0 attribute_id d' dict')
                 !! attribute_id = Some entry'
               /\ dissector entry' = Some d'
               /\ name entry' = name entry /\ code entry' = code entry
               /\ encrypt entry' = encrypt entry /\ tagged entry' = tagged entry
               /\ type entry' = type entry /\ vs entry' = vs entry
               /\ ett entry' = ett entry /\ hf entry' = hf entry
               /\ hf64 entry' = hf64 entry /\ hf_tag entry' = hf_tag entry
               /\ hf_len entry' = hf_len entry)
  /\ (forall fresh' d',
        radius_register_avp_dissector fresh' 0 attribute_id d' dict'
        = radius_register_avp_dissector fresh 0 attribute_id d' dict).
Proof.
  unfold radius_register_avp_dissector. simpl.
  split; [reflexivity|]. split; [reflexivity|].
  split; [intros c Hc; apply register_in_other; exact Hc|].
  split.
  - eexists. split; [apply register_in_lookup|]. split; [reflexivity|].
    split.
    + destruct (attrs_by_id dict !! attribute_id); simpl; repeat split; reflexivity.
    + intros fresh' d'. eexists. split; [apply register_in_lookup|].
      rewrite register_in_lookup. simpl. repeat split; reflexivity.
  - intros fresh' d'. rewrite register_in_twice. reflexivity.
Qed.

(** ** The walker on particular packets *)

(** C1. A Vendor-Specific attribute of declared length 7 is not reported as
    malformed.  On a packet that holds one, followed by an attribute of type
    1 and length 3, the walker reads a vendor number (9) and a sub-type (1)
    out of the seven octets and the octet behind them, takes 8 from the
    length 7, which leaves 4294967295 as the length of the value, shows the
    attribute as an Unknown-Attribute of vendor 9, goes on to decode the
    next attribute, and runs to the end of its loop. *)
Theorem short_vendor_specific_is_decoded (md5 : list byte -> list byte)
    (shared_secret authenticator : list byte) :
  exists w,
    dissect_attribute_value_pairs md5 empty_dict shared_secret 10 authenticator
      zero_buffer short_vsa_packet 20 10 = Some (Completed, w)
    /\ w_tree w
       = [ proto_tree_add_text 20 7 (AvpHeader 7);
           proto_item_append_text (UnknownVendorText 9);
           proto_item_append_text (TypeText "Unknown-Attribute" 1);
           proto_tree_add_uint (-1) 0 0 4294967295;
           proto_item_append_text ColonText;
           proto_tree_add_item (-1) 28 (-1);
           proto_item_append_text (BytesText []);
           proto_tree_add_text 27 3 (AvpHeader 3);
           proto_item_append_text (TypeText "Unknown-Attribute" 1);
           proto_tree_add_uint (-1) 0 0 1;
           proto_item_append_text ColonText;
           proto_tree_add_item (-1) 29 1;
           proto_item_append_text (BytesText (octets [65])) ].
Proof.
  eexists. split; vm_compute; reflexivity.
Qed.

(** The tag of a tagged attribute is read without a look at the length of
    the value (lines 470-472).  A packet of 28 octets whose region is one
    Vendor-Specific attribute of declared length 8 (vendor 9, sub-type 1,
    sub-length 2, no value) is a sound sequence of attributes whose lengths
    add up to the length of the region.  With a dictionary in which that
    vendor attribute is tagged, the walker does not run to the end of its
    loop: after the eight header octets it reads a tag octet at offset 28,
    behind the last octet of the packet, and the read raises
    [BoundsError]; nothing is shown for the value. *)
Lemma empty_tagged_value_is_read (md5 : list byte -> list byte)
    (shared_secret authenticator : list byte) :
  tvb_length empty_vsa_packet = 28
  /\ exists w,
       dissect_attribute_value_pairs md5 tagged_dict shared_secret 8 authenticator
         zero_buffer empty_vsa_packet 20 8 = Some (Thrown BoundsError, w)
       /\ w_offset w = 28
       /\ w_tree w
          = [ proto_tree_add_text 20 8 (AvpHeader 8);
              proto_item_append_text (VendorText "Cisco" 9);
              proto_item_append_text (TypeText "Tunnel-Type" 1);
              proto_tree_add_uint 5 0 0 0 ].
Proof.
  split; [reflexivity|]. eexists. split; [|split]; vm_compute; reflexivity.
Qed.

(** ** A sound region that is not walked to its end, and one that is *)

(** Seventeen EAP-Message attributes of 253 value octets each and an
    attribute of type 1 behind them are a sound sequence of attributes that
    fills the region of 4338 octets.  The walker does not run to the end of
    its loop on it, whatever the bound: at the seventeenth attribute, at
    offset 4100, the fragments would total 4301, the walker reports that
    and returns, with the offset still there and 3 left of the length. *)
Lemma long_eap_region_not_consumed :
  tvb_length long_eap_name_packet = 4358
  /\ in_step long_eap_name_packet long_eap_name_offsets 20 (20 + 4338)
  /\ forallb (vendor_specific_fits long_eap_name_packet) long_eap_name_offsets = true
  /\ (forall fuel,
        ~ region_consumed toy_md5 empty_dict [] fuel [] zero_buffer
            long_eap_name_packet 20 4338)
  /\ exists w,
       dissect_attribute_value_pairs toy_md5 empty_dict [] 18 [] zero_buffer
         long_eap_name_packet 20 4338 = Some (Returned, w)
       /\ w_offset w = 4100 /\ w_length w = 3
       /\ last (w_tree w) = Some (proto_tree_add_text 4100 0 EapTooLong).
Proof.
  assert (H18 : exists w,
            dissect_attribute_value_pairs toy_md5 empty_dict [] 18 [] zero_buffer
              long_eap_name_packet 20 4338 = Some (Returned, w)
            /\ w_offset w = 4100 /\ w_length w = 3
            /\ last (w_tree w) = Some (proto_tree_add_text 4100 0 EapTooLong)).
  { eexists. split; [vm_compute; reflexivity|].
    split; [vm_compute; reflexivity|]. split; vm_compute; reflexivity. }
  split; [vm_compute; reflexivity|].
  split; [apply in_stepb_in_step; vm_compute; reflexivity|].
  split; [vm_compute; reflexivity|].
  split; [|exact H18].
  intros fuel (w & Hw & _). destruct H18 as (w18 & H18 & _).
  apply (dissect_attribute_value_pairs_mono _ _ _ _ _ _ _ _ _ (Nat.max fuel 18)) in Hw;
    [|lia].
  apply (dissect_attribute_value_pairs_mono _ _ _ _ _ _ _ _ _ (Nat.max fuel 18)) in H18;
    [|lia].
  rewrite Hw in H18. discriminate.
Qed.

(** Two tagged attributes, an EAP-Message and a tagged attribute of vendor
    9 are walked to the end of the region. *)
Lemma sound_region_consumed_witness :
  (exists w,
     completes toy_md5 tagged_dict [] [] mixed_packet (walker_init zero_buffer 20 31)
       [20; 26; 32; 38] w
     /\ w_offset w = 20 + 31 /\ w_length w = 0)
  /\ forall fuel, (4 <= fuel)%nat ->
       region_consumed toy_md5 tagged_dict [] fuel [] zero_buffer mixed_packet 20 31.
Proof.
  apply (sound_region_consumed toy_md5 tagged_dict [] [] zero_buffer mixed_packet
           20 31 [20; 26; 32; 38]).
  - vm_compute. reflexivity.
  - vm_compute. reflexivity.
  - lia.
  - lia.
  - vm_compute. discriminate.
  - apply in_stepb_in_step. vm_compute. reflexivity.
  - vm_compute. reflexivity.
  - vm_compute. reflexivity.
  - vm_compute. discriminate.
Defined.

(** A registered dissector for the examples. *)
Lemma decrypt_example :
  radius_decrypt_avp toy_md5 (octets [1; 2]) (octets [3; 4])
    (octets ([65; 66; 67; 68; 0; 200] ++ repeat 97 10 ++ [1; 98])) 0 18
  = Ok (String dquote ("@@@@\000\310aaaaaaaaaa\001b" +:+ String dquote "")).
Proof. vm_compute. reflexivity. Qed.

Lemma radius_decrypt_avp_correct_witness :
  0 <= 18
  /\ tvb_get_ptr (octets ([65; 66; 67; 68; 0; 200] ++ repeat 97 10 ++ [1; 98])) 0 18
     = Ok (octets ([65; 66; 67; 68; 0; 200] ++ repeat 97 10 ++ [1; 98]))
  /\ radius_decrypt_avp toy_md5 (octets [1; 2]) (octets [3; 4])
       (octets ([65; 66; 67; 68; 0; 200] ++ repeat 97 10 ++ [1; 98])) 0 18
     = Ok (decrypt_display (octets ([65; 66; 67; 68; 0; 200] ++ repeat 97 10 ++ [1; 98]))
             (toy_md5 (octets [1; 2] ++ octets [3; 4]))).
Proof.
  split; [lia|]. split; [reflexivity|].
  apply (radius_decrypt_avp_correct toy_md5); [lia|reflexivity].
Defined.

(** The packet with an attribute of length 1 behind a sound one: the sound
    one is shown, then the report, and that is all. *)
Lemma malformed_avp_example :
  exists w,
    dissect_attribute_value_pairs toy_md5 empty_dict [] 5 [] zero_buffer
      malformed_packet 20 7 = Some (Returned, w)
    /\ w_tree w
       = [ proto_tree_add_text 20 3 (AvpHeader 3);
           proto_item_append_text (TypeText "Unknown-Attribute" 1);
           proto_tree_add_uint (-1) 0 0 1;
           proto_item_append_text ColonText;
           proto_tree_add_item (-1) 22 1;
           proto_item_append_text (BytesText (octets [65]));
           proto_tree_add_text 23 0 AvpTooShort ].
Proof. eexists. split; vm_compute; reflexivity. Qed.

Lemma malformed_avp_stops_witness :
  exists w,
    7 <> 0
    /\ walks toy_md5 empty_dict [] [] malformed_packet (walker_init [] 20 7) [20] w
    /\ tvb_get_guint8 malformed_packet (w_offset w) = Ok 2
    /\ tvb_get_guint8 malformed_packet (w_offset w + 1) = Ok 1
    /\ 1 < 3
    /\ (1 < 5)%nat
    /\ dissect_attribute_value_pairs toy_md5 empty_dict [] 5 [] [] malformed_packet 20 7
       = Some (Returned,
               set_tree (w_tree w ++ [proto_tree_add_text (w_offset w) 0 AvpTooShort]) w)
    /\ eap_calls (w_tree w ++ [proto_tree_add_text (w_offset w) 0 AvpTooShort]) = [].
Proof.
  eexists. split; [lia|]. split.
  { apply (run_passes_walks toy_md5 empty_dict [] [] malformed_packet 1).
    vm_compute. reflexivity. }
  split; [reflexivity|]. split; [reflexivity|]. split; [lia|]. split; [lia|].
  apply (malformed_avp_stops toy_md5 empty_dict [] [] [] malformed_packet 20 7 [20]
           _ 2 1 5); [lia| |reflexivity|reflexivity|lia|simpl; lia].
  apply (run_passes_walks toy_md5 empty_dict [] [] malformed_packet 1).
  vm_compute. reflexivity.
Defined.

(** Three EAP-Message attributes with 10, 10 and 5 value octets and an
    attribute of another type behind them: one call of the EAP dissector,
    the last thing in the tree, on the 25 octets in the order met. *)
Lemma eap_reassembly_example :
  exists w,
    dissect_attribute_value_pairs toy_md5 empty_dict [] 10 [] zero_buffer
      eap_packet 20 34 = Some (Completed, w)
    /\ eap_calls (w_tree w) = [octets (repeat 1 10 ++ repeat 2 10 ++ repeat 3 5)]
    /\ last (w_tree w)
       = Some (call_dissector (octets (repeat 1 10 ++ repeat 2 10 ++ repeat 3 5)))
    /\ length (octets (repeat 1 10 ++ repeat 2 10 ++ repeat 3 5)) = 25%nat.
Proof.
  eexists. split; [vm_compute; reflexivity|].
  split; [vm_compute; reflexivity|]. split; [vm_compute; reflexivity|]. reflexivity.
Qed.



(** Seventeen EAP-Message attributes of 253 value octets: sixteen are
    accumulated, the seventeenth is reported and ends the walk. *)
Lemma eap_overflow_example :
  exists w,
    dissect_attribute_value_pairs toy_md5 empty_dict [] 20 [] zero_buffer
      long_eap_packet 20 4335 = Some (Returned, w)
    /\ last (w_tree w) = Some (proto_tree_add_text 4100 0 EapTooLong)
    /\ eap_tot_len w = 4048
    /\ w_offset w = 4100.
Proof.
  eexists. split; [vm_compute; reflexivity|].
  split; [vm_compute; reflexivity|]. split; vm_compute; reflexivity.
Qed.

Lemma eap_overflow_stops_witness :
  Z.of_nat (length zero_buffer) = MAX_RADIUS_PACKET_SIZE
  /\ tvb_length long_eap_packet < 2 ^ 31
  /\ 4335 <> 0
  /\ exists offsets w,
       walks toy_md5 empty_dict [] [] long_eap_packet
         (walker_init zero_buffer 20 4335) offsets w
       /\ length offsets = 16%nat
       /\ tvb_get_guint8 long_eap_packet (w_offset w) = Ok RADIUS_EAP_MESSAGE_CODE
       /\ tvb_get_guint8 long_eap_packet (w_offset w + 1) = Ok 255
       /\ MAX_RADIUS_PACKET_SIZE < eap_tot_len w + (255 - 2)
       /\ dissect_attribute_value_pairs toy_md5 empty_dict [] 20 [] zero_buffer
            long_eap_packet 20 4335
          = Some (Returned,
                  set_tree (w_tree w ++ [proto_tree_add_text (w_offset w) 255 (AvpHeader 255);
                                         proto_tree_add_text (w_offset w) 0 EapTooLong])
                    (set_length (to_gint (w_length w - 255)) w)).
Proof.
  split; [reflexivity|]. split; [vm_compute; reflexivity|]. split; [lia|].
  destruct (run_passes toy_md5 empty_dict [] 16 [] long_eap_packet
              (walker_init zero_buffer 20 4335)) as [[offsets w]|] eqn:Hrun;
    [|vm_compute in Hrun; discriminate].
  exists offsets, w.
  pose proof (run_passes_walks toy_md5 empty_dict [] [] long_eap_packet 16 _ _ _ Hrun)
    as Hwalks.
  vm_compute in Hrun. injection Hrun as <- <-.
  split; [exact Hwalks|]. split; [reflexivity|].
  split; [vm_compute; reflexivity|]. split; [vm_compute; reflexivity|].
  split; [vm_compute; reflexivity|].
  refine (proj1 (eap_overflow_stops toy_md5 empty_dict [] [] zero_buffer long_eap_packet
                   20 4335 _ _ _) _ _ 255 20%nat Hwalks _ _ _ _ _ _);
    try (vm_compute; reflexivity); try lia; try (vm_compute; lia).
  vm_compute. discriminate.
Defined.

Lemma unknown_attribute_example :
  avp_body toy_md5 empty_dict [] [] unknown_packet (walker_init [] 20 5)
  = (Val tt,
     set_offset 25
       (set_tree
          [ proto_tree_add_text 20 5 (AvpHeader 5);
            proto_item_append_text (TypeText "Unknown-Attribute" 99);
            proto_tree_add_uint (-1) 0 0 3;
            proto_item_append_text ColonText;
            proto_tree_add_item (-1) 22 3;
            proto_item_append_text (BytesText (octets [1; 2; 3])) ]
          (walker_init [] 20 0))).
Proof. vm_compute. reflexivity. Qed.

Lemma unknown_attribute_decoded_witness :
  tvb_length unknown_packet < 2 ^ 31
  /\ tvb_get_guint8 unknown_packet 20 = Ok 99
  /\ tvb_get_guint8 unknown_packet 21 = Ok 5
  /\ 3 <= 5
  /\ 20 + 5 <= tvb_length unknown_packet
  /\ dictionary_lookup empty_dict unknown_packet 20 99 = None
  /\ avp_body toy_md5 empty_dict [] [] unknown_packet (walker_init [] 20 5)
     = (Val tt,
        set_offset (20 + 5)
          (set_tree ([] ++ unknown_attribute_events empty_dict unknown_packet 20 99 5)
             (set_length (to_gint (5 - 5)) (walker_init [] 20 5)))).
Proof.
  split; [vm_compute; reflexivity|]. split; [reflexivity|]. split; [reflexivity|].
  split; [lia|]. split; [vm_compute; discriminate|]. split; [reflexivity|].
  apply (unknown_attribute_decoded toy_md5 empty_dict [] [] unknown_packet
           (walker_init [] 20 5) 99 5);
    [vm_compute; reflexivity|reflexivity|reflexivity|lia
    |unfold RADIUS_VENDOR_SPECIFIC_CODE; lia|vm_compute; discriminate
    |unfold RADIUS_EAP_MESSAGE_CODE; lia|reflexivity].
Defined.

(** The two tagged attributes of the example packet: a first value octet
    0x1F is shown as Tag 31 and the integer is read from the three octets
    behind it; a first value octet 0x20 is no tag and the integer is read
    from all four octets. *)
Lemma tag_example :
  exists w,
    dissect_attribute_value_pairs toy_md5 tagged_dict [] 10 [] zero_buffer
      tagged_packet 20 12 = Some (Completed, w)
    /\ w_tree w
       = [ proto_tree_add_text 20 6 (AvpHeader 6);
           proto_item_append_text (TypeText "Tunnel-Type" 64);
           proto_tree_add_uint 5 0 0 4;
           proto_tree_add_uint 4 22 1 31;
           proto_item_append_text (TagText 31);
           proto_item_append_text ColonText;
           proto_tree_add_uint 2 23 3 1;
           proto_item_append_text (UintText 1);
           proto_tree_add_text 26 6 (AvpHeader 6);
           proto_item_append_text (TypeText "Tunnel-Type" 64);
           proto_tree_add_uint 5 0 0 4;
           proto_item_append_text ColonText;
           proto_tree_add_uint 2 28 4 536870913;
           proto_item_append_text (UintText 536870913) ].
Proof. eexists. split; vm_compute; reflexivity. Qed.

Lemma tag_extraction_witness :
  tagged tagged_attr = true
  /\ 1 <= 4 < 2 ^ 32
  /\ tvb_get_guint8 tagged_packet 22 = Ok 31
  /\ tvb_get_guint8 tagged_packet 28 = Ok 32
  /\ avp_tail toy_md5 [] [] tagged_attr tagged_packet 4 (walker_init [] 22 6)
     = (decode_value toy_md5 [] [] tagged_attr tagged_packet (4 - 1)
          ≫= fun _ => modify (fun w => set_offset (to_gint (w_offset w + (4 - 1))) w))
         (set_offset (22 + 1)
            (set_tree (([] ++ [proto_tree_add_uint (hf_len tagged_attr) 0 0 4])
                       ++ [proto_tree_add_uint (hf_tag tagged_attr) 22 1 31;
                           proto_item_append_text (TagText 31)])
               (walker_init [] 22 6)))
  /\ avp_tail toy_md5 [] [] tagged_attr tagged_packet 4 (walker_init [] 28 0)
     = (decode_value toy_md5 [] [] tagged_attr tagged_packet 4
          ≫= fun _ => modify (fun w => set_offset (to_gint (w_offset w + 4)) w))
         (set_tree ([] ++ [proto_tree_add_uint (hf_len tagged_attr) 0 0 4])
            (walker_init [] 28 0)).
Proof.
  split; [reflexivity|]. split; [lia|]. split; [reflexivity|]. split; [reflexivity|].
  split.
  - apply (tag_extraction toy_md5 [] [] tagged_attr tagged_packet 4
             (walker_init [] 22 6) 31); [reflexivity|lia|reflexivity].
  - apply (tag_extraction toy_md5 [] [] tagged_attr tagged_packet 4
             (walker_init [] 28 0) 32); [reflexivity|lia|reflexivity].
Defined.

Lemma walker_terminates_witness :
  0 < 12 < 2 ^ 31
  /\ exists r, forall fuel, (Z.to_nat 12 <= fuel)%nat ->
       dissect_attribute_value_pairs toy_md5 tagged_dict [] fuel [] zero_buffer
         tagged_packet 20 12 = Some r.
Proof.
  split; [lia|].
  apply (walker_terminates toy_md5 tagged_dict [] [] zero_buffer tagged_packet 20 12).
  lia.
Defined.

Lemma register_top_level_witness :
  exists entry,
    attrs_by_id
      (radius_register_avp_dissector tagged_attr 0 5 (fun _ => "second"%string)
         (radius_register_avp_dissector tagged_attr 0 5 (fun _ => "first"%string)
            empty_dict)) !! 5 = Some entry
    /\ name entry = "Unknown-Attribute-5"%string
    /\ encrypt entry = false
    /\ type entry = None
    /\ (dissector entry ≫= fun d => Some (d [])) = Some "second"%string.
Proof.
  destruct (register_top_level tagged_attr 5 (fun _ => "first"%string) empty_dict)
    as (_ & _ & _ & _ & Hlast).
  rewrite Hlast. eexists. split; [vm_compute; reflexivity|].
  repeat split; reflexivity.
Defined.

(** ** The packet decoder on particular packets *)

(** An Access-Request of 30 octets with one User-Name. *)
Lemma access_request_example :
  exists r,
    dissect_radius toy_md5 user_dict [] example_fields true 10 [] zero_buffer
      access_request
    = Some r
    /\ d_col_info r = "Access-Request(1) (id=7, l=30)"%string
    /\ d_ending r = Completed
    /\ d_tree r
       = [ proto_tree_add_item 100 0 30;
           proto_tree_add_uint 102 0 1 1;
           proto_tree_add_uint_format 101 1 1 7 (PacketIdText 7);
           proto_tree_add_uint 103 2 2 30;
           proto_tree_add_item 104 4 16;
           proto_tree_add_text 20 10 AvpsText;
           proto_tree_add_text 20 10 (AvpHeader 10);
           proto_item_append_text (TypeText "User-Name" 1);
           proto_tree_add_uint 10 0 0 8;
           proto_item_append_text ColonText;
           proto_tree_add_item 7 22 8;
           proto_item_append_text
             (FormatText (octets [116; 101; 115; 116; 117; 115; 101; 114])) ].
Proof.
  eexists. split; [vm_compute; reflexivity|].
  split; [vm_compute; reflexivity|]. split; vm_compute; reflexivity.
Qed.

(** The packet with the Vendor-Specific attribute of declared length 7, as
    [dissect_radius] takes it: the dissection runs to its end. *)
Lemma short_vendor_specific_packet :
  exists r,
    dissect_radius toy_md5 empty_dict [] example_fields true 10 [] zero_buffer
      short_vsa_packet = Some r
    /\ d_ending r = Completed
    /\ In (proto_item_append_text (UnknownVendorText 9)) (d_tree r)
    /\ ~ In (proto_tree_add_text 20 0 AvpTooShort) (d_tree r).
Proof.
  eexists. split; [vm_compute; reflexivity|]. split; [vm_compute; reflexivity|].
  split; vm_compute; [tauto|].
  intros H. repeat (destruct H as [H|H]; [discriminate|]). exact H.
Qed.

(** The packet with the Vendor-Specific attribute of declared length 8 and
    no value, as [dissect_radius] takes it with the dictionary in which the
    attribute is tagged: the dissection ends in [BoundsError]. *)
Lemma empty_tagged_value_packet :
  exists r,
    dissect_radius toy_md5 tagged_dict [] example_fields true 10 [] zero_buffer
      empty_vsa_packet = Some r
    /\ d_col_info r = "Access-Request(1) (id=7, l=28)"%string
    /\ d_ending r = Thrown BoundsError.
Proof.
  eexists. split; [vm_compute; reflexivity|]. split; vm_compute; reflexivity.
Qed.

(** ** Registration for a vendor *)

(** X13. Registration under a vendor number other than 0 leaves the top-level
    table and every other vendor alone.  The vendor is in the dictionary
    afterwards, its other attributes are as before, and the entry for the
    attribute code carries the dissector: the entry that was there with
    only its dissector changed, or else a new descriptor named
    Unknown-Attribute-<code>, not encrypted and without a type. *)
Theorem register_vendor_attribute (fresh : radius_attr_info_t)
    (vendor_id attribute_id : Z) (d : radius_avp_dissector_t)
    (dict : radius_dictionary_t) :
  vendor_id <> 0 ->
  let dict' := radius_register_avp_dissector fresh vendor_id attribute_id d dict in
  let old_attrs :=
    default ∅ (vendor_attrs_by_id <$> vendors_by_id dict !! vendor_id) in
  attrs_by_id dict' = attrs_by_id dict
  /\ (forall v, v <> vendor_id -> vendors_by_id dict' !! v = vendors_by_id dict !! v)
  /\ exists vendor,
       vendors_by_id dict' !! vendor_id = Some vendor
       /\ (forall c, c <> attribute_id ->
             vendor_attrs_by_id vendor !! c = old_attrs !! c)
       /\ exists entry,
            vendor_attrs_by_id vendor !! attribute_id = Some entry
            /\ dissector entry = Some d
            /\ match old_attrs !! attribute_id with
               | Some old => entry = set_dissector d old
               | None =>
                   name entry = "Unknown-Attribute-" +:+ pretty attribute_id
                   /\ code entry = attribute_id
                   /\ encrypt entry = false
                   /\ type entry = None
               end.
Proof.
  intros Hv. unfold radius_register_avp_dissector.
  replace (vendor_id =? 0) with false by lia. simpl.
  destruct (vendors_by_id dict !! vendor_id) as [vendor|] eqn:Hvendor; simpl.
  - split; [reflexivity|].
    split; [intros v Hne; apply lookup_insert_ne; congruence|].
    eexists. split; [apply lookup_insert_eq|]. simpl.
    split; [intros c Hc; apply register_in_other; exact Hc|].
    eexists. split; [apply register_in_lookup|]. split; [reflexivity|].
    destruct (vendor_attrs_by_id vendor !! attribute_id); simpl;
      repeat split; reflexivity.
  - split; [reflexivity|].
    split; [intros v Hne; apply lookup_insert_ne; congruence|].
    eexists. split; [apply lookup_insert_eq|]. simpl.
    split; [intros c Hc; apply register_in_other; exact Hc|].
    eexists. split; [apply register_in_lookup|]. split; [reflexivity|].
    rewrite lookup_empty. simpl. repeat split; reflexivity.
Qed.

(** X14. A vendor the dictionary does not know is made on registration: it is
    named Unknown-Vendor-<number>, has the number as its code, is entered
    under that name as well, and holds the registered attribute alone.  A
    vendor the dictionary knows keeps its name and code, and the table of
    names is not touched. *)
Theorem register_makes_vendor (fresh : radius_attr_info_t)
    (vendor_id attribute_id : Z) (d : radius_avp_dissector_t)
    (dict : radius_dictionary_t) :
  vendor_id <> 0 ->
  let dict' := radius_register_avp_dissector fresh vendor_id attribute_id d dict in
  match vendors_by_id dict !! vendor_id with
  | None =>
      exists vendor,
        vendors_by_id dict' !! vendor_id = Some vendor
        /\ vendor_name vendor = "Unknown-Vendor-" +:+ pretty vendor_id
        /\ vendor_code vendor = vendor_id
        /\ vendors_by_name dict' !! vendor_name vendor = Some vendor_id
        /\ (forall n, n <> vendor_name vendor ->
              vendors_by_name dict' !! n = vendors_by_name dict !! n)
        /\ dom (vendor_attrs_by_id vendor) = {[ attribute_id ]}
  | Some old =>
      exists vendor,
        vendors_by_id dict' !! vendor_id = Some vendor
        /\ vendor_name vendor = vendor_name old
        /\ vendor_code vendor = vendor_code old
        /\ vendors_by_name dict' = vendors_by_name dict
  end.
Proof.
  intros Hv. unfold radius_register_avp_dissector.
  replace (vendor_id =? 0) with false by lia. simpl.
  destruct (vendors_by_id dict !! vendor_id) as [vendor|] eqn:Hvendor; simpl.
  - eexists. split; [apply lookup_insert_eq|]. repeat split; reflexivity.
  - eexists. split; [apply lookup_insert_eq|]. simpl.
    split; [reflexivity|]. split; [reflexivity|].
    split; [apply lookup_insert_eq|].
    split; [intros n Hn; apply lookup_insert_ne; congruence|].
    unfold register_in. rewrite lookup_empty. simpl.
    rewrite dom_insert_L, dom_empty_L, union_empty_r_L. reflexivity.
Qed.

(** X15. Under every vendor number, 0 or not, the last registration for an
    attribute is the one in force: two registrations leave the dictionary
    as the second alone would, and registering the same dissector twice is
    registering it once. *)
Theorem register_last_wins (fresh fresh' : radius_attr_info_t)
    (vendor_id attribute_id : Z) (d d' : radius_avp_dissector_t)
    (dict : radius_dictionary_t) :
  radius_register_avp_dissector fresh' vendor_id attribute_id d'
    (radius_register_avp_dissector fresh vendor_id attribute_id d dict)
  = radius_register_avp_dissector fresh vendor_id attribute_id d' dict.
Proof.
  unfold radius_register_avp_dissector.
  destruct (negb (vendor_id =? 0)); simpl.
  - destruct (vendors_by_id dict !! vendor_id) as [vendor|] eqn:Hvendor; simpl;
      rewrite lookup_insert_eq; simpl;
      rewrite register_in_twice, insert_insert_eq; reflexivity.
  - rewrite register_in_twice. reflexivity.
Qed.

Lemma register_in_decodes (fresh : radius_attr_info_t) (attribute_id : Z)
    (d : radius_avp_dissector_t) (by_id : gmap Z radius_attr_info_t) :
  map_Forall (fun _ a => has_decoder a = true) by_id ->
  map_Forall (fun _ a => has_decoder a = true) (register_in fresh attribute_id d by_id).
Proof.
  intros H. unfold register_in.
  destruct (by_id !! attribute_id); apply map_Forall_insert_2; try exact H;
    reflexivity.
Qed.

(** X16. Registration keeps a dictionary one whose descriptors can all decode,
    whatever the block the allocator hands out: the descriptor it makes has
    no type, but it has the dissector. *)
Theorem register_keeps_decoders (fresh : radius_attr_info_t)
    (vendor_id attribute_id : Z) (d : radius_avp_dissector_t)
    (dict : radius_dictionary_t) :
  dict_decodes dict ->
  dict_decodes (radius_register_avp_dissector fresh vendor_id attribute_id d dict).
Proof.
  intros [Hattrs Hvendors]. unfold radius_register_avp_dissector, dict_decodes.
  destruct (negb (vendor_id =? 0)); simpl.
  - destruct (vendors_by_id dict !! vendor_id) as [vendor|] eqn:Hvendor; simpl;
      (split; [exact Hattrs|]); apply map_Forall_insert_2; try exact Hvendors;
      simpl; apply register_in_decodes.
    + exact (Hvendors _ _ Hvendor).
    + apply map_Forall_empty.
  - split; [|exact Hvendors]. apply register_in_decodes, Hattrs.
Qed.

(** ** The dissector for the CoSine VP/VC attribute *)

Lemma string_length_append (s1 s2 : string) :
  String.length (s1 +:+ s2) = (String.length s1 + String.length s2)%nat.
Proof. induction s1 as [|c s1 IH]; simpl; [reflexivity|rewrite IH; reflexivity]. Qed.

Lemma length_list_ascii_of_string (s : string) :
  length (list_ascii_of_string s) = String.length s.
Proof. induction s as [|c s IH]; simpl; [reflexivity|rewrite IH; reflexivity]. Qed.

Lemma g_snprintf_fits (size : nat) (s : string) :
  (String.length s < size)%nat -> g_snprintf size s = s.
Proof.
  intros Hfits. unfold g_snprintf.
  rewrite take_ge by (rewrite length_list_ascii_of_string; lia).
  apply string_of_list_ascii_of_string.
Qed.

Lemma pretty_N_go_length (n : nat) :
  forall (x : N) (s : string),
    (x < 10 ^ N.of_nat n)%N ->
    (String.length (pretty_N_go x s) <= n + String.length s)%nat.
Proof.
  induction n as [|n IH]; intros x s Hx.
  - assert (x = 0%N) as -> by (simpl in Hx; lia). rewrite pretty_N_go_0. lia.
  - destruct (N.eq_dec x 0%N) as [->|Hne]; [rewrite pretty_N_go_0; lia|].
    rewrite pretty_N_go_step by lia.
    assert (x `div` 10 < 10 ^ N.of_nat n)%N as Hdiv.
    { apply N.Div0.div_lt_upper_bound.
      replace (N.of_nat (S n)) with (N.succ (N.of_nat n)) in Hx by lia.
      rewrite N.pow_succ_r' in Hx. exact Hx. }
    specialize (IH _ (String (pretty_N_char (x `mod` 10)) s) Hdiv).
    simpl in IH. lia.
Qed.

(** A number of sixteen bits has at most five decimal digits. *)
Lemma pretty_uint16 (v : Z) :
  0 <= v < 65536 -> (String.length (pretty v) <= 5)%nat.
Proof.
  intros Hv. destruct v as [|p|p]; [simpl; lia| |lia].
  unfold pretty, pretty_Z, pretty, pretty_positive, pretty, pretty_N.
  destruct (decide (N.pos p = 0%N)) as [|_]; [discriminate|].
  pose proof (pretty_N_go_length 5 (N.pos p) "") as H. simpl String.length in H.
  apply H. change (10 ^ N.of_nat 5)%N with 100000%N. lia.
Qed.

Lemma tvb_get_ntohs_pair (tvb : tvbuff_t) (offset : Z) :
  0 <= offset -> offset + 2 <= tvb_length tvb ->
  tvb_get_ntohs tvb offset = Ok (256 * byte_at tvb offset + byte_at tvb (offset + 1)).
Proof.
  intros Ho Hend. unfold tvb_get_ntohs, tvb_get_ntoh.
  rewrite tvb_memcpy_exists by lia. f_equal.
  unfold byte_at, tvb_length in *.
  replace (Z.to_nat (offset + 1)) with (S (Z.to_nat offset)) by lia.
  assert (Z.to_nat offset + 2 <= length tvb)%nat as Hn by lia.
  change (Z.to_nat 2) with 2%nat.
  generalize dependent (Z.to_nat offset). clear Ho Hend. intros n Hn.
  rewrite <- (take_drop n tvb) at 2 3.
  assert (length (take n tvb) = n) as Htake by (rewrite length_take; lia).
  rewrite !app_nth2 by lia. rewrite Htake, Nat.sub_diag.
  replace (S n - n)%nat with 1%nat by lia.
  destruct (drop n tvb) as [|b0 [|b1 rest]] eqn:Hdrop;
    pose proof (length_drop tvb n) as Hd; rewrite Hdrop in Hd; simpl in Hd; try lia.
  unfold ntoh. simpl. lia.
Qed.

Lemma dissect_cosine_vpvc_four (hf_vpi hf_vci : Z) (tvb : tvbuff_t) :
  tvb_length tvb = 4 ->
  let vpi := 256 * byte_at tvb 0 + byte_at tvb 1 in
  let vci := 256 * byte_at tvb 2 + byte_at tvb 3 in
  dissect_cosine_vpvc hf_vpi hf_vci tvb
  = Ok ([ proto_tree_add_uint hf_vpi 0 2 vpi; proto_tree_add_uint hf_vci 2 2 vci ],
        pretty vpi +:+ "/" +:+ pretty vci).
Proof.
  intros H4 vpi vci. unfold dissect_cosine_vpvc.
  replace (tvb_length tvb =? 4) with true by lia. simpl.
  rewrite (tvb_get_ntohs_pair tvb 0), (tvb_get_ntohs_pair tvb 2) by lia.
  change (0 + 1) with 1. change (2 + 1) with 3. fold vpi vci.
  rewrite g_snprintf_fits; [reflexivity|].
  unfold vpi, vci, byte_at.
  pose proof (u8_range (nth (Z.to_nat 0) tvb x00)).
  pose proof (u8_range (nth (Z.to_nat 1) tvb x00)).
  pose proof (u8_range (nth (Z.to_nat 2) tvb x00)).
  pose proof (u8_range (nth (Z.to_nat 3) tvb x00)).
  rewrite !string_length_append. simpl String.length.
  match goal with
  | |- (String.length (pretty ?a) + (_ + String.length (pretty ?b)) < _)%nat =>
      pose proof (pretty_uint16 a ltac:(lia)); pose proof (pretty_uint16 b ltac:(lia))
  end.
  lia.
Qed.

(** X17. [dissect_cosine_vpvc] never raises.  A value of four octets gives the
    two big-endian numbers of sixteen bits, each as an item, and the text
    "VPI/VCI" in decimal, which is never cut short by the 24 characters it
    is printed into; a value of any other length gives the note about the
    length and no item, and is not read. *)
Theorem dissect_cosine_vpvc_total (hf_vpi hf_vci : Z) (tvb : tvbuff_t) :
  let vpi := 256 * byte_at tvb 0 + byte_at tvb 1 in
  let vci := 256 * byte_at tvb 2 + byte_at tvb 3 in
  dissect_cosine_vpvc hf_vpi hf_vci tvb
  = if tvb_length tvb =? 4
    then Ok ([ proto_tree_add_uint hf_vpi 0 2 vpi; proto_tree_add_uint hf_vci 2 2 vci ],
             pretty vpi +:+ "/" +:+ pretty vci)
    else Ok ([], "[Wrong Lenght for VP/VC AVP]"%string).
Proof.
  intros vpi vci. destruct (tvb_length tvb =? 4) eqn:H4.
  - apply dissect_cosine_vpvc_four. lia.
  - unfold dissect_cosine_vpvc. rewrite H4. reflexivity.
Qed.

(** ** Dictionaries and the walk *)

Lemma decodable_empty (tvb : tvbuff_t) (offset : Z) :
  decodable empty_dict tvb offset = true.
Proof.
  unfold decodable, dictionary_lookup.
  destruct (avp_type_at tvb offset =? RADIUS_EAP_MESSAGE_CODE); [reflexivity|].
  destruct (avp_type_at tvb offset =? RADIUS_VENDOR_SPECIFIC_CODE).
  - destruct (tvb_get_ntohl tvb (offset + 2)); [|reflexivity].
    destruct (tvb_get_guint8 tvb (offset + 6)); reflexivity.
  - reflexivity.
Qed.

(** X19. With the empty dictionary, the one the registration makes when no
    dictionary could be loaded, no attribute stops a walk for being
    unknown: a sound sequence of attributes that lies in the buffer, with
    no more than 4096 octets of EAP-Message values, is walked to the end of
    the region, the offset at its end and nothing left of the length. *)
Theorem unknown_region_consumed (md5 : list byte -> list byte)
    (shared_secret authenticator buffer : list byte) (tvb : tvbuff_t)
    (offset length : Z) (offsets : list Z) (fuel : nat) :
  tvb_length tvb < 2 ^ 31 ->
  Z.of_nat (List.length buffer) = MAX_RADIUS_PACKET_SIZE ->
  0 <= offset -> 0 < length -> offset + length <= tvb_length tvb ->
  in_step tvb offsets offset (offset + length) ->
  forallb (vendor_specific_fits tvb) offsets = true ->
  foldr Z.add 0 (eap_fragment_sizes tvb offsets) <= MAX_RADIUS_PACKET_SIZE ->
  (List.length offsets <= fuel)%nat ->
  region_consumed md5 empty_dict shared_secret fuel authenticator buffer tvb
    offset length.
Proof.
  intros Htvb Hbuf Ho Hlen Hend Hstep Hfits Hsum Hfuel.
  assert (Hne : offsets <> []).
  { intros ->. simpl in Hstep. lia. }
  assert (Hdec : forallb (decodable empty_dict tvb) offsets = true).
  { apply forallb_forall. intros o _. apply decodable_empty. }
  destruct (in_step_completes md5 empty_dict shared_secret authenticator tvb offsets
              Htvb (walker_init buffer offset length) (offset + length) Hne)
    as (w & Hc & Hoff & Hzero); simpl; try assumption; try lia.
  { apply eap_inv_init, Hbuf. }
  exists (call_eap w). destruct (call_eap_offset w) as [-> ->].
  split; [|split; assumption].
  unfold dissect_attribute_value_pairs.
  replace (length =? 0) with false by lia.
  rewrite (do_while_of_completes _ _ _ _ _ _ _ _ Hc fuel Hfuel). reflexivity.
Qed.

Lemma avp_branch_agrees (d1 d2 : radius_dictionary_t) (tvb : tvbuff_t)
    (avp_type avp_length : Z) (w : walker) :
  vendors_by_id d1 = vendors_by_id d2 ->
  (forall t, t <> RADIUS_VENDOR_SPECIFIC_CODE -> t <> RADIUS_EAP_MESSAGE_CODE ->
     attrs_by_id d1 !! t = attrs_by_id d2 !! t) ->
  avp_branch d1 tvb avp_type avp_length w = avp_branch d2 tvb avp_type avp_length w.
Proof.
  intros Hv Ha. unfold avp_branch.
  destruct (avp_type =? RADIUS_VENDOR_SPECIFIC_CODE) eqn:H26.
  - unfold vendor_specific. rewrite Hv. reflexivity.
  - destruct (avp_type =? RADIUS_EAP_MESSAGE_CODE) eqn:H79; [reflexivity|].
    unfold plain_attribute. rewrite Ha by lia. reflexivity.
Qed.

Lemma avp_body_agrees (md5 : list byte -> list byte) (d1 d2 : radius_dictionary_t)
    (shared_secret authenticator : list byte) (tvb : tvbuff_t) (w : walker) :
  vendors_by_id d1 = vendors_by_id d2 ->
  (forall t, t <> RADIUS_VENDOR_SPECIFIC_CODE -> t <> RADIUS_EAP_MESSAGE_CODE ->
     attrs_by_id d1 !! t = attrs_by_id d2 !! t) ->
  avp_body md5 d1 shared_secret authenticator tvb w
  = avp_body md5 d2 shared_secret authenticator tvb w.
Proof.
  intros Hv Ha. unfold avp_body.
  unfold mbind, M_bind, bind, get, lift, modify, emit. simpl.
  destruct (tvb_get_guint8 tvb (w_offset w)) as [t|]; [|reflexivity].
  destruct (tvb_get_guint8 tvb (w_offset w + 1)) as [l|]; [|reflexivity].
  destruct (l <? 3); [reflexivity|].
  destruct (tvb_ensure_length_remaining tvb (to_gint (w_offset w + l - 1)));
    [|reflexivity].
  rewrite (avp_branch_agrees d1 d2) by assumption. reflexivity.
Qed.

(** X20. The walker never looks up the types 26 and 79 in the top-level table:
    a dissector registered for Vendor-Specific or for EAP-Message under
    vendor number 0 is never called, and the walk of every region is what
    it was without the registration. *)
Theorem registration_without_effect (md5 : list byte -> list byte)
    (fresh : radius_attr_info_t) (attribute_id : Z) (d : radius_avp_dissector_t)
    (dict : radius_dictionary_t) (shared_secret authenticator buffer : list byte)
    (tvb : tvbuff_t) (offset length : Z) (fuel : nat) :
  attribute_id = RADIUS_VENDOR_SPECIFIC_CODE
  \/ attribute_id = RADIUS_EAP_MESSAGE_CODE ->
  dissect_attribute_value_pairs md5
    (radius_register_avp_dissector fresh 0 attribute_id d dict)
    shared_secret fuel authenticator buffer tvb offset length
  = dissect_attribute_value_pairs md5 dict shared_secret fuel authenticator buffer
      tvb offset length.
Proof.
  intros Hcode.
  assert (Hloop : forall w,
            do_while md5 (radius_register_avp_dissector fresh 0 attribute_id d dict)
              shared_secret fuel authenticator tvb w
            = do_while md5 dict shared_secret fuel authenticator tvb w).
  { induction fuel as [|fuel IH]; intros w; [reflexivity|]. simpl.
    rewrite (avp_body_agrees md5 (radius_register_avp_dissector fresh 0 attribute_id d dict)
               dict).
    - destruct (avp_body md5 dict shared_secret authenticator tvb w)
        as [[[]| | |e] w1]; try reflexivity;
        (destruct (w_length w1 >? 0); [apply IH|reflexivity]).
    - reflexivity.
    - intros t H26 H79. unfold radius_register_avp_dissector. simpl.
      apply register_in_other. destruct Hcode; congruence. }
  unfold dissect_attribute_value_pairs. rewrite Hloop. reflexivity.
Qed.

(** ** Field registration *)

Lemma register_attrs_hf (a : radius_attr_info_t) (ri : hfett_t) :
  exists new,
    ri_hf (register_attrs a ri) = ri_hf ri ++ new
    /\ length new = field_count a
    /\ Forall (fun e => exists f, p_id e = Some (a, f)
                        /\ is_Some (hfinfo_name e) /\ is_Some (hfinfo_abbrev e)) new
    /\ NoDup (p_id <$> new).
Proof.
  unfold register_attrs, field_count.
  destruct (is_radius_integer a), (tagged a); simpl;
    (eexists; split; [reflexivity|]); (split; [reflexivity|]); split.
  all: lazymatch goal with
       | |- Forall _ _ =>
           repeat (apply Forall_cons_2; [eexists; repeat split; eauto|]);
           apply Forall_nil_2
       | |- NoDup _ =>
           simpl;
           repeat (apply NoDup_cons_2;
                   [ let Hin := fresh "Hin" in
                     intros Hin;
                     repeat (apply elem_of_cons in Hin as [Hin|Hin]; [congruence|]);
                     apply elem_of_nil in Hin; exact Hin |]);
           apply NoDup_nil_2
       end.
Qed.

(** X21. [register_attrs] appends to the array of fields two, three or four
    elements: one for the value and one for its length, one more for the
    64-bit value of an integer attribute and one more for the tag of a
    tagged one.  It never writes past the four elements of its array, and
    every element it appends is filled in: it points to a number of the
    descriptor, each to another, and has a name and a filter name.  To
    the array of subtree indexes it appends one element, of the size of a
    [gint], copied from the start of the pointer to the descriptor's [ett];
    the array of vendors is left alone. *)
Theorem register_attrs_fields (a : radius_attr_info_t) (ri : hfett_t) :
  (2 <= field_count a <= 4)%nat
  /\ ri_ett (register_attrs a ri) = ri_ett ri ++ [ett_address_head a]
  /\ ri_vend_vs (register_attrs a ri) = ri_vend_vs ri
  /\ exists new,
       ri_hf (register_attrs a ri) = ri_hf ri ++ new
       /\ length new = field_count a
       /\ Forall (fun e => exists f, p_id e = Some (a, f)
                           /\ is_Some (hfinfo_name e) /\ is_Some (hfinfo_abbrev e)) new
       /\ NoDup (p_id <$> new).
Proof.
  split; [unfold field_count; destruct (is_radius_integer a), (tagged a); simpl; lia|].
  split; [reflexivity|]. split; [reflexivity|]. apply register_attrs_hf.
Qed.

Lemma replace_hyphens_free (s : string) :
  ~ In "-"%char (list_ascii_of_string (replace_hyphens s)).
Proof.
  induction s as [|c s IH]; simpl; [tauto|].
  intros [H|H]; [|exact (IH H)].
  destruct (Ascii.eqb c "-") eqn:Hc; [discriminate|].
  apply Ascii.eqb_neq in Hc. congruence.
Qed.

Lemma replace_hyphens_length (s : string) :
  String.length (replace_hyphens s) = String.length s.
Proof. induction s as [|c s IH]; simpl; [reflexivity|rewrite IH; reflexivity]. Qed.

Lemma list_ascii_of_string_append (s1 s2 : string) :
  list_ascii_of_string (s1 +:+ s2) = list_ascii_of_string s1 ++ list_ascii_of_string s2.
Proof. induction s1 as [|c s1 IH]; simpl; [reflexivity|rewrite IH; reflexivity]. Qed.


(** What a run over the entries of a table of descriptors adds to the
    arrays. *)
Lemma foreach_register_attrs (entries : list (Z * radius_attr_info_t)) :
  forall ri,
    let r := g_hash_table_foreach entries register_attrs ri in
    length (ri_ett r) = (length (ri_ett ri) + length entries)%nat
    /\ ri_vend_vs r = ri_vend_vs ri
    /\ ri_hf ri `prefix_of` ri_hf r
    /\ ri_ett ri `prefix_of` ri_ett r
    /\ (length (ri_hf ri) + 2 * length entries <= length (ri_hf r)
        <= length (ri_hf ri) + 4 * length entries)%nat.
Proof.
  unfold g_hash_table_foreach.
  induction entries as [|[k a] entries IH]; intros ri; simpl.
  - repeat split; try reflexivity; lia.
  - destruct (IH (register_attrs a ri)) as (Hett & Hvs & Hhf & Hpe & Hbound).
    destruct (register_attrs_hf a ri) as (new & Hnew & Hcount & _).
    assert (2 <= field_count a <= 4)%nat as Hfc
      by (unfold field_count; destruct (is_radius_integer a), (tagged a); simpl; lia).
    rewrite Hnew, length_app, Hcount in Hbound.
    split; [rewrite Hett; simpl; rewrite length_app; simpl; lia|].
    split; [rewrite Hvs; reflexivity|].
    split; [etrans; [|exact Hhf]; rewrite Hnew; apply prefix_app_r; reflexivity|].
    split; [etrans; [|exact Hpe]; simpl; apply prefix_app_r; reflexivity|].
    lia.
Qed.

Lemma sum_list_permutation (l1 l2 : list nat) :
  l1 ≡ₚ l2 -> sum_list l1 = sum_list l2.
Proof.
  induction 1 as [|x l1 l2 _ IH|x y l|l1 l2 l3 _ IH1 _ IH2]; simpl; lia.
Qed.

(** What [register_vendors] adds for one vendor. *)
Lemma register_vendors_adds
    (attrs_order : gmap Z radius_attr_info_t -> list (Z * radius_attr_info_t))
    (vnd : radius_vendor_info_t) (ri : hfett_t) :
  traversal attrs_order ->
  let r := register_vendors attrs_order vnd ri in
  length (ri_ett r) = (length (ri_ett ri) + size (vendor_attrs_by_id vnd))%nat
  /\ ri_vend_vs r = ri_vend_vs ri ++ [(vendor_code vnd, vendor_name vnd)]
  /\ ri_hf ri `prefix_of` ri_hf r
  /\ ri_ett ri `prefix_of` ri_ett r
  /\ (length (ri_hf ri) + 2 * size (vendor_attrs_by_id vnd) <= length (ri_hf r)
      <= length (ri_hf ri) + 4 * size (vendor_attrs_by_id vnd))%nat.
Proof.
  intros Horder. unfold register_vendors.
  match goal with
  | |- context [g_hash_table_foreach ?es register_attrs ?r1] =>
      destruct (foreach_register_attrs es r1) as (Hett & Hvs & Hhf & Hpe & Hbound)
  end.
  rewrite (Permutation_length (Horder (vendor_attrs_by_id vnd))), length_map_to_list
    in Hett, Hbound.
  simpl in *. repeat split; try assumption; lia.
Qed.

(** What a run over the entries of a table of vendors adds to the
    arrays. *)
Lemma foreach_register_vendors
    (attrs_order : gmap Z radius_attr_info_t -> list (Z * radius_attr_info_t))
    (entries : list (Z * radius_vendor_info_t)) :
  traversal attrs_order ->
  forall ri,
    let r := g_hash_table_foreach entries (register_vendors attrs_order) ri in
    let attributes :=
      sum_list ((fun entry => size (vendor_attrs_by_id entry.2)) <$> entries) in
    length (ri_ett r) = (length (ri_ett ri) + attributes)%nat
    /\ length (ri_vend_vs r) = (length (ri_vend_vs ri) + length entries)%nat
    /\ (length (ri_hf ri) + 2 * attributes <= length (ri_hf r)
        <= length (ri_hf ri) + 4 * attributes)%nat
    /\ ri_hf ri `prefix_of` ri_hf r
    /\ ri_ett ri `prefix_of` ri_ett r
    /\ ri_vend_vs ri `prefix_of` ri_vend_vs r.
Proof.
  intros Horder. unfold g_hash_table_foreach.
  induction entries as [|[k vnd] entries IH]; intros ri; simpl.
  - repeat split; try reflexivity; lia.
  - destruct (IH (register_vendors attrs_order vnd ri))
      as (Hett & Hvs & Hbound & Hhf & Hpe & Hpv).
    destruct (register_vendors_adds attrs_order vnd ri Horder)
      as (Hett1 & Hvs1 & Hhf1 & Hpe1 & Hbound1).
    simpl in Hett1, Hvs1, Hhf1, Hpe1, Hbound1.
    rewrite Hvs1, length_app in Hvs. simpl in Hvs. unfold fmap in *.
    split; [lia|]. split; [lia|]. split; [lia|].
    split; [etrans; eassumption|].
    split; [etrans; eassumption|].
    etrans; [|exact Hpv]. rewrite Hvs1. apply prefix_app_r. reflexivity.
Qed.

(** X23. Registering a dictionary only appends to the three arrays, so what
    they held keeps its place.  In whatever order the tables are gone
    through, it appends one element to the array of subtree indexes for
    every descriptor of the dictionary, top-level or of a vendor, between
    two and four fields for each of them, and one entry of number and name
    for every vendor. *)
Theorem register_dictionary_counts
    (attrs_order : gmap Z radius_attr_info_t -> list (Z * radius_attr_info_t))
    (vendors_order : gmap Z radius_vendor_info_t -> list (Z * radius_vendor_info_t))
    (dict : radius_dictionary_t) (ri : hfett_t) :
  traversal attrs_order ->
  traversal vendors_order ->
  let r := register_dictionary attrs_order vendors_order dict ri in
  length (ri_ett r) = (length (ri_ett ri) + dictionary_attributes dict)%nat
  /\ length (ri_vend_vs r) = (length (ri_vend_vs ri) + size (vendors_by_id dict))%nat
  /\ (length (ri_hf ri) + 2 * dictionary_attributes dict <= length (ri_hf r)
      <= length (ri_hf ri) + 4 * dictionary_attributes dict)%nat
  /\ ri_hf ri `prefix_of` ri_hf r
  /\ ri_ett ri `prefix_of` ri_ett r
  /\ ri_vend_vs ri `prefix_of` ri_vend_vs r.
Proof.
  intros Hattrs Hvendors. unfold register_dictionary, dictionary_attributes.
  destruct (foreach_register_attrs (attrs_order (attrs_by_id dict)) ri)
    as (Hett0 & Hvs0 & Hhf0 & Hpe0 & Hbound0).
  rewrite (Permutation_length (Hattrs (attrs_by_id dict))), length_map_to_list
    in Hett0, Hbound0.
  set (r0 := g_hash_table_foreach (attrs_order (attrs_by_id dict)) register_attrs ri)
    in *.
  destruct (foreach_register_vendors attrs_order (vendors_order (vendors_by_id dict))
              Hattrs r0) as (Hett & Hvs & Hbound & Hhf & Hpe & Hpv).
  rewrite (Permutation_length (Hvendors (vendors_by_id dict))), length_map_to_list
    in Hvs.
  rewrite (sum_list_permutation _ _
             (fmap_Permutation (fun entry => size (vendor_attrs_by_id entry.2)) _ _
                (Hvendors (vendors_by_id dict)))) in Hett, Hbound.
  simpl.
  split; [lia|]. split; [rewrite Hvs, Hvs0; reflexivity|]. split; [lia|].
  split; [etrans; eassumption|].
  split; [etrans; eassumption|].
  rewrite <- Hvs0. exact Hpv.
Qed.

(** X24. The shared secret, the digest function and the authenticator bear on
    nothing but string attributes marked encrypted: the decoder of every
    other descriptor does the same whatever they are. *)
Theorem key_only_for_encrypted (md5 md5' : list byte -> list byte)
    (shared_secret shared_secret' authenticator authenticator' : list byte)
    (a : radius_attr_info_t) (tvb : tvbuff_t) (offset len : Z) (w : walker) :
  encrypt a = false \/ type a <> Some type_radius_string ->
  call_type md5 shared_secret authenticator a tvb offset len w
  = call_type md5' shared_secret' authenticator' a tvb offset len w.
Proof.
  intros Hplain. unfold call_type.
  destruct (type a) as [[]|]; try reflexivity.
  unfold radius_string. destruct Hplain as [-> | Hne]; [reflexivity|congruence].
Qed.

(** ** The further properties on particular inputs *)

Ltac by_computation := vm_compute; first [reflexivity | discriminate].

(** The Access-Request cut to 10 octets: the header items and the length
    are shown, the item for the authenticator raises. *)
Lemma truncated_packet_witness :
  4 <= tvb_length (take 10 access_request) < 20
  /\ 20 <= packet_length (take 10 access_request)
  /\ dissect_radius toy_md5 user_dict [] example_fields true 10 [] zero_buffer
       (take 10 access_request)
     = Some {| d_col_info := "Access-Request(1) (id=7, l=30)";
               d_tree := [ proto_tree_add_item 100 0 30;
                           proto_tree_add_uint 102 0 1 1;
                           proto_tree_add_uint_format 101 1 1 7 (PacketIdText 7);
                           proto_tree_add_uint 103 2 2 30 ];
               d_authenticator := [];
               d_eap_buffer := zero_buffer; d_ending := Thrown BoundsError |}.
Proof.
  assert (H1 : 4 <= tvb_length (take 10 access_request) < 20)
    by (split; by_computation).
  assert (H2 : 20 <= packet_length (take 10 access_request)) by by_computation.
  split; [exact H1|]. split; [exact H2|].
  exact (proj1 (proj2 (truncated_packet toy_md5 user_dict [] example_fields []
                         zero_buffer (take 10 access_request))) H1 H2 10%nat).
Defined.

(** The Access-Request cut to 25 octets: the sixteen octets are stored, the
    header is shown in full, and the walker raises at the attribute that
    reaches past the end of the capture. *)
Lemma truncated_region_example :
  dissect_radius toy_md5 user_dict [] example_fields true 10 [] zero_buffer
    (take 25 access_request)
  = Some {| d_col_info := "Access-Request(1) (id=7, l=30)";
            d_tree := [ proto_tree_add_item 100 0 30;
                        proto_tree_add_uint 102 0 1 1;
                        proto_tree_add_uint_format 101 1 1 7 (PacketIdText 7);
                        proto_tree_add_uint 103 2 2 30;
                        proto_tree_add_item 104 4 16;
                        proto_tree_add_text 20 10 AvpsText ];
            d_authenticator := take 16 access_request;
            d_eap_buffer := zero_buffer; d_ending := Thrown BoundsError |}.
Proof. vm_compute. reflexivity. Qed.

Lemma bogus_header_length_witness :
  dissect_radius toy_md5 user_dict [] example_fields true 10 [] zero_buffer
    bogus_packet
  = Some {| d_col_info := info_column bogus_packet;
            d_tree := header_items example_fields bogus_packet
                      ++ [proto_tree_add_text 2 2 (BogusLengthText 10)];
            d_authenticator := [];
            d_eap_buffer := zero_buffer; d_ending := Returned |}.
Proof.
  apply (bogus_header_length toy_md5 user_dict [] example_fields true 10 []
           zero_buffer bogus_packet); by_computation.
Defined.

Lemma header_only_packet_witness :
  dissect_radius toy_md5 user_dict [] example_fields true 10 [] zero_buffer
    header_packet
  = Some {| d_col_info := info_column header_packet;
            d_tree := header_items example_fields header_packet
                      ++ length_items example_fields header_packet;
            d_authenticator := take 16 header_packet;
            d_eap_buffer := zero_buffer; d_ending := Completed |}.
Proof.
  apply (header_only_packet toy_md5 user_dict [] example_fields true 10 []
           zero_buffer header_packet); by_computation.
Defined.

Lemma dissect_radius_walks_witness :
  dissect_radius toy_md5 user_dict [] example_fields true 10 [] zero_buffer
    access_request
  = match dissect_attribute_value_pairs toy_md5 user_dict [] 10
            (take 16 access_request) zero_buffer access_request 20
            (packet_length access_request - 20) with
    | None => None
    | Some (e, w) =>
        Some {| d_col_info := info_column access_request;
                d_tree :=
                  header_items example_fields access_request
                  ++ length_items example_fields access_request
                  ++ [proto_tree_add_text 20 (packet_length access_request - 20)
                        AvpsText]
                  ++ w_tree w;
                d_authenticator := take 16 access_request;
                d_eap_buffer := eap_buffer w;
                d_ending := e |}
    end.
Proof.
  apply (dissect_radius_walks toy_md5 user_dict [] example_fields true 10 []
           zero_buffer access_request); by_computation.
Defined.

(** The same packet on the pass without a tree: the Info column and nothing
    else. *)
Lemma no_tree_example :
  dissect_radius toy_md5 user_dict [] example_fields false 10 [] zero_buffer
    access_request
  = Some {| d_col_info := "Access-Request(1) (id=7, l=30)"; d_tree := [];
            d_authenticator := []; d_eap_buffer := zero_buffer;
            d_ending := Completed |}.
Proof. vm_compute. reflexivity. Qed.

Lemma tagged_dict_decodes : dict_decodes tagged_dict.
Proof.
  split; apply map_Forall_singleton; [reflexivity|].
  apply map_Forall_singleton. reflexivity.
Qed.

Lemma tagged_dict_typed : dict_typed tagged_dict.
Proof.
  split; apply map_Forall_singleton; [split; [reflexivity|discriminate]|].
  apply map_Forall_singleton. split; [reflexivity|discriminate].
Qed.


Lemma wrong_length_is_noted_witness :
  call_type toy_md5 [] [] tagged_attr [] 0 5 (walker_init [] 0 0)
  = (Val tt,
     set_tree [proto_item_append_text (UnhandledIntLenText (to_guint32 5))]
       (walker_init [] 0 0)).
Proof.
  apply (wrong_length_is_noted toy_md5 [] [] tagged_attr type_radius_integer
           (UnhandledIntLenText (to_guint32 5)) [] 0 5 (walker_init [] 0 0));
    reflexivity.
Defined.

Lemma radius_integer_value_witness :
  radius_integer tagged_attr tagged_packet 23 3 (walker_init [] 23 0)
  = (Val tt,
     set_tree [proto_tree_add_uint 2 23 3 1; proto_item_append_text (UintText 1)]
       (walker_init [] 23 0)).
Proof.
  refine (proj2 (radius_integer_value tagged_attr tagged_packet 23 3
                   (walker_init [] 23 0) _ _ _)).
  - lia.
  - by_computation.
  - right. left. reflexivity.
Defined.

Lemma decrypted_text_fits_witness :
  18 + 2
  <= Z.of_nat (String.length
                 (String dquote ("@@@@\000\310aaaaaaaaaa\001b" +:+ String dquote "")))
  <= 4 * 18 + 2.
Proof.
  refine (proj1 (decrypted_text_fits toy_md5 (octets [1; 2]) (octets [3; 4])
                   (octets ([65; 66; 67; 68; 0; 200] ++ repeat 97 10 ++ [1; 98]))
                   0 18 _ _ decrypt_example)).
  lia.
Defined.

Lemma type_decoders_return_witness :
  exists w',
    call_type toy_md5 [] [] user_name_attr access_request 22 8 (walker_init [] 22 0)
    = (Val tt, w')
    /\ quiet (walker_init [] 22 0) w'.
Proof.
  apply (type_decoders_return toy_md5 [] [] user_name_attr access_request 22 8
           (walker_init [] 22 0)); first [lia | by_computation].
Defined.

Lemma completed_walk_accounts_witness :
  match dissect_attribute_value_pairs toy_md5 empty_dict [] 5 [] zero_buffer
          overshoot_packet 20 5 with
  | Some (Completed, w) => w_offset w = 20 + 5 - w_length w /\ w_length w = -1
  | _ => False
  end.
Proof.
  destruct (dissect_attribute_value_pairs toy_md5 empty_dict [] 5 [] zero_buffer
              overshoot_packet 20 5) as [[[| |e] w]|] eqn:Hw;
    try (vm_compute in Hw; discriminate).
  split.
  - apply (completed_walk_accounts toy_md5 empty_dict [] 5 [] zero_buffer
             overshoot_packet 20 5 w); [by_computation|lia|exact Hw].
  - vm_compute in Hw. injection Hw as <-. reflexivity.
Defined.

Lemma register_vendor_attribute_witness :
  attrs_by_id (radius_register_avp_dissector tagged_attr 9 2 (fun _ => "x"%string)
                 tagged_dict)
  = attrs_by_id tagged_dict.
Proof.
  refine (proj1 (register_vendor_attribute tagged_attr 9 2 (fun _ => "x"%string)
                   tagged_dict _)).
  discriminate.
Defined.

Lemma register_makes_vendor_witness :
  exists vendor,
    vendors_by_id (radius_register_avp_dissector tagged_attr 7 2 (fun _ => "x"%string)
                     tagged_dict) !! 7 = Some vendor
    /\ vendor_name vendor = "Unknown-Vendor-" +:+ pretty 7
    /\ vendor_code vendor = 7.
Proof.
  destruct (register_makes_vendor tagged_attr 7 2 (fun _ => "x"%string) tagged_dict)
    as (vendor & H1 & H2 & H3 & _); [discriminate|].
  exists vendor. auto.
Defined.

Lemma register_keeps_decoders_witness :
  dict_decodes (radius_register_avp_dissector tagged_attr 7 2 (fun _ => "x"%string)
                  tagged_dict).
Proof.
  apply (register_keeps_decoders tagged_attr 7 2 (fun _ => "x"%string) tagged_dict).
  exact tagged_dict_decodes.
Defined.

Lemma unknown_region_consumed_witness :
  region_consumed toy_md5 empty_dict [] 1 [] zero_buffer unknown_packet 20 5.
Proof.
  apply (unknown_region_consumed toy_md5 [] [] zero_buffer unknown_packet 20 5 [20] 1);
    try by_computation; try lia.
  apply in_stepb_in_step. by_computation.
Defined.

Lemma registration_without_effect_witness :
  dissect_attribute_value_pairs toy_md5
    (radius_register_avp_dissector tagged_attr 0 79 (fun _ => "x"%string) empty_dict)
    [] 10 [] zero_buffer eap_packet 20 34
  = dissect_attribute_value_pairs toy_md5 empty_dict [] 10 [] zero_buffer
      eap_packet 20 34.
Proof.
  apply (registration_without_effect toy_md5 tagged_attr 79 (fun _ => "x"%string)
           empty_dict [] [] zero_buffer eap_packet 20 34 10).
  right. reflexivity.
Defined.

Lemma truncated_attribute_witness :
  avp_body toy_md5 empty_dict [] [] (take 25 overshoot_packet)
    (walker_init zero_buffer 20 5)
  = (Throw BoundsError, set_length (to_gint (5 - 6)) (walker_init zero_buffer 20 5)).
Proof.
  apply (truncated_attribute toy_md5 empty_dict [] [] (take 25 overshoot_packet)
           (walker_init zero_buffer 20 5) 1 6); by_computation.
Defined.

Lemma key_only_for_encrypted_witness :
  call_type toy_md5 (octets [1]) (octets [2]) user_name_attr access_request 22 8
    (walker_init [] 22 0)
  = call_type (fun _ => []) [] [] user_name_attr access_request 22 8
      (walker_init [] 22 0).
Proof.
  apply (key_only_for_encrypted toy_md5 (fun _ => []) (octets [1]) [] (octets [2]) []
           user_name_attr access_request 22 8 (walker_init [] 22 0)).
  left. reflexivity.
Defined.

Lemma register_dictionary_counts_witness :
  let r :=
    register_dictionary map_to_list map_to_list tagged_dict
      {| ri_hf := []; ri_ett := []; ri_vend_vs := [] |} in
  length (ri_ett r) = 2%nat
  /\ ri_vend_vs r = [(9, "Cisco"%string)]
  /\ length (ri_hf r) = 8%nat.
Proof.
  destruct (register_dictionary_counts map_to_list map_to_list tagged_dict
              {| ri_hf := []; ri_ett := []; ri_vend_vs := [] |})
    as (Hett & _); [intros table; reflexivity..|].
  split; [exact Hett|]. split; vm_compute; reflexivity.
Defined.
